(** * zeroshot: provider adapters, direct-API fast path, stream parser and
      isolation manager

    A shallow embedding of the parts of the orchestrator that its
    specification makes precise statements about, followed by the proofs of
    those statements.

    Conventions of the embedding.
    - A JavaScript string is the list of its UTF-16 code units ([jstr]).
      [str] turns an ASCII literal into such a list; [dq] does the same and
      writes a double quote for every apostrophe, so that JSON texts can be
      written down legibly.
    - A value that comes out of [JSON.parse], or out of a configuration
      object, is a [json]; [value] adds [undefined].
    - A function that may throw returns a [result].
    - An object used as a table (level mappings, capability sets, the
      provider's counters) is a [gmap] over its own keys. *)

From Stdlib Require Import ZArith NArith Ascii String DecimalString.
From stdpp Require Import gmap strings list fin_maps.

Local Open Scope Z_scope.
Set Warnings "-register-all,-clear-no-such-hyp,-unused-intro-pattern".

(* ===================================================================== *)
(** * The host language *)
(* ===================================================================== *)

Module Js.

Definition cu := N.
Definition jstr := list N.

Definition str (s : string) : jstr :=
  (fun a => N_of_ascii a) <$> list_ascii_of_string s.

(** Apostrophes (39) become double quotes (34). *)
Definition dq (s : string) : jstr :=
  (fun c => if (c =? 39)%N then 34%N else c) <$> str s.

Inductive json :=
| JNull
| JBool (b : bool)
| JNum (lexeme : jstr)
| JStr (s : jstr)
| JArr (items : list json)
| JObj (fields : list (jstr * json)).

Inductive value :=
| Undefined
| Json (j : json).

Inductive exn :=
| TypeError
| SyntaxError
| Error (message : jstr).

Inductive result (A : Type) :=
| Ok (a : A)
| Throw (e : exn).
Arguments Ok {A} a.
Arguments Throw {A} e.

Definition bind {A B} (r : result A) (k : A -> result B) : result B :=
  match r with
  | Ok a => k a
  | Throw e => Throw e
  end.

(** [try r catch h]. *)
Definition catch {A} (r : result A) (h : exn -> result A) : result A :=
  match r with
  | Ok a => Ok a
  | Throw e => h e
  end.

(** What the host does with a number literal is IEEE-754 arithmetic and
    stays outside the embedding: whether the number is [0] or [NaN]
    ([number_truthy]) and how it prints ([number_to_string]). So does
    [JSON.stringify], which prints numbers and orders properties. *)
Class Host := {
  number_truthy : jstr -> bool;
  number_to_string : jstr -> jstr;
  stringify : json -> jstr;
}.

Definition nonempty (s : jstr) : bool :=
  match s with
  | [] => false
  | _ :: _ => true
  end.

(** [ToBoolean]. *)
Definition truthy `{Host} (v : value) : bool :=
  match v with
  | Undefined => false
  | Json JNull => false
  | Json (JBool b) => b
  | Json (JNum n) => number_truthy n
  | Json (JStr s) => nonempty s
  | Json (JArr _) => true
  | Json (JObj _) => true
  end.

(** [a || b]. *)
Definition or_else `{Host} (a b : value) : value :=
  if truthy a then a else b.

(** [a ?? b]. *)
Definition nullish (a b : value) : value :=
  match a with
  | Undefined | Json JNull => b
  | _ => a
  end.

(** [v === 'literal']. *)
Definition is_str (v : value) (s : jstr) : bool :=
  match v with
  | Json (JStr t) => bool_decide (t = s)
  | _ => false
  end.

(** [v === true], [v === false]. *)
Definition is_bool (v : value) (b : bool) : bool :=
  match v with
  | Json (JBool c) => Bool.eqb c b
  | _ => false
  end.

(** The value of an own property; of the occurrences of a key that
    [JSON.parse] met, the last one stays. *)
Fixpoint own (p : jstr) (fields : list (jstr * json)) : value :=
  match fields with
  | [] => Undefined
  | (k, j) :: rest =>
      match own p rest with
      | Undefined => if bool_decide (k = p) then Json j else Undefined
      | found => found
      end
  end.

(** [v.p], for the property names this program reads (none of them is a
    member of a built-in prototype): reading a property of [undefined] or
    [null] throws, a primitive or an array has no such property. *)
Definition get (v : value) (p : jstr) : result value :=
  match v with
  | Undefined | Json JNull => Throw TypeError
  | Json (JObj fields) => Ok (own p fields)
  | Json _ => Ok Undefined
  end.

(** [v?.p]. *)
Definition get_opt (v : value) (p : jstr) : value :=
  match v with
  | Json (JObj fields) => own p fields
  | _ => Undefined
  end.

(** What every object inherits from [Object.prototype]. Reading one of
    these names from an object that has no own property of that name yields
    a function (for [__proto__], the prototype itself): a truthy value that
    has none of the properties this program goes on to read. *)
Definition prototype_names : list jstr :=
  str <$> [ "constructor"; "__defineGetter__"; "__defineSetter__";
            "hasOwnProperty"; "__lookupGetter__"; "__lookupSetter__";
            "isPrototypeOf"; "propertyIsEnumerable"; "toString"; "valueOf";
            "__proto__"; "toLocaleString" ]%string.

Definition inherited (name : jstr) : bool :=
  bool_decide (name ∈ prototype_names).

(** [\s] of a regular expression, and what [trim] strips: WhiteSpace and
    LineTerminator. *)
Definition is_space (c : cu) : bool :=
  ((9 <=? c) && (c <=? 13) || (c =? 32) || (c =? 160) || (c =? 5760)
   || (8192 <=? c) && (c <=? 8202) || (c =? 8232) || (c =? 8233)
   || (c =? 8239) || (c =? 8287) || (c =? 12288) || (c =? 65279))%N.

(** [\w] of a regular expression without flags: [A-Za-z0-9_]. *)
Definition is_word (c : cu) : bool :=
  ((65 <=? c) && (c <=? 90) || (97 <=? c) && (c <=? 122)
   || (48 <=? c) && (c <=? 57) || (c =? 95))%N.

Fixpoint starts_with (p s : jstr) : bool :=
  match p, s with
  | [], _ => true
  | _ :: _, [] => false
  | a :: p', b :: s' => (a =? b)%N && starts_with p' s'
  end.

(** The first occurrence of [p] in [s]: what precedes it and what follows
    it. *)
Fixpoint find_sub (p s : jstr) : option (jstr * jstr) :=
  if starts_with p s then Some ([], drop (length p) s)
  else match s with
       | [] => None
       | c :: s' =>
           match find_sub p s' with
           | Some (before, after) => Some (c :: before, after)
           | None => None
           end
       end.

Fixpoint drop_spaces (s : jstr) : jstr :=
  match s with
  | c :: s' => if is_space c then drop_spaces s' else s
  | [] => []
  end.

(** [s.trim()]. *)
Definition trim (s : jstr) : jstr :=
  reverse (drop_spaces (reverse (drop_spaces s))).

End Js.

(* ===================================================================== *)
(** * [JSON.parse] *)
(* ===================================================================== *)

(** The code units that the grammar names: 9, 10, 13 and 32 are the
    white space; 34 is the double quote, 92 the backslash, 47 the slash;
    123 and 125 are the braces, 91 and 93 the brackets, 44 the comma, 58 the
    colon; 48 to 57 are the digits, 45 and 43 the signs, 46 the dot, 101 and
    69 the letter e; 117 is the u of an escape, and 116, 102 and 110 are the
    first letters of [true], [false] and [null]. *)
Module JSON.
Import Js.
Local Open Scope N_scope.

Definition is_ws (c : cu) : bool :=
  (c =? 32) || (c =? 9) || (c =? 10) || (c =? 13).

Fixpoint skip_ws (s : jstr) : jstr :=
  match s with
  | c :: s' => if is_ws c then skip_ws s' else s
  | [] => []
  end.

Definition is_digit (c : cu) : bool := (48 <=? c) && (c <=? 57).

(** The longest prefix of digits, and the rest. *)
Fixpoint digits (s : jstr) : jstr * jstr :=
  match s with
  | c :: s' =>
      if is_digit c then let (ds, r) := digits s' in (c :: ds, r)
      else ([], s)
  | [] => ([], [])
  end.

Definition hex (c : cu) : option N :=
  if is_digit c then Some (c - 48)
  else if (97 <=? c) && (c <=? 102) then Some (c - 87)
  else if (65 <=? c) && (c <=? 70) then Some (c - 55)
  else None.

(** The character a one-letter escape stands for. *)
Definition escape (c : cu) : option cu :=
  if (c =? 34) || (c =? 92) || (c =? 47) then Some c
  else if c =? 98 then Some 8
  else if c =? 102 then Some 12
  else if c =? 110 then Some 10
  else if c =? 114 then Some 13
  else if c =? 116 then Some 9
  else None.

(** A string, read from just after its opening quote. *)
Fixpoint string_body (s : jstr) : option (jstr * jstr) :=
  match s with
  | [] => None
  | c :: r =>
      if c =? 34 then Some ([], r)
      else if c =? 92 then
        match r with
        | [] => None
        | e :: r1 =>
            if e =? 117 then
              match r1 with
              | h1 :: h2 :: h3 :: h4 :: r2 =>
                  match hex h1, hex h2, hex h3, hex h4, string_body r2 with
                  | Some a, Some b, Some c', Some d, Some (t, rest) =>
                      Some (((a * 16 + b) * 16 + c') * 16 + d :: t, rest)
                  | _, _, _, _, _ => None
                  end
              | _ => None
              end
            else
              match escape e, string_body r1 with
              | Some x, Some (t, rest) => Some (x :: t, rest)
              | _, _ => None
              end
        end
      else if c <? 32 then None
      else
        match string_body r with
        | Some (t, rest) => Some (c :: t, rest)
        | None => None
        end
  end.

(** A number: an optional minus sign, then 0 or a digit from 1 to 9 with
    more digits, then an optional fraction (a dot and at least one digit),
    then an optional exponent (e or E, an optional sign, at least one digit).
    The lexeme and the rest. *)
Definition number_int (s : jstr) : option (jstr * jstr) :=
  match s with
  | c :: r =>
      if c =? 48 then Some ([c], r)
      else if is_digit c then let (ds, r') := digits r in Some (c :: ds, r')
      else None
  | [] => None
  end.

Definition number_frac (s : jstr) : option (jstr * jstr) :=
  match s with
  | c :: r =>
      if c =? 46 then
        match digits r with
        | ([], _) => None
        | (ds, r') => Some (c :: ds, r')
        end
      else Some ([], s)
  | [] => Some ([], [])
  end.

Definition number_exp (s : jstr) : option (jstr * jstr) :=
  match s with
  | c :: r =>
      if (c =? 101) || (c =? 69) then
        let (sign, r1) :=
          match r with
          | x :: r1 => if (x =? 43) || (x =? 45) then ([x], r1) else ([], r)
          | [] => ([], r)
          end in
        match digits r1 with
        | ([], _) => None
        | (ds, r') => Some (c :: sign ++ ds, r')
        end
      else Some ([], s)
  | [] => Some ([], [])
  end.

Definition number (s : jstr) : option (jstr * jstr) :=
  let (sign, s0) :=
    match s with
    | c :: r => if c =? 45 then ([c], r) else ([], s)
    | [] => ([], s)
    end in
  match number_int s0 with
  | Some (i, s1) =>
      match number_frac s1 with
      | Some (f, s2) =>
          match number_exp s2 with
          | Some (e, s3) => Some (sign ++ i ++ f ++ e, s3)
          | None => None
          end
      | None => None
      end
  | None => None
  end.

Definition keyword (k : string) (j : json) (s : jstr) : option (json * jstr) :=
  if starts_with (str k) s then Some (j, drop (length (str k)) s) else None.

Fixpoint value (fuel : nat) (s : jstr) : option (json * jstr) :=
  match fuel with
  | O => None
  | S fuel =>
      match skip_ws s with
      | [] => None
      | c :: r =>
          if c =? 123 then
            match skip_ws r with
            | [] => None
            | d :: r' =>
                if d =? 125 then Some (JObj [], r')
                else match members fuel r with
                     | Some (fs, rest) => Some (JObj fs, rest)
                     | None => None
                     end
            end
          else if c =? 91 then
            match skip_ws r with
            | [] => None
            | d :: r' =>
                if d =? 93 then Some (JArr [], r')
                else match elements fuel r with
                     | Some (vs, rest) => Some (JArr vs, rest)
                     | None => None
                     end
            end
          else if c =? 34 then
            match string_body r with
            | Some (t, rest) => Some (JStr t, rest)
            | None => None
            end
          else if c =? 116 then keyword "true" (JBool true) (c :: r)
          else if c =? 102 then keyword "false" (JBool false) (c :: r)
          else if c =? 110 then keyword "null" JNull (c :: r)
          else
            match number (c :: r) with
            | Some (n, rest) => Some (JNum n, rest)
            | None => None
            end
      end
  end
with elements (fuel : nat) (s : jstr) : option (list json * jstr) :=
  match fuel with
  | O => None
  | S fuel =>
      match value fuel s with
      | Some (v, r) =>
          match skip_ws r with
          | [] => None
          | d :: r' =>
              if d =? 93 then Some ([v], r')
              else if d =? 44 then
                match elements fuel r' with
                | Some (vs, rest) => Some (v :: vs, rest)
                | None => None
                end
              else None
          end
      | None => None
      end
  end
with members (fuel : nat) (s : jstr) : option (list (jstr * json) * jstr) :=
  match fuel with
  | O => None
  | S fuel =>
      match skip_ws s with
      | [] => None
      | q :: r =>
          if q =? 34 then
            match string_body r with
            | Some (k, r1) =>
                match skip_ws r1 with
                | [] => None
                | colon :: r2 =>
                    if colon =? 58 then
                      match value fuel r2 with
                      | Some (v, r3) =>
                          match skip_ws r3 with
                          | [] => None
                          | d :: r4 =>
                              if d =? 125 then Some ([(k, v)], r4)
                              else if d =? 44 then
                                match members fuel r4 with
                                | Some (fs, rest) => Some ((k, v) :: fs, rest)
                                | None => None
                                end
                              else None
                          end
                      | None => None
                      end
                    else None
                end
            | None => None
            end
          else None
      end
  end.

(** Every two calls on a path of the recursion consume a character, so this
    much fuel is never used up ([parse_fuel] below). *)
Definition fuel_for (s : jstr) : nat := 2 * length s + 2.

(** [JSON.parse(text)]: one value between white space, or a [SyntaxError]. *)
Definition parse (text : jstr) : result json :=
  match value (fuel_for text) text with
  | Some (j, rest) =>
      match skip_ws rest with
      | [] => Ok j
      | _ :: _ => Throw SyntaxError
      end
  | None => Throw SyntaxError
  end.

End JSON.

(* ===================================================================== *)
(** * src/agent/direct-api-caller.js *)
(* ===================================================================== *)

Module DirectApi.
Import Js.

(** The schema validator (the [ajv] package): compiling a schema may throw;
    the compiled validator answers [None] for a valid instance and the
    joined error text otherwise. *)
Class Ajv := {
  compile : value -> result (json -> option jstr);
}.

Record ContentBlock := {
  block_type : jstr;
  block_text : jstr;
}.

Record Usage := {
  input_tokens : value;
  output_tokens : value;
}.

Record Response := {
  content : list ContentBlock;
  usage : option Usage;
}.

(** What [client.messages.create] does: it resolves with a response or
    rejects with an error that may carry an HTTP status. *)
Inductive ApiOutcome :=
| Resolved (r : Response)
| Rejected (status : option Z) (e : exn).

(** The object [callDirectApi] resolves with: one with [success: true], or
    one with [success: false] and an [error]. The wall-clock fields
    ([durationMs], [durationApiMs]) are left out; [error] is kept as the
    exception whose message it is. *)
Inductive ApiResult :=
| Success (result : json) (rawResult : jstr) (inputTokens outputTokens : value)
| Failure (error : exn).

(** The [error] of a request that was rejected with the status 429. *)
Definition rate_limited : exn := Error (str "Rate limited - try again later").

(** The prefix of [s] that ends with the last [c] in [s]. *)
Fixpoint upto_last (c : cu) (s : jstr) : option jstr :=
  match s with
  | [] => None
  | x :: s' =>
      match upto_last c s' with
      | Some t => Some (x :: t)
      | None => if (x =? c)%N then Some [x] else None
      end
  end.

(** [rawResult.match(/```json\s*([\s\S]*?)```/)], group 1: after the first
    opening fence and the white space that follows it, the text up to the
    next three backquotes. *)
Definition match_fence (rawResult : jstr) : option jstr :=
  match find_sub (str "```json") rawResult with
  | Some (_, after) =>
      match find_sub (str "```") (drop_spaces after) with
      | Some (inner, _) => Some inner
      | None => None
      end
  | None => None
  end.

(** [rawResult.match(/\{[\s\S]*\}/)], group 0: the star is greedy, so the
    match runs from the first opening brace to the last closing brace after
    it. *)
Definition match_object (rawResult : jstr) : option jstr :=
  match find_sub (str "{") rawResult with
  | Some (_, after) =>
      match upto_last 125%N after with
      | Some body => Some (123%N :: body)
      | None => None
      end
  | None => None
  end.

(** Lines 94-112: the [try]/[catch] around the direct parse. *)
Definition extract_json (rawResult : jstr) : result json :=
  catch (JSON.parse rawResult) (fun _ =>
    match match_fence rawResult with
    | Some inner => JSON.parse (trim inner)
    | None =>
        match match_object rawResult with
        | Some object => JSON.parse object
        | None =>
            Throw (Error (str "Could not parse JSON from response: "
                          ++ take 200 rawResult))
        end
    end).

(** Lines 114-121. *)
Definition validate_schema `{Ajv} (jsonSchema : value) (parsedResult : json)
  : result json :=
  bind (compile jsonSchema) (fun validate =>
    match validate parsedResult with
    | None => Ok parsedResult
    | Some errors =>
        Throw (Error (str "JSON schema validation failed: " ++ errors))
    end).

(** Lines 92-122: [parsedResult]. *)
Definition parse_result `{Host} `{Ajv} (jsonSchema : value) (rawResult : jstr)
  : result json :=
  if truthy jsonSchema then
    bind (extract_json rawResult) (validate_schema jsonSchema)
  else Ok (JStr rawResult).

(** [response.content.find((c) => c.type === 'text')?.text || '']. *)
Definition raw_result (r : Response) : jstr :=
  match List.find (fun c => bool_decide (block_type c = str "text")) (content r) with
  | Some c => block_text c
  | None => []
  end.

Definition usage_field `{Host} (r : Response) (f : Usage -> value) : value :=
  match usage r with
  | Some u => or_else (f u) (Json (JNum (str "0")))
  | None => Json (JNum (str "0"))
  end.

(** [callDirectApi], from the moment the client exists: the body of the
    outer [try] and its [catch]. *)
Definition callDirectApi `{Host} `{Ajv} (jsonSchema : value) (api : ApiOutcome)
  : ApiResult :=
  let body :=
    match api with
    | Rejected status e => inr (status, e)
    | Resolved response =>
        let rawResult := raw_result response in
        match parse_result jsonSchema rawResult with
        | Ok parsedResult =>
            inl (Success parsedResult rawResult
                   (usage_field response input_tokens)
                   (usage_field response output_tokens))
        | Throw e => inr (None, e)
        end
    end in
  match body with
  | inl r => r
  | inr (status, e) =>
      if bool_decide (status = Some 429) then Failure rate_limited
      else Failure e
  end.

Record AgentConfig := {
  useDirectApi : value;
  role : value;
  outputFormat : value;
  jsonSchema : value;
}.

(** [process.env.ANTHROPIC_API_KEY] is a string when the variable is set and
    [undefined] otherwise. *)
Definition env_truthy (v : option jstr) : bool :=
  match v with
  | Some s => nonempty s
  | None => false
  end.

Definition shouldUseDirectApi `{Host} (ANTHROPIC_API_KEY : option jstr)
    (agentConfig : AgentConfig) : bool :=
  if negb (env_truthy ANTHROPIC_API_KEY) then false
  else if is_bool (useDirectApi agentConfig) true then true
  else if is_bool (useDirectApi agentConfig) false then false
  else if is_str (role agentConfig) (str "conductor")
          && is_str (outputFormat agentConfig) (str "json")
          && truthy (jsonSchema agentConfig)
       then true
  else false.

(** [getClient()]. The module keeps one client, [anthropicClient]; it is
    made at the first call that finds the credential. A client is written as
    the key it was made with. *)
Definition getClient (ANTHROPIC_API_KEY : option jstr)
    (anthropicClient : option jstr) : result jstr * option jstr :=
  match anthropicClient with
  | Some client => (Ok client, anthropicClient)
  | None =>
      if env_truthy ANTHROPIC_API_KEY
      then (Ok (default [] ANTHROPIC_API_KEY), ANTHROPIC_API_KEY)
      else (Throw (Error (str "ANTHROPIC_API_KEY environment variable required for direct API calls. Set it or use Claude CLI authentication instead.")),
            None)
  end.

(** [callDirectApi] as a whole: [getClient] runs before the [try], so what
    it throws rejects the promise ([Throw]); everything after it resolves
    ([Ok]). *)
Definition callDirectApi_promise `{Host} `{Ajv}
    (ANTHROPIC_API_KEY : option jstr) (anthropicClient : option jstr)
    (jsonSchema : value) (api : ApiOutcome)
  : result ApiResult * option jstr :=
  match getClient ANTHROPIC_API_KEY anthropicClient with
  | (Ok _, client) => (Ok (callDirectApi jsonSchema api), client)
  | (Throw e, client) => (Throw e, client)
  end.

(** ** Vocabulary of the properties *)

(** [p] stands in [s] between [before] and [after], and nowhere further to
    the left. *)
Definition first_at (p s before after : jstr) : Prop :=
  s = before ++ p ++ after
  /\ forall before' after',
      s = before' ++ p ++ after' -> (length before <= length before')%nat.

(** [inner] is the text of the first fence of [rawResult]: after the first
    opening fence comes white space, all there is of it, then [inner], then
    the first three backquotes from there on. *)
Definition fenced (rawResult inner : jstr) : Prop :=
  exists before spaces rest after,
    first_at (str "```json") rawResult before (spaces ++ rest)
    /\ forallb is_space spaces = true
    /\ (forall c, head rest = Some c -> is_space c = false)
    /\ first_at (str "```") rest inner after.

(** [object] is the span of [rawResult] from its first opening brace to
    its last closing brace. *)
Definition spanned (rawResult object : jstr) : Prop :=
  exists before body after,
    rawResult = before ++ object ++ after
    /\ object = str "{" ++ body ++ str "}"
    /\ (123%N ∉ before) /\ (125%N ∉ after).

(** ** The chain as the specification words it

    "first a strict parse; if that fails, extract a fenced JSON code block;
    if that fails, extract the first balanced object; if that fails, raise a
    validation error." *)

(** The shortest prefix of [s] in which the braces opened so far, [depth] of
    them, are all closed. *)
Fixpoint balanced_prefix (depth : nat) (s : jstr) : option jstr :=
  match s with
  | [] => None
  | c :: s' =>
      if (c =? 123)%N then
        option_map (cons c) (balanced_prefix (S depth) s')
      else if (c =? 125)%N then
        match depth with
        | O => None
        | S O => Some [c]
        | S d => option_map (cons c) (balanced_prefix d s')
        end
      else option_map (cons c) (balanced_prefix depth s')
  end.

Definition first_balanced_object (s : jstr) : option jstr :=
  match find_sub (str "{") s with
  | Some (_, after) => option_map (cons 123%N) (balanced_prefix 1 after)
  | None => None
  end.

Definition parsed (text : option jstr) : option json :=
  match text with
  | Some t => match JSON.parse t with Ok j => Some j | Throw _ => None end
  | None => None
  end.

Definition spec_extract_json (rawResult : jstr) : option json :=
  match parsed (Some rawResult) with
  | Some j => Some j
  | None =>
      match parsed (trim <$> match_fence rawResult) with
      | Some j => Some j
      | None => parsed (first_balanced_object rawResult)
      end
  end.

End DirectApi.

(* ===================================================================== *)
(** * The abstract provider (base-provider.js) and the model tables *)
(* ===================================================================== *)

Module BaseProvider.
Import Js.

(** An entry of a [LEVEL_MAPPING] table. *)
Record LevelEntry := {
  rank : Z;
  entry_model : option jstr;
  entry_reasoningEffort : option jstr;
}.

(** An entry of the [overrides] argument ([levelOverrides] of the
    settings). *)
Record Override := {
  override_model : option jstr;
  override_reasoningEffort : option jstr;
}.

Record ModelSpec := {
  level : jstr;
  model : option jstr;
  reasoningEffort : option jstr;
}.

(** The methods of [BaseProvider] that the subclasses override and that the
    level functions call. [getLevelMapping] is the mapping by its own
    properties; what it inherits comes in with [slot] below. *)
Class Provider := {
  name : jstr;
  getLevelMapping : gmap jstr LevelEntry;
  getDefaultLevel : jstr;
}.

(** [ToBoolean] of a string that may be [undefined]. *)
Definition given (s : option jstr) : bool :=
  match s with
  | Some t => nonempty t
  | None => false
  end.

(** [a || b] on such strings. *)
Definition or_str (a b : option jstr) : option jstr :=
  if given a then a else b.

(** [`${what} "${x}" for provider "${name}"`] *)
Definition message `{Provider} (what : string) (x : jstr) : jstr :=
  str what ++ dq " '" ++ x ++ dq "' for provider '" ++ name ++ dq "'".

(** What [mapping[key]] yields: the entry that the mapping has under the
    key, a member of [Object.prototype] when the mapping has no such key
    and the key is the name of one, or [undefined]. *)
Inductive Slot :=
| Own (entry : LevelEntry)
| Inherited
| Absent.

Definition slot `{Provider} (key : jstr) : Slot :=
  match getLevelMapping !! key with
  | Some entry => Own entry
  | None => if inherited key then Inherited else Absent
  end.

(** [ToBoolean]: an entry and an inherited member are objects. *)
Definition present (s : Slot) : bool :=
  match s with
  | Absent => false
  | _ => true
  end.

(** [s.model], [s.reasoningEffort] and [s?.rank]: an inherited member has
    none of them. *)
Definition slot_model (s : Slot) : option jstr :=
  match s with
  | Own entry => entry_model entry
  | _ => None
  end.

Definition slot_reasoningEffort (s : Slot) : option jstr :=
  match s with
  | Own entry => entry_reasoningEffort entry
  | _ => None
  end.

Definition slot_rank (s : Slot) : option Z :=
  match s with
  | Own entry => Some (rank entry)
  | _ => None
  end.

(** [mapping[level] || mapping[this.getDefaultLevel()]] *)
Definition base_entry `{Provider} (level : jstr) : Slot :=
  if present (slot level) then slot level else slot getDefaultLevel.

(** [overrides[level] || {}] is read for [model] and [reasoningEffort]
    only, which an inherited member has as little as the empty object. *)
Definition resolveModelSpec `{Provider} (level : jstr)
    (overrides : gmap jstr Override) : result ModelSpec :=
  let base := base_entry level in
  if present base then
    let override :=
      default {| override_model := None; override_reasoningEffort := None |}
              (overrides !! level) in
    Ok {| level := level;
          model := or_str (override_model override) (slot_model base);
          reasoningEffort :=
            or_str (override_reasoningEffort override)
                   (slot_reasoningEffort base) |}
  else Throw (Error (message "Unknown level" level)).

(** [rank(a) > rank(b)] with [rank = (key) => mapping[key]?.rank]; a
    comparison with [undefined] is false. *)
Definition rank_gt `{Provider} (a b : jstr) : bool :=
  match slot_rank (slot a), slot_rank (slot b) with
  | Some x, Some y => bool_decide (x > y)
  | _, _ => false
  end.

(** [!mapping[key]] *)
Definition unmapped `{Provider} (key : jstr) : bool :=
  negb (present (slot key)).

Definition validateLevel `{Provider} (level : jstr)
    (minLevel maxLevel : option jstr) : result jstr :=
  let min := default [] minLevel in
  let max := default [] maxLevel in
  if unmapped level then
    Throw (Error (message "Invalid level" level))
  else if given minLevel && unmapped min then
    Throw (Error (message "Invalid minLevel" min))
  else if given maxLevel && unmapped max then
    Throw (Error (message "Invalid maxLevel" max))
  else if given minLevel && given maxLevel && rank_gt min max then
    Throw (Error (str "minLevel " ++ dq "'" ++ min ++ dq "' exceeds maxLevel '"
                  ++ max ++ dq "' for provider '" ++ name ++ dq "'"))
  else if given maxLevel && rank_gt level max then
    Throw (Error (str "Level " ++ dq "'" ++ level ++ dq "' exceeds maxLevel '"
                  ++ max ++ dq "' for provider '" ++ name ++ dq "'"))
  else if given minLevel && rank_gt min level then
    Throw (Error (str "Level " ++ dq "'" ++ level ++ dq "' is below minLevel '"
                  ++ min ++ dq "' for provider '" ++ name ++ dq "'"))
  else Ok level.

(** [catalog[modelId]] as a condition: an entry of the catalog, or an
    inherited member. *)
Definition listed (catalog : gmap jstr Z) (modelId : jstr) : bool :=
  bool_decide (is_Some (catalog !! modelId)) || inherited modelId.

(** [validateModelId(modelId)]; [getModelCatalog] is the catalog that the
    subclass returns, a table from model ids to their ranks. *)
Definition validateModelId `{Provider} (getModelCatalog : gmap jstr Z)
    (modelId : option jstr) : result (option jstr) :=
  if given modelId && negb (listed getModelCatalog (default [] modelId))
  then Throw (Error (message "Invalid model" (default [] modelId)))
  else Ok modelId.

(** ** Vocabulary of the properties *)

(** The ranks that are there are in order; a rank that is not there (of an
    inherited member) puts no condition. *)
Definition not_above (a b : option Z) : Prop :=
  forall x y, a = Some x -> b = Some y -> x <= y.

End BaseProvider.

(** providers/openai/models.js *)
Module OpenAIModels.
Import Js BaseProvider.

Definition MODEL_CATALOG : gmap jstr Z :=
  {[ str "openai-model-main" := 1 ]}.

Definition LEVEL_MAPPING : gmap jstr LevelEntry :=
  list_to_map
    [ (str "level1", {| rank := 1; entry_model := Some (str "openai-model-main");
                        entry_reasoningEffort := Some (str "low") |});
      (str "level2", {| rank := 2; entry_model := Some (str "openai-model-main");
                        entry_reasoningEffort := Some (str "medium") |});
      (str "level3", {| rank := 3; entry_model := Some (str "openai-model-main");
                        entry_reasoningEffort := Some (str "xhigh") |}) ].

Definition DEFAULT_LEVEL : jstr := str "level2".
Definition DEFAULT_MAX_LEVEL : jstr := str "level3".
Definition DEFAULT_MIN_LEVEL : jstr := str "level1".

End OpenAIModels.

(** providers/google/models.js *)
Module GoogleModels.
Import Js BaseProvider.

Definition MODEL_CATALOG : gmap jstr Z :=
  list_to_map [ (str "google-tier-1", 1); (str "google-tier-2", 2);
                (str "google-tier-3", 3) ].

Definition LEVEL_MAPPING : gmap jstr LevelEntry :=
  list_to_map
    [ (str "level1", {| rank := 1; entry_model := Some (str "google-tier-1");
                        entry_reasoningEffort := None |});
      (str "level2", {| rank := 2; entry_model := Some (str "google-tier-2");
                        entry_reasoningEffort := None |});
      (str "level3", {| rank := 3; entry_model := Some (str "google-tier-3");
                        entry_reasoningEffort := None |}) ].

Definition DEFAULT_LEVEL : jstr := str "level2".
Definition DEFAULT_MAX_LEVEL : jstr := str "level3".
Definition DEFAULT_MIN_LEVEL : jstr := str "level1".

End GoogleModels.

(* ===================================================================== *)
(** * The stream parser of the OpenAI provider (output-parser.js) *)
(* ===================================================================== *)

Module OutputParser.
Import Js.

(** The neutral events. *)
Inductive Event :=
| Text (text : jstr)
| Thinking (text : jstr)
| ToolCall (toolName toolId : value) (input : value)
| ToolResult (toolId content : value) (isError : bool)
| ResultOk (inputTokens outputTokens : value)
| ResultFailed (error : value).

(** What [parseItem] and [parseEvent] return: [null], one event, or an array
    of events. *)
Inductive Parsed :=
| Null
| One (e : Event)
| Many (es : list Event).

Definition safeJsonParse (value : jstr) (fallback : json) : json :=
  match JSON.parse value with
  | Ok j => j
  | Throw _ => fallback
  end.

(** [String(j)], the conversion that [Array.prototype.join] applies to an
    element and a template literal to its value. An object is converted
    through its [toString]. The one it inherits prints [[object Object]]. An
    own property of that name hides the inherited one and, in a parsed
    object, is never a function; [valueOf] then returns the object itself,
    which is no primitive value, and the conversion throws a [TypeError].
    An array joins its elements with commas, [null] counting as the empty
    string. *)
Fixpoint to_string `{Host} (j : json) : result jstr :=
  match j with
  | JNull => Ok (str "null")
  | JBool true => Ok (str "true")
  | JBool false => Ok (str "false")
  | JNum n => Ok (number_to_string n)
  | JStr s => Ok s
  | JArr items =>
      (fix joined (l : list json) : result jstr :=
         match l with
         | [] => Ok []
         | [x] => match x with JNull => Ok [] | _ => to_string x end
         | x :: rest =>
             bind (match x with JNull => Ok [] | _ => to_string x end)
               (fun head =>
             bind (joined rest) (fun tail => Ok (head ++ str "," ++ tail)))
         end) items
  | JObj fields =>
      match own (str "toString") fields with
      | Undefined => Ok (str "[object Object]")
      | Json _ => Throw TypeError
      end
  end.

(** An element of the array that [join] concatenates: [undefined] and [null]
    count as the empty string. *)
Definition piece `{Host} (v : value) : result jstr :=
  match v with
  | Undefined | Json JNull => Ok []
  | Json j => to_string j
  end.

(** [content.filter((c) => keep(c.type)).map((c) => c.text).join('')] *)
Fixpoint texts_of `{Host} (keep : value -> bool) (content : list json)
  : result jstr :=
  match content with
  | [] => Ok []
  | c :: rest =>
      bind (get (Json c) (str "type")) (fun type =>
      bind (texts_of keep rest) (fun tail =>
        if keep type then
          bind (get (Json c) (str "text")) (fun text =>
          bind (piece text) (fun head => Ok (head ++ tail)))
        else Ok tail))
  end.

Definition is_text (type : value) : bool := is_str type (str "text").

Definition is_thinking (type : value) : bool :=
  is_str type (str "thinking") || is_str type (str "reasoning").

(** [item.call_id || item.id || item.tool_call_id || item.tool_id] *)
Definition tool_id `{Host} (item : value) : result value :=
  bind (get item (str "call_id")) (fun call_id =>
  bind (get item (str "id")) (fun id =>
  bind (get item (str "tool_call_id")) (fun tool_call_id =>
  bind (get item (str "tool_id")) (fun tool_id =>
    Ok (or_else (or_else (or_else call_id id) tool_call_id) tool_id))))).

Definition message_events `{Host} (item : value) : result (list Event) :=
  bind (get item (str "type")) (fun type =>
  bind (get item (str "role")) (fun role =>
    if is_str type (str "message") && is_str role (str "assistant") then
      bind (get item (str "content")) (fun content =>
      bind (match content with
            | Json (JArr cs) =>
                bind (texts_of is_text cs) (fun text =>
                bind (texts_of is_thinking cs) (fun thinking =>
                  Ok (text, thinking)))
            | single => bind (piece single) (fun text => Ok (text, []))
            end) (fun '(text, thinking) =>
        Ok ((if nonempty text then [Text text] else [])
            ++ (if nonempty thinking then [Thinking thinking] else []))))
    else Ok [])).

Definition call_events `{Host} (item : value) : result (list Event) :=
  bind (get item (str "type")) (fun type =>
    if is_str type (str "function_call") then
      bind (tool_id item) (fun toolId =>
      bind (get item (str "arguments")) (fun arguments =>
      bind (get item (str "name")) (fun name =>
        let args :=
          match arguments with
          | Json (JStr text) => Json (safeJsonParse text (JObj []))
          | other => or_else other (Json (JObj []))
          end in
        Ok [ToolCall name toolId args])))
    else Ok []).

Definition output_events `{Host} (item : value) : result (list Event) :=
  bind (get item (str "type")) (fun type =>
    if is_str type (str "function_call_output") then
      bind (tool_id item) (fun toolId =>
      bind (get item (str "output")) (fun output =>
      bind (get item (str "result")) (fun result =>
      bind (get item (str "content")) (fun content =>
      bind (get item (str "error")) (fun error =>
        Ok [ToolResult toolId
              (nullish (nullish (nullish output result) content) (Json (JStr [])))
              (truthy error)])))))
    else Ok []).

Definition parseItem `{Host} (item : value) : result Parsed :=
  bind (message_events item) (fun e1 =>
  bind (call_events item) (fun e2 =>
  bind (output_events item) (fun e3 =>
    match e1 ++ e2 ++ e3 with
    | [] => Ok Null
    | [e] => Ok (One e)
    | events => Ok (Many events)
    end))).

(** The types that the [switch] of [parseEvent] has a case for. *)
Definition known_type (type : value) : bool :=
  is_str type (str "thread.started") || is_str type (str "item.created")
  || is_str type (str "turn.completed") || is_str type (str "turn.failed").

(** [parseEvent(line, options)]. The callback [options.onUnknown] acts on a
    state of the caller's, so the function passes a state [S] along. The
    callback may throw, with the state as it has left it; what it returns
    is not used. An exception of the parser itself leaves the state as it
    is. *)
Definition parseEvent `{Host} {S : Type} (line : jstr)
    (onUnknown : option (value -> json -> S -> result unit * S)) (st : S)
  : result Parsed * S :=
  match JSON.parse line with
  | Throw _ => (Ok Null, st)
  | Ok event =>
      match get (Json event) (str "type") with
      | Throw e => (Throw e, st)
      | Ok type =>
          if is_str type (str "thread.started") then (Ok Null, st)
          else if is_str type (str "item.created") then
            (bind (get (Json event) (str "item")) parseItem, st)
          else if is_str type (str "turn.completed") then
            let usage :=
              or_else (or_else (get_opt (Json event) (str "usage"))
                               (get_opt (get_opt (Json event) (str "response"))
                                        (str "usage")))
                      (Json (JObj [])) in
            (Ok (One (ResultOk
                   (or_else (get_opt usage (str "input_tokens"))
                            (Json (JNum (str "0"))))
                   (or_else (get_opt usage (str "output_tokens"))
                            (Json (JNum (str "0")))))), st)
          else if is_str type (str "turn.failed") then
            (Ok (One (ResultFailed
                   (or_else (or_else (get_opt (get_opt (Json event) (str "error"))
                                              (str "message"))
                                     (get_opt (Json event) (str "error")))
                            (Json (JStr (str "Turn failed")))))), st)
          else
            match onUnknown with
            | Some callback =>
                match callback type event st with
                | (Ok _, st') => (Ok Null, st')
                | (Throw e, st') => (Throw e, st')
                end
            | None => (Ok Null, st)
            end
      end
  end.

(** [line.split('\n')] yields at least one piece. *)
Fixpoint split_lines (chunk : jstr) : list jstr :=
  match chunk with
  | [] => [[]]
  | c :: rest =>
      if (c =? 10)%N then [] :: split_lines rest
      else match split_lines rest with
           | line :: lines => (c :: line) :: lines
           | [] => [[c]]
           end
  end.

Definition events_of (p : Parsed) : list Event :=
  match p with
  | Null => []
  | One e => [e]
  | Many es => es
  end.

Fixpoint parseLines `{Host} {S : Type} (lines : list jstr)
    (onUnknown : option (value -> json -> S -> result unit * S)) (st : S)
  : result (list Event) * S :=
  match lines with
  | [] => (Ok [], st)
  | line :: rest =>
      if nonempty (trim line) then
        match parseEvent line onUnknown st with
        | (Ok event, st') =>
            match parseLines rest onUnknown st' with
            | (Ok events, st'') => (Ok (events_of event ++ events), st'')
            | (Throw e, st'') => (Throw e, st'')
            end
        | (Throw e, st') => (Throw e, st')
        end
      else parseLines rest onUnknown st
  end.

Definition parseChunk `{Host} {S : Type} (chunk : jstr)
    (onUnknown : option (value -> json -> S -> result unit * S)) (st : S)
  : result (list Event) * S :=
  parseLines (split_lines chunk) onUnknown st.

End OutputParser.

(* ===================================================================== *)
(** * Command builders *)
(* ===================================================================== *)

Module Cli.
Import Js.

(** The [options] of [buildCommand]. [cliFeatures] is the object that
    [getCliFeatures] made, or one with fewer capabilities, or absent; a
    capability that is there is a boolean. [autoApprove] is the truth value
    of the option. *)
Record Options := {
  modelSpec : option BaseProvider.ModelSpec;
  outputFormat : option jstr;
  jsonSchema : value;
  cwd : option jstr;
  autoApprove : bool;
  cliFeatures : option (gmap string bool);
}.

Record Command := {
  binary : jstr;
  args : list jstr;
}.

(** [cliFeatures.k], as a condition. *)
Definition enabled (features : gmap string bool) (k : string) : bool :=
  bool_decide (features !! k = Some true).

(** [cliFeatures.k === false] *)
Definition is_false (features : gmap string bool) (k : string) : bool :=
  bool_decide (features !! k = Some false).

Definition given (s : option jstr) : bool := BaseProvider.given s.

(** [modelSpec?.model], [modelSpec?.reasoningEffort] *)
Definition spec_model (o : Options) : option jstr :=
  modelSpec o ≫= BaseProvider.model.

Definition spec_effort (o : Options) : option jstr :=
  modelSpec o ≫= BaseProvider.reasoningEffort.

Definition is_format (o : Options) (f : string) : bool :=
  bool_decide (outputFormat o = Some (str f)).

(** [typeof jsonSchema === 'string' ? jsonSchema : JSON.stringify(jsonSchema)],
    for a schema that is given. *)
Definition schema_string `{Host} (schema : value) : jstr :=
  match schema with
  | Json (JStr text) => text
  | Json j => stringify j
  | Undefined => []
  end.

Definition push_if (cond : bool) (items : list jstr) (args : list jstr)
  : list jstr :=
  if cond then args ++ items else args.

(** A flag that a builder emits under a capability: the capability, the
    flag, and the condition on the options under which the build asks for
    it. *)
Record Gate := {
  capability : string;
  flag : jstr;
  requested : Options -> bool;
}.

End Cli.

(** The builder of the Anthropic provider. *)
Module AnthropicCli.
Import Js Cli.

Record CommandConfig := {
  command : option jstr;
  extra_args : option (list jstr);
}.

Definition buildCommand `{Host} (context : jstr) (options : Options)
    (commandConfig : CommandConfig) : Command :=
  let features := default ∅ (cliFeatures options) in
  let off k := is_false features k in
  let a0 := default [] (extra_args commandConfig)
            ++ [str "--print"; str "--input-format"; str "text"] in
  let a1 := push_if (given (outputFormat options)
                     && negb (off "supportsOutputFormat"))
              [str "--output-format"; default [] (outputFormat options)] a0 in
  let a2 := push_if (is_format options "stream-json"
                     && negb (off "supportsVerbose"))
              [str "--verbose"] a1 in
  let a3 := push_if (is_format options "stream-json"
                     && negb (off "supportsIncludePartials"))
              [str "--include-partial-messages"] a2 in
  let a4 := push_if (truthy (jsonSchema options) && is_format options "json"
                     && negb (off "supportsJsonSchema"))
              [str "--json-schema"; schema_string (jsonSchema options)] a3 in
  let a5 := push_if (given (spec_model options) && negb (off "supportsModel"))
              [str "--model"; default [] (spec_model options)] a4 in
  let a6 := push_if (autoApprove options && negb (off "supportsAutoApprove"))
              [str "--dangerously-skip-permissions"] a5 in
  {| binary := if given (command commandConfig)
               then default [] (command commandConfig) else str "claude";
     args := a6 ++ [context] |}.

Definition gates `{Host} : list Gate :=
  [ {| capability := "supportsOutputFormat"; flag := str "--output-format";
       requested := fun o => given (outputFormat o) |};
    {| capability := "supportsVerbose"; flag := str "--verbose";
       requested := fun o => is_format o "stream-json" |};
    {| capability := "supportsIncludePartials";
       flag := str "--include-partial-messages";
       requested := fun o => is_format o "stream-json" |};
    {| capability := "supportsJsonSchema"; flag := str "--json-schema";
       requested := fun o => truthy (jsonSchema o) && is_format o "json" |};
    {| capability := "supportsModel"; flag := str "--model";
       requested := fun o => given (spec_model o) |};
    {| capability := "supportsAutoApprove";
       flag := str "--dangerously-skip-permissions";
       requested := fun o => autoApprove o |} ].

(** The arguments whose text comes from the caller. *)
Definition free_text `{Host} (context : jstr) (options : Options)
    (commandConfig : CommandConfig) : list jstr :=
  default [] (extra_args commandConfig)
  ++ [ default [] (outputFormat options); schema_string (jsonSchema options);
       default [] (spec_model options); context ].

End AnthropicCli.

(** src/providers/google/cli-builder.js *)
Module GoogleCli.
Import Js Cli.

Definition buildCommand (context : jstr) (options : Options) : Command :=
  let features := default ∅ (cliFeatures options) in
  let a0 := [str "-p"; context] in
  let a1 := push_if ((is_format options "stream-json" || is_format options "json")
                     && enabled features "supportsStreamJson")
              [str "--output-format"; str "stream-json"] a0 in
  let a2 := push_if (given (spec_model options))
              [str "-m"; default [] (spec_model options)] a1 in
  let a3 := push_if (given (cwd options) && enabled features "supportsCwd")
              [str "--cwd"; default [] (cwd options)] a2 in
  let a4 := push_if (autoApprove options && enabled features "supportsAutoApprove")
              [str "--yolo"] a3 in
  {| binary := str "gemini"; args := a4 |}.

Definition gates : list Gate :=
  [ {| capability := "supportsStreamJson"; flag := str "--output-format";
       requested := fun o => is_format o "stream-json" || is_format o "json" |};
    {| capability := "supportsCwd"; flag := str "--cwd";
       requested := fun o => given (cwd o) |};
    {| capability := "supportsAutoApprove"; flag := str "--yolo";
       requested := fun o => autoApprove o |} ].

Definition free_text (context : jstr) (options : Options) : list jstr :=
  [ context; default [] (spec_model options); default [] (cwd options) ].

End GoogleCli.

(** src/providers/openai/cli-builder.js *)
Module OpenAICli.
Import Js Cli.

Definition effort_override (options : Options) : jstr :=
  str "model_reasoning_effort=" ++ dq "'"
  ++ default [] (spec_effort options) ++ dq "'".

Definition buildCommand `{Host} (context : jstr) (options : Options) : Command :=
  let features := default ∅ (cliFeatures options) in
  let a0 := [str "exec"] in
  let a1 := push_if ((is_format options "stream-json" || is_format options "json")
                     && enabled features "supportsJson")
              [str "--json"] a0 in
  let a2 := push_if (given (spec_model options))
              [str "-m"; default [] (spec_model options)] a1 in
  let a3 := push_if (given (spec_effort options)
                     && enabled features "supportsConfigOverride")
              [str "--config"; effort_override options] a2 in
  let a4 := push_if (given (cwd options) && enabled features "supportsCwd")
              [str "-C"; default [] (cwd options)] a3 in
  let a5 := push_if (autoApprove options && enabled features "supportsAutoApprove")
              [str "--dangerously-bypass-approvals-and-sandbox"] a4 in
  let a6 := push_if (truthy (jsonSchema options)
                     && enabled features "supportsOutputSchema")
              [str "--output-schema"; schema_string (jsonSchema options)] a5 in
  {| binary := str "codex"; args := a6 ++ [context] |}.

Definition gates `{Host} : list Gate :=
  [ {| capability := "supportsJson"; flag := str "--json";
       requested := fun o => is_format o "stream-json" || is_format o "json" |};
    {| capability := "supportsConfigOverride"; flag := str "--config";
       requested := fun o => given (spec_effort o) |};
    {| capability := "supportsCwd"; flag := str "-C";
       requested := fun o => given (cwd o) |};
    {| capability := "supportsAutoApprove";
       flag := str "--dangerously-bypass-approvals-and-sandbox";
       requested := fun o => autoApprove o |};
    {| capability := "supportsOutputSchema"; flag := str "--output-schema";
       requested := fun o => truthy (jsonSchema o) |} ].

Definition free_text `{Host} (context : jstr) (options : Options) : list jstr :=
  [ default [] (spec_model options); effort_override options;
    default [] (cwd options); schema_string (jsonSchema options); context ].

End OpenAICli.

(* ===================================================================== *)
(** * The OpenAI provider (providers/openai/index.js) *)
(* ===================================================================== *)

Module OpenAI.
Import Js Cli.

Inductive LogEntry :=
| Warn (text : jstr)
| Debug (text : jstr).

(** A key of a [Map]. Keys are compared with SameValueZero: primitives by
    value (two numbers are the same exactly when they print the same),
    objects by identity. *)
Inductive key :=
| KUndefined
| KNull
| KBool (b : bool)
| KNumber (printed : jstr)
| KString (s : jstr)
| KObject (ref : nat).

#[export] Instance key_eq_dec : EqDecision key.
Proof. solve_decision. Defined.

#[export] Instance key_countable : Countable key.
Proof.
  refine (inj_countable'
    (fun k => match k with
              | KUndefined => inl (inl true)
              | KNull => inl (inl false)
              | KBool b => inl (inr b)
              | KNumber s => inr (inl (inl s))
              | KString s => inr (inl (inr s))
              | KObject n => inr (inr n)
              end)
    (fun c => match c with
              | inl (inl true) => KUndefined
              | inl (inl false) => KNull
              | inl (inr b) => KBool b
              | inr (inl (inl s)) => KNumber s
              | inr (inl (inr s)) => KString s
              | inr (inr n) => KObject n
              end) _).
  intros []; reflexivity.
Defined.

(** What is shared by the whole process: the module-level set [warned], the
    console, and the number of objects that [_logUnknown] has received as
    a type (each of them, fresh from [JSON.parse], a key of its own). *)
Record Process := {
  warned : gset jstr;
  console : list LogEntry;
  objects : nat;
}.

(** The fields of an instance that its methods write. *)
Record Provider := {
  _cliFeatures : option (gmap string bool);
  _unknownEventCounts : gmap key nat;
}.

(** The constructor. *)
Definition new : Provider :=
  {| _cliFeatures := None; _unknownEventCounts := ∅ |}.

(** [super({ name: 'openai', ... })], [getLevelMapping], [getDefaultLevel]. *)
Definition levels : BaseProvider.Provider :=
  {| BaseProvider.name := str "openai";
     BaseProvider.getLevelMapping := OpenAIModels.LEVEL_MAPPING;
     BaseProvider.getDefaultLevel := OpenAIModels.DEFAULT_LEVEL |}.

Definition start : Process :=
  {| warned := ∅; console := []; objects := 0 |}.

Definition boundary (rest : jstr) : bool :=
  match rest with
  | [] => true
  | c :: _ => negb (is_word c)
  end.

(** [/flag\b/.test(help)], for a flag that ends in a word character. *)
Fixpoint test_flag (flag help : jstr) : bool :=
  starts_with flag help && boundary (drop (length flag) help)
  || match help with
     | [] => false
     | _ :: rest => test_flag flag rest
     end.

(** [/\sflag\b/.test(help)] *)
Fixpoint test_spaced (flag help : jstr) : bool :=
  match help with
  | [] => false
  | c :: rest =>
      is_space c && starts_with flag rest && boundary (drop (length flag) rest)
      || test_spaced flag rest
  end.

(** The names of the capabilities that [getCliFeatures] probes. *)
Definition capabilities : list string :=
  [ "supportsJson"; "supportsOutputSchema"; "supportsAutoApprove";
    "supportsCwd"; "supportsConfigOverride"; "supportsModel" ]%string.

(** [getCliFeatures()]; [getHelpOutput] is what the detection library
    answers for the [codex] command: the help text, or nothing. *)
Definition getCliFeatures (getHelpOutput : option jstr) (this : Provider)
  : gmap string bool * Provider :=
  match _cliFeatures this with
  | Some features => (features, this)
  | None =>
      let help := default [] getHelpOutput in
      let unknown := negb (BaseProvider.given getHelpOutput) in
      let probe (found : bool) := if unknown then true else found in
      let features : gmap string bool :=
        list_to_map
          [ ("supportsJson"%string, probe (test_flag (str "--json") help));
            ("supportsOutputSchema"%string,
               probe (test_flag (str "--output-schema") help));
            ("supportsAutoApprove"%string,
               probe (test_flag
                        (str "--dangerously-bypass-approvals-and-sandbox") help));
            ("supportsCwd"%string,
               probe (test_spaced (str "-C") help
                      || test_flag (str "--cwd") help));
            ("supportsConfigOverride"%string,
               probe (test_flag (str "--config") help));
            ("supportsModel"%string,
               probe (test_spaced (str "-m") help
                      || test_flag (str "--model") help));
            ("unknown"%string, unknown) ] in
      (features,
       {| _cliFeatures := Some features;
          _unknownEventCounts := _unknownEventCounts this |})
  end.

(** The warning sign and a space: the prefix of [_warnOnce]. *)
Definition sign : jstr := [9888%N; 65039%N; 32%N].

Definition _warnOnce (key message : jstr) (p : Process) : Process :=
  if bool_decide (key ∈ warned p) then p
  else {| warned := {[key]} ∪ warned p;
          console := console p ++ [Warn (sign ++ message)];
          objects := objects p |}.

Definition when (cond : bool) (f : Process -> Process) (p : Process) : Process :=
  if cond then f p else p.

Definition buildCommand `{Host} (context : jstr) (options : Options)
    (p : Process) : Command * Process :=
  let features := default ∅ (cliFeatures options) in
  let p1 := when (autoApprove options && is_false features "supportsAutoApprove")
              (_warnOnce (str "openai-auto-approve")
                 (str "Codex CLI does not support auto-approve; continuing without bypass flag."))
              p in
  let p2 := when (truthy (jsonSchema options)
                  && is_false features "supportsOutputSchema")
              (_warnOnce (str "openai-jsonschema")
                 (str "Codex CLI does not support --output-schema; skipping schema flag."))
              p1 in
  let p3 := when (given (spec_effort options)
                  && is_false features "supportsConfigOverride")
              (_warnOnce (str "openai-reasoning")
                 (str "Codex CLI does not support --config overrides; skipping reasoningEffort."))
              p2 in
  (OpenAICli.buildCommand context
     {| modelSpec := modelSpec options; outputFormat := outputFormat options;
        jsonSchema := jsonSchema options; cwd := cwd options;
        autoApprove := autoApprove options; cliFeatures := Some features |},
   p3).

(** The key under which a [Map] files the value [type]; an object gets the
    next free identity. *)
Definition key_of `{Host} (type : value) (fresh : nat) : key :=
  match type with
  | Undefined => KUndefined
  | Json JNull => KNull
  | Json (JBool b) => KBool b
  | Json (JNum n) => KNumber (number_to_string n)
  | Json (JStr s) => KString s
  | Json (JArr _) | Json (JObj _) => KObject fresh
  end.

Definition is_object (type : value) : bool :=
  match type with
  | Json (JArr _) | Json (JObj _) => true
  | _ => false
  end.

(** [`${type}`] *)
Definition template `{Host} (type : value) : result jstr :=
  match type with
  | Undefined => Ok (str "undefined")
  | Json j => OutputParser.to_string j
  end.

(** The counter is set before the message is made: when the template
    literal throws, the count has grown and nothing is logged. *)
Definition _logUnknown `{Host} (type : value) (st : Provider * Process)
  : result unit * (Provider * Process) :=
  let (this, p) := st in
  let k := key_of type (objects p) in
  let p := {| warned := warned p; console := console p;
              objects := if is_object type then S (objects p) else objects p |} in
  let current := default 0%nat (_unknownEventCounts this !! k) in
  if (5 <=? current)%nat then (Ok tt, (this, p))
  else
    let counted :=
      {| _cliFeatures := _cliFeatures this;
         _unknownEventCounts := <[k := S current]> (_unknownEventCounts this) |} in
    match template type with
    | Ok text =>
        (Ok tt,
         (counted,
          {| warned := warned p;
             console := console p
                        ++ [Debug (str "[openai] Unknown event type: " ++ text)];
             objects := objects p |}))
    | Throw e => (Throw e, (counted, p))
    end.

Definition parseEvent `{Host} (line : jstr) (st : Provider * Process)
  : result OutputParser.Parsed * (Provider * Process) :=
  OutputParser.parseEvent line (Some (fun type _ => _logUnknown type)) st.

(** The lines of a child's output, one call of [parseEvent] each, whatever
    the calls before returned or threw. *)
Fixpoint run `{Host} (lines : list jstr) (st : Provider * Process)
  : list (result OutputParser.Parsed) * (Provider * Process) :=
  match lines with
  | [] => ([], st)
  | line :: rest =>
      let (r, st') := parseEvent line st in
      let (rs, st'') := run rest st' in
      (r :: rs, st'')
  end.

(** ** Vocabulary of the properties *)

(** Calls of [getCliFeatures] one after the other, each with what the
    detection library would answer at that moment. *)
Fixpoint calls (helps : list (option jstr)) (this : Provider)
  : list (gmap string bool) * Provider :=
  match helps with
  | [] => ([], this)
  | help :: rest =>
      let (features, this') := getCliFeatures help this in
      let (more, this'') := calls rest this' in
      (features :: more, this'')
  end.

(** A warning of [buildCommand]: its key, the capability whose explicit
    [false] raises it, the condition on the options, and its text. *)
Record Notice := {
  notice_key : jstr;
  notice_capability : string;
  notice_requested : Options -> bool;
  notice_text : jstr;
}.

Definition notices `{Host} : list Notice :=
  [ {| notice_key := str "openai-auto-approve";
       notice_capability := "supportsAutoApprove";
       notice_requested := fun o => autoApprove o;
       notice_text := str "Codex CLI does not support auto-approve; continuing without bypass flag." |};
    {| notice_key := str "openai-jsonschema";
       notice_capability := "supportsOutputSchema";
       notice_requested := fun o => truthy (jsonSchema o);
       notice_text := str "Codex CLI does not support --output-schema; skipping schema flag." |};
    {| notice_key := str "openai-reasoning";
       notice_capability := "supportsConfigOverride";
       notice_requested := fun o => given (spec_effort o);
       notice_text := str "Codex CLI does not support --config overrides; skipping reasoningEffort." |} ].

(** The build asks for the feature and the capability is explicitly
    false. *)
Definition raises (n : Notice) (options : Options) : bool :=
  notice_requested n options
  && is_false (default ∅ (cliFeatures options)) (notice_capability n).

Definition is_notice (n : Notice) (e : LogEntry) : bool :=
  match e with
  | Warn text => bool_decide (text = sign ++ notice_text n)
  | Debug _ => false
  end.

(** How often the console shows the warning. *)
Definition printed (n : Notice) (p : Process) : nat :=
  length (List.filter (is_notice n) (console p)).

(** Builds one after the other. *)
Fixpoint builds `{Host} (requests : list (jstr * Options)) (p : Process)
  : Process :=
  match requests with
  | [] => p
  | (context, options) :: rest => builds rest (buildCommand context options p).2
  end.

(** The count that the provider keeps for a key. *)
Definition count (this : Provider) (k : key) : nat :=
  default 0%nat (_unknownEventCounts this !! k).

Definition capped (this : Provider) : Prop :=
  forall k, (count this k <= 5)%nat.

(** A key that is a primitive value: equal types are filed under one
    key. *)
Definition primitive (k : key) : bool :=
  match k with
  | KObject _ => false
  | _ => true
  end.

(** No object that is yet to come is a key of the counters. *)
Definition unseen (this : Provider) (p : Process) : Prop :=
  forall n, (objects p <= n)%nat -> _unknownEventCounts this !! KObject n = None.

(** The key of the type of the event on [line], when the parser has no case
    for it. *)
Definition unknown_key `{Host} (line : jstr) (p : Process) : option key :=
  match JSON.parse line with
  | Ok event =>
      match get (Json event) (str "type") with
      | Ok type =>
          if OutputParser.known_type type then None
          else Some (key_of type (objects p))
      | Throw _ => None
      end
  | Throw _ => None
  end.

(** The number of events among [lines] whose type the parser has no case
    for and which is filed under [k]. *)
Fixpoint occurrences `{Host} (k : key) (lines : list jstr)
    (st : Provider * Process) : nat :=
  match lines with
  | [] => 0
  | line :: rest =>
      ((if bool_decide (unknown_key line st.2 = Some k) then 1 else 0)
       + occurrences k rest (parseEvent line st).2)%nat
  end.

(** The number of entries that parsing [lines] adds to the console while the
    event at hand has a type filed under [k]. *)
Fixpoint emissions `{Host} (k : key) (lines : list jstr)
    (st : Provider * Process) : nat :=
  match lines with
  | [] => 0
  | line :: rest =>
      let st' := (parseEvent line st).2 in
      ((if bool_decide (unknown_key line st.2 = Some k)
        then length (console st'.2) - length (console st.2) else 0)
       + emissions k rest st')%nat
  end.

End OpenAI.

(* ===================================================================== *)
(** * The isolation manager and the supervisor's [kill] *)
(* ===================================================================== *)

(** The sources of the isolation manager (src/isolation-manager.js) and of
    the supervisor (src/orchestrator.js) are not at hand, only their tests
    are; this module follows the words of the specification (4.1, 4.4 and
    the data model). *)
Module Isolation.
Import Js.

(** Modelled from the spec: the record of a worktree isolation,
    "Worktree{path, branch, repoRoot}". *)
Record WorktreeInfo := {
  path : jstr;
  branch : jstr;
  repoRoot : jstr;
}.

(** Modelled from the spec: what the manager acts on outside the process;
    the directories that exist, the worktree registrations and the branches
    of the repositories (each paired with the root of its repository), the
    containers that run, the work directories that hold a package manifest,
    and the child processes that have been signalled. *)
Record World := {
  directories : gset jstr;
  registrations : gset (jstr * jstr);
  branches : gset (jstr * jstr);
  running : gset jstr;
  manifests : gset jstr;
  signalled : gset Z;
}.

(** Modelled from the spec: what [createContainer] does that can be
    observed from outside, in the order in which it does it. *)
Inductive Effect :=
| Launch (image workDir : jstr)
| Exec (clusterId : jstr) (attempt : nat)
| Sleep (milliseconds : Z)
| Warning (text : jstr).

(** Modelled from the spec: the manager's own tables ("lookup by id"), and
    the effects it has had in order. *)
Record Manager := {
  worktrees : gmap jstr WorktreeInfo;
  containers : gmap jstr jstr;
  trace : list Effect;
}.

Record Sys := {
  manager : Manager;
  world : World;
}.

(** Computations on the manager and the world that may throw. *)
Definition M (A : Type) : Type := Sys -> result A * Sys.

#[export] Instance M_ret : MRet M := fun A a s => (Ok a, s).

#[export] Instance M_bind : MBind M := fun A B k m s =>
  match m s with
  | (Ok a, s') => k a s'
  | (Throw e, s') => (Throw e, s')
  end.

Definition throw {A} (e : exn) : M A := fun s => (Throw e, s).

Definition try_catch {A} (m : M A) (handler : exn -> M A) : M A := fun s =>
  match m s with
  | (Ok a, s') => (Ok a, s')
  | (Throw e, s') => handler e s'
  end.

Definition read {A} (f : Sys -> A) : M A := fun s => (Ok (f s), s).

Definition on_world (f : World -> World) : M unit := fun s =>
  (Ok tt, {| manager := manager s; world := f (world s) |}).

Definition on_manager (f : Manager -> Manager) : M unit := fun s =>
  (Ok tt, {| manager := f (manager s); world := world s |}).

Definition emit (e : Effect) : M unit :=
  on_manager (fun m => {| worktrees := worktrees m; containers := containers m;
                          trace := trace m ++ [e] |}).

(** ** Worktrees *)

(** Modelled from the spec: the git tooling that [cleanupWorktree] relies
    on, whose errors it swallows. [git worktree remove] takes the
    registration and the directory away; it fails for a path that is not a
    registered worktree. *)
Definition git_worktree_remove (info : WorktreeInfo) : M unit := fun s =>
  if bool_decide ((repoRoot info, path info) ∈ registrations (world s)) then
    on_world (fun w =>
      {| directories := directories w ∖ {[path info]};
         registrations := registrations w ∖ {[(repoRoot info, path info)]};
         branches := branches w; running := running w;
         manifests := manifests w; signalled := signalled w |}) s
  else throw (Error (str "not a working tree")) s.

(** Modelled from the spec: the "best-effort directory removal". *)
Definition remove_directory (p : jstr) : M unit :=
  on_world (fun w =>
    {| directories := directories w ∖ {[p]};
       registrations := registrations w; branches := branches w;
       running := running w; manifests := manifests w;
       signalled := signalled w |}).

Definition forget_worktree (clusterId : jstr) : M unit :=
  on_manager (fun m => {| worktrees := delete clusterId (worktrees m);
                          containers := containers m; trace := trace m |}).

(** Modelled from the spec: [cleanupWorktree] of the isolation manager,
    whose source (src/isolation-manager.js) is known only through its tests.
    "Removes the git worktree registration and deletes its directory; the
    branch is preserved. Idempotent: unknown cluster ids are a no-op; double
    cleanup does not error. Errors from the git tooling are swallowed after
    best-effort directory removal." *)
Definition cleanupWorktree (clusterId : jstr) : M unit :=
  info ← read (fun s => worktrees (manager s) !! clusterId);
  match info with
  | None => mret tt
  | Some info =>
      try_catch (git_worktree_remove info)
                (fun _ => remove_directory (path info));;
      forget_worktree clusterId
  end.

(** [n] cleanups in a row. *)
Fixpoint cleanups (n : nat) (clusterId : jstr) : M unit :=
  match n with
  | O => mret tt
  | S n' => cleanupWorktree clusterId;; cleanups n' clusterId
  end.

(** Modelled from the spec: [getWorktreeInfo], "lookup by id". *)
Definition getWorktreeInfo (clusterId : jstr) : M (option WorktreeInfo) :=
  read (fun s => worktrees (manager s) !! clusterId).

(** ** Containers *)

(** Modelled from the spec: what one run of the install command in the
    container comes to, a result with an exit code or a thrown error. *)
Inductive ExecOutcome :=
| Exited (code : Z)
| Threw (e : exn).

(** Modelled from the spec: "Thrown errors from the exec channel are
    treated equivalently to non-zero exit." *)
Definition succeeded (o : ExecOutcome) : bool :=
  match o with
  | Exited code => bool_decide (code = 0)
  | Threw _ => false
  end.

(** A run that exits with a non-zero code, or throws. *)
Definition fails (o : ExecOutcome) : Prop :=
  match o with
  | Exited code => code <> 0
  | Threw _ => True
  end.

(** Modelled from the spec: "up to 3 attempts total". *)
Definition maxAttempts : nat := 3.

(** Modelled from the spec: the sleep after a failed attempt, in
    milliseconds; "sleeps 2*2^0 s and 2*2^1 s between attempts". *)
Definition delay (attempt : nat) : Z := 2000 * 2 ^ (Z.of_nat attempt - 1).

(** Modelled from the spec: the attempts from [attempt] on, [remaining] of
    them, with a sleep after each failed one but the last;
    [execInContainer n] is the outcome of the [n]-th run of the install
    command. *)
Fixpoint attempts (execInContainer : nat -> ExecOutcome) (clusterId : jstr)
    (attempt remaining : nat) : M bool :=
  match remaining with
  | O => mret false
  | S remaining' =>
      emit (Exec clusterId attempt);;
      if succeeded (execInContainer attempt) then mret true
      else
        match remaining' with
        | O => mret false
        | S _ =>
            emit (Sleep (delay attempt));;
            attempts execInContainer clusterId (S attempt) remaining'
        end
  end.

(** Modelled from the spec: "bounded exponential-backoff retry: up to 3
    attempts total, with sleeps 2*2^0 s and 2*2^1 s between attempts (no
    delay after the last) ... If all retries fail, the failure is logged as
    a warning"; scenario 5 has the warning match "npm install failed". *)
Definition install (execInContainer : nat -> ExecOutcome) (clusterId : jstr)
  : M unit :=
  installed ← attempts execInContainer clusterId 1 maxAttempts;
  if installed : bool then mret tt
  else emit (Warning (str "npm install failed")).

(** Modelled from the spec: [cleanupContainer], "Stops and removes the
    container; idempotent." *)
Definition cleanupContainer (clusterId : jstr) : M unit :=
  known ← read (fun s => containers (manager s) !! clusterId);
  match known with
  | None => mret tt
  | Some containerId =>
      on_world (fun w =>
        {| directories := directories w; registrations := registrations w;
           branches := branches w; running := running w ∖ {[containerId]};
           manifests := manifests w; signalled := signalled w |});;
      on_manager (fun m => {| worktrees := worktrees m;
                              containers := delete clusterId (containers m);
                              trace := trace m |})
  end.

(** Modelled from the spec: [createContainer] of the isolation manager.
    "Launches a long-running container, bind-mounts workDir. If workDir
    contains a package manifest, runs the ecosystem install command inside
    the container with bounded exponential-backoff retry ... the container is
    still returned successfully ... Skipped entirely when no manifest
    exists." A prior record for the same id is cleaned first. [launch] is
    what starting the container comes to: its id, or an error that is
    surfaced. *)
Definition createContainer (launch : result jstr)
    (execInContainer : nat -> ExecOutcome)
    (clusterId workDir image : jstr) : M jstr :=
  cleanupContainer clusterId;;
  emit (Launch image workDir);;
  match launch with
  | Throw e => throw e
  | Ok containerId =>
      on_world (fun w =>
        {| directories := directories w; registrations := registrations w;
           branches := branches w; running := {[containerId]} ∪ running w;
           manifests := manifests w; signalled := signalled w |});;
      on_manager (fun m => {| worktrees := worktrees m;
                              containers := <[clusterId := containerId]> (containers m);
                              trace := trace m |});;
      hasManifest ← read (fun s => bool_decide (workDir ∈ manifests (world s)));
      (if hasManifest : bool then install execInContainer clusterId else mret tt);;
      mret containerId
  end.

(** Modelled from the spec: [hasContainer], "lookup by id". *)
Definition hasContainer (clusterId : jstr) : M bool :=
  read (fun s => bool_decide (is_Some (containers (manager s) !! clusterId))).

(** ** The supervisor *)

(** Modelled from the spec: the states of a cluster, its isolation record
    and the cluster itself, as far as [kill] touches them. *)
Inductive ClusterState :=
| initializing
| cluster_running
| stopping
| stopped
| failed.

Inductive IsolationRecord :=
| Worktree (info : WorktreeInfo)
| Container (containerId image workDir : jstr)
| NoIsolation.

Record Cluster := {
  state : ClusterState;
  isolation : IsolationRecord;
  children : list Z;
}.

(** Modelled from the spec: "signal all child process groups". *)
Definition signal_all (pids : list Z) : M unit :=
  on_world (fun w =>
    {| directories := directories w; registrations := registrations w;
       branches := branches w; running := running w;
       manifests := manifests w;
       signalled := list_to_set pids ∪ signalled w |}).

(** Modelled from the spec: [kill] of the supervisor (src/orchestrator.js,
    known only through its tests). "Immediate: signal all child process
    groups, cleanup isolation, mark stopped. Branch of a worktree is
    preserved." The registry of clusters is passed in and handed back; the
    specification names no error for an unknown id, which is left alone. *)
Definition kill (clusterId : jstr) (clusters : gmap jstr Cluster)
  : M (gmap jstr Cluster) :=
  match clusters !! clusterId with
  | None => mret clusters
  | Some cluster =>
      signal_all (children cluster);;
      match isolation cluster with
      | Worktree _ => cleanupWorktree clusterId
      | Container _ _ _ => cleanupContainer clusterId
      | NoIsolation => mret tt
      end;;
      mret (<[clusterId := {| state := stopped;
                              isolation := isolation cluster;
                              children := [] |}]> clusters)
  end.

End Isolation.

(* ===================================================================== *)
(** * Vocabulary of the properties of the parser *)
(* ===================================================================== *)

Module ParserTerms.
Import Js.

Definition is_null (j : json) : bool :=
  match j with
  | JNull => true
  | _ => false
  end.

(** A value that has no string: an object with a property [toString] of
    its own, or an array that holds such a value. *)
Fixpoint unprintable (j : json) : bool :=
  match j with
  | JObj fields =>
      match own (str "toString") fields with
      | Undefined => false
      | Json _ => true
      end
  | JArr items => existsb unprintable items
  | _ => false
  end.

Definition no_string (v : value) : bool :=
  match v with
  | Undefined => false
  | Json j => unprintable j
  end.

(** An element of a content array that the filter [keep] lets through and
    whose [text] has no string. *)
Definition unreadable (keep : value -> bool) (c : json) : bool :=
  match c with
  | JObj fields => keep (own (str "type") fields) && no_string (own (str "text") fields)
  | _ => false
  end.

(** The types of the elements that [parseItem] reads: texts and thoughts. *)
Definition is_read (type : value) : bool :=
  OutputParser.is_text type || OutputParser.is_thinking type.

(** An item that [parseItem] cannot read: one that is not there
    ([undefined] or [null]), or the message of an assistant whose content
    is an array with a [null] in it or with a text or a thought whose
    [text] has no string, or whose content, not being an array, is a value
    without a string. *)
Definition broken_item (item : value) : bool :=
  match item with
  | Undefined | Json JNull => true
  | Json (JObj fields) =>
      is_str (own (str "type") fields) (str "message")
      && is_str (own (str "role") fields) (str "assistant")
      && match own (str "content") fields with
         | Json (JArr content) =>
             existsb is_null content || existsb (unreadable is_read) content
         | single => no_string single
         end
  | _ => false
  end.

(** The two parses one after the other, the second on the state that the
    first has left; a throw of the first ends it. *)
Definition then_parse {S : Type}
    (first : result (list OutputParser.Event) * S)
    (second : S -> result (list OutputParser.Event) * S) : result (list OutputParser.Event) * S :=
  match first with
  | (Ok events, st) =>
      match second st with
      | (Ok more, st') => (Ok (events ++ more), st')
      | (Throw e, st') => (Throw e, st')
      end
  | (Throw e, st) => (Throw e, st)
  end.

End ParserTerms.

(* ===================================================================== *)
(** * The capability table (src/providers/capabilities.js) *)
(* ===================================================================== *)

Module Capabilities.
Import Js.

Definition CAPABILITIES : list (jstr * json) :=
  [ (str "anthropic",
     JObj [ (str "dockerIsolation", JBool true);
            (str "worktreeIsolation", JBool true);
            (str "mcpServers", JBool true);
            (str "jsonSchema", JBool true);
            (str "streamJson", JBool true);
            (str "thinkingMode", JBool true);
            (str "reasoningEffort", JBool false) ]);
    (str "openai",
     JObj [ (str "dockerIsolation", JBool true);
            (str "worktreeIsolation", JBool true);
            (str "mcpServers", JBool true);
            (str "jsonSchema", JBool true);
            (str "streamJson", JBool true);
            (str "thinkingMode", JBool true);
            (str "reasoningEffort", JBool true) ]);
    (str "google",
     JObj [ (str "dockerIsolation", JBool true);
            (str "worktreeIsolation", JBool true);
            (str "mcpServers", JBool true);
            (str "jsonSchema", JStr (str "experimental"));
            (str "streamJson", JBool true);
            (str "thinkingMode", JBool true);
            (str "reasoningEffort", JBool false) ]) ].

(** [checkCapability(provider, capability)]: what the table holds for a
    provider is an object or nothing. *)
Definition checkCapability (provider capability : jstr) : bool :=
  match own provider CAPABILITIES with
  | Undefined => false
  | caps => is_bool (get_opt caps capability) true
  end.

(** [warnIfExperimental(provider, capability)], on the lines that
    [console.warn] has printed. *)
Definition warnIfExperimental (provider capability : jstr)
    (console : list jstr) : list jstr :=
  if is_str (get_opt (own provider CAPABILITIES) capability)
            (str "experimental")
  then console
       ++ [ [9888%N; 65039%N; 32%N] ++ capability
            ++ str " is experimental for " ++ provider
            ++ str " and may not work reliably" ]
  else console.

End Capabilities.

(* ===================================================================== *)
(** * The status footer (src/status-footer.js) *)
(* ===================================================================== *)

Module StatusFooter.
Import Js.

Definition ESC : cu := 27%N.
Definition CSI : jstr := [ESC; 91%N].

Module COLORS.
Definition reset : jstr := CSI ++ str "0m".
Definition bold : jstr := CSI ++ str "1m".
Definition dim : jstr := CSI ++ str "2m".
Definition cyan : jstr := CSI ++ str "36m".
Definition gray : jstr := CSI ++ str "90m".
End COLORS.

(** How the host prints an integer ([`${n}`]). *)
Definition number_string (n : Z) : jstr :=
  str (NilZero.string_of_int (Z.to_int n)).

(** The durations that the embedding covers: whole numbers of milliseconds
    (the difference of two readings of [Date.now()]) below 2^40, some
    thirty years, in either direction. The host divides floating-point
    numbers; up to this size the rounded quotient of [ms / 1000] lies on
    the same side of every whole number as the exact one, so that
    [Math.floor] of it is [Z.div]. *)
Definition exact_duration (ms : Z) : bool := Z.abs ms <? 2 ^ 40.

(** [formatDuration(ms)]; nothing is said about a duration that is not
    covered. The remainder has the sign of the dividend, as [Z.rem] has. *)
Definition formatDuration (ms : Z) : option jstr :=
  if exact_duration ms then
    let seconds := ms / 1000 in
    let minutes := seconds / 60 in
    let hours := minutes / 60 in
    if 0 <? hours then
      Some (number_string hours ++ str "h" ++ number_string (Z.rem minutes 60)
            ++ str "m")
    else if 0 <? minutes then
      Some (number_string minutes ++ str "m" ++ number_string (Z.rem seconds 60)
            ++ str "s")
    else Some (number_string seconds ++ str "s")
  else None.

(** The classes of the expression of [stripAnsi]: a digit or a semicolon,
    and a letter. *)
Definition is_param (c : cu) : bool :=
  ((48 <=? c) && (c <=? 57) || (c =? 59))%N.

Definition is_letter (c : cu) : bool :=
  ((65 <=? c) && (c <=? 90) || (97 <=? c) && (c <=? 122))%N.

(** The length of the match of the parameters and the final letter at the
    start of [s], if there is one. The two classes are disjoint, so the
    greedy star has one way to match. *)
Fixpoint tail_length (s : jstr) : option nat :=
  match s with
  | [] => None
  | c :: r =>
      if is_param c then S <$> tail_length r
      else if is_letter c then Some 1%nat
      else None
  end.

(** The length of the match of the whole expression (the escape character,
    an opening bracket, parameters, a letter) at the start of [s]. *)
Definition escape_length (s : jstr) : option nat :=
  match s with
  | e :: b :: r =>
      if ((e =? ESC) && (b =? 91))%N then (fun n => S (S n)) <$> tail_length r
      else None
  | _ => None
  end.

(** The global replacement by the empty string: a match is left out and the
    search goes on behind it; [skip] counts the code units of the current
    match that are still to be left out. *)
Fixpoint strip (skip : nat) (s : jstr) : jstr :=
  match s with
  | [] => []
  | c :: r =>
      match skip with
      | S k => strip k r
      | O =>
          match escape_length (c :: r) with
          | Some n => strip (pred n) r
          | None => c :: strip 0 r
          end
      end
  end.

Definition stripAnsi (s : jstr) : jstr := strip 0 s.

(** The text is empty or begins with the escape character. *)
Definition at_escape (s : jstr) : Prop :=
  s = [] \/ exists rest, s = ESC :: rest.

(** [s.replace(pattern, replacement)] with a string pattern: the first
    occurrence only (the replacement has no dollar sign). *)
Definition replace_first (pattern replacement s : jstr) : jstr :=
  match find_sub pattern s with
  | Some (before, after) => before ++ replacement ++ after
  | None => s
  end.

(** [s.repeat(n)], for a whole number that is not negative. *)
Definition repeat_str (s : jstr) (n : Z) : jstr :=
  mjoin (replicate (Z.to_nat n) s).

(** The part of the header before the border is filled in; 9484 and 9472
    are the corner and the horizontal line of the box. *)
Definition header_content (clusterId : option jstr) : jstr :=
  COLORS.gray ++ [9484%N; 9472%N] ++ COLORS.reset
  ++ (if BaseProvider.given clusterId then
        str " " ++ COLORS.cyan ++ COLORS.bold
        ++ replace_first (str "cluster-") [] (default [] clusterId)
        ++ COLORS.reset ++ str " "
      else []).

(** [buildHeaderLine(width)]; [clusterId] is the field of the footer, [null]
    until [setCluster] sets it; 9488 is the closing corner. *)
Definition buildHeaderLine (clusterId : option jstr) (width : Z) : jstr :=
  let content := header_content clusterId in
  let contentLen := Z.of_nat (length (stripAnsi content)) in
  let padding := Z.max 0 (width - contentLen - 1) in
  content ++ COLORS.gray ++ repeat_str [9472%N] padding ++ [9488%N]
  ++ COLORS.reset.

End StatusFooter.

(* ===================================================================== *)
(** * Inputs of the examples *)
(* ===================================================================== *)

(** A host: a number is falsy when it is written [0], and prints as it is
    written; objects are printed without their properties. *)
Definition example_host : Js.Host :=
  {| Js.number_truthy := fun n => negb (bool_decide (n = Js.str "0"));
     Js.number_to_string := fun n => n;
     Js.stringify := fun _ => Js.str "{}" |}.

(** A validator that accepts every instance of every schema. *)
Definition example_ajv : DirectApi.Ajv :=
  {| DirectApi.compile := fun _ => Js.Ok (fun _ => None) |}.

Definition text_response (text : Js.jstr) : DirectApi.ApiOutcome :=
  DirectApi.Resolved
    {| DirectApi.content :=
         [ {| DirectApi.block_type := Js.str "text";
              DirectApi.block_text := text |} ];
       DirectApi.usage := None |}.

Definition empty_manager : Isolation.Manager :=
  {| Isolation.worktrees := ∅; Isolation.containers := ∅;
     Isolation.trace := [] |}.

(** A work directory with a package manifest, and no container yet. *)
Definition project_sys : Isolation.Sys :=
  {| Isolation.manager := empty_manager;
     Isolation.world :=
       {| Isolation.directories := ∅; Isolation.registrations := ∅;
          Isolation.branches := ∅; Isolation.running := ∅;
          Isolation.manifests := {[ Js.str "/work" ]};
          Isolation.signalled := ∅ |} |}.

(** The install command throws on its second run and exits with 1 on every
    other run. *)
Definition flaky_channel (n : nat) : Isolation.ExecOutcome :=
  if (n =? 2)%nat
  then Isolation.Threw (Js.Error (Js.str "Container disconnected"))
  else Isolation.Exited 1.

Definition c1_info : Isolation.WorktreeInfo :=
  {| Isolation.path := Js.str "/tmp/zeroshot-worktrees/c1";
     Isolation.branch := Js.str "zeroshot/c1";
     Isolation.repoRoot := Js.str "/repo" |}.

(** The cluster [c1] after [createWorktree]: directory, registration and
    branch exist, and the manager knows the worktree. *)
Definition c1_sys : Isolation.Sys :=
  {| Isolation.manager :=
       {| Isolation.worktrees := {[ Js.str "c1" := c1_info ]};
          Isolation.containers := ∅; Isolation.trace := [] |};
     Isolation.world :=
       {| Isolation.directories := {[ Js.str "/tmp/zeroshot-worktrees/c1" ]};
          Isolation.registrations :=
            {[ (Js.str "/repo", Js.str "/tmp/zeroshot-worktrees/c1") ]};
          Isolation.branches := {[ (Js.str "/repo", Js.str "zeroshot/c1") ]};
          Isolation.running := ∅; Isolation.manifests := ∅;
          Isolation.signalled := ∅ |} |}.

Definition c1_clusters : gmap Js.jstr Isolation.Cluster :=
  {[ Js.str "c1" := {| Isolation.state := Isolation.cluster_running;
                       Isolation.isolation := Isolation.Worktree c1_info;
                       Isolation.children := [4711] |} ]}.

(* ===================================================================== *)
(** * Properties *)
(* ===================================================================== *)

Section HostFacts.
Import Js.

Lemma is_bool_true (v : value) (b : bool) :
  is_bool v b = true <-> v = Json (JBool b).
Proof.
  destruct v as [|[]]; simpl; try (split; [discriminate | intros [=]]).
  split.
  - intros E. apply Bool.eqb_prop in E. by subst.
  - intros [= ->]. apply Bool.eqb_reflx.
Qed.

Lemma is_str_true (v : value) (s : jstr) :
  is_str v s = true <-> v = Json (JStr s).
Proof.
  destruct v as [|[]]; simpl; try (split; [discriminate | intros [=]]).
  rewrite bool_decide_eq_true. split; [by intros -> | by intros [= ->]].
Qed.

Lemma nonempty_true (s : jstr) : nonempty s = true <-> s <> [].
Proof. destruct s; simpl; split; congruence. Qed.

End HostFacts.

(* --------------------------------------------------------------------- *)
(** ** The fuel of the JSON parser *)
(* --------------------------------------------------------------------- *)

Section JsonFuel.
Import Js JSON.
Local Open Scope nat_scope.
Local Arguments str : simpl never.

Lemma skip_ws_length (s : jstr) : length (skip_ws s) <= length s.
Proof.
  induction s as [|c s IH]; simpl; [done|].
  destruct (is_ws c); simpl; lia.
Qed.

Lemma digits_length (s ds r : jstr) :
  digits s = (ds, r) -> length r <= length s.
Proof.
  revert ds r. induction s as [|c s IH]; intros ds r; simpl.
  - by intros [= <- <-].
  - destruct (is_digit c).
    + destruct (digits s) as [ds' r'] eqn:E. intros [= <- <-].
      specialize (IH _ _ eq_refl). lia.
    + intros [= <- <-]. simpl. lia.
Qed.

Lemma string_body_length (s t r : jstr) :
  string_body s = Some (t, r) -> length r < length s.
Proof.
  revert t r. induction s as [s IH] using (induction_ltof1 _ (@length _)).
  unfold ltof in IH. intros t r. destruct s as [|c s]; simpl; [done|].
  destruct (c =? 34)%N; [intros [= <- <-]; simpl; lia|].
  destruct (c =? 92)%N.
  - destruct s as [|e s1]; [done|].
    destruct (e =? 117)%N.
    + destruct s1 as [|h1 [|h2 [|h3 [|h4 s2]]]]; try done.
      destruct (hex h1), (hex h2), (hex h3), (hex h4); try done.
      destruct (string_body s2) as [[t' r']|] eqn:E; [|done].
      intros [= <- <-]. apply IH in E; simpl in *; lia.
    + destruct (escape e); [|done].
      destruct (string_body s1) as [[t' r']|] eqn:E; [|done].
      intros [= <- <-]. apply IH in E; simpl in *; lia.
  - destruct (c <? 32)%N; [done|].
    destruct (string_body s) as [[t' r']|] eqn:E; [|done].
    intros [= <- <-]. apply IH in E; simpl in *; lia.
Qed.

Lemma number_length (s n r : jstr) :
  number s = Some (n, r) -> length r < length s.
Proof.
  unfold number.
  assert (forall s i r, number_int s = Some (i, r) -> length r < length s) as Int.
  { intros [|c s0] i r0; simpl; [done|].
    destruct (c =? 48)%N; [intros [= <- <-]; simpl; lia|].
    destruct (is_digit c); [|done].
    destruct (digits s0) as [ds r'] eqn:E. intros [= <- <-].
    apply digits_length in E. simpl. lia. }
  assert (forall s f r, number_frac s = Some (f, r) -> length r <= length s) as Frac.
  { intros [|c s0] f r0; simpl; [by intros [= <- <-]|].
    destruct (c =? 46)%N; [|intros [= <- <-]; simpl; lia].
    destruct (digits s0) as [[|d ds] r'] eqn:E; [done|].
    intros [= <- <-]. apply digits_length in E. simpl. lia. }
  assert (forall s e r, number_exp s = Some (e, r) -> length r <= length s) as Exp.
  { intros [|c s0] e r0; simpl; [by intros [= <- <-]|].
    destruct ((c =? 101) || (c =? 69))%N; [|intros [= <- <-]; simpl; lia].
    destruct s0 as [|x s1].
    - simpl. done.
    - destruct ((x =? 43) || (x =? 45))%N.
      + destruct (digits s1) as [[|d ds] r'] eqn:E; [done|].
        intros [= <- <-]. apply digits_length in E. simpl. lia.
      + destruct (digits (x :: s1)) as [[|d ds] r'] eqn:E; [done|].
        intros [= <- <-]. apply digits_length in E. simpl in *. lia. }
  destruct s as [|c s0].
  - simpl. done.
  - destruct (c =? 45)%N.
    + destruct (number_int s0) as [[i s1]|] eqn:E1; [|done].
      destruct (number_frac s1) as [[f s2]|] eqn:E2; [|done].
      destruct (number_exp s2) as [[e s3]|] eqn:E3; [|done].
      intros [= <- <-]. apply Int in E1. apply Frac in E2. apply Exp in E3.
      simpl. lia.
    + destruct (number_int (c :: s0)) as [[i s1]|] eqn:E1; [|done].
      destruct (number_frac s1) as [[f s2]|] eqn:E2; [|done].
      destruct (number_exp s2) as [[e s3]|] eqn:E3; [|done].
      intros [= <- <-]. apply Int in E1. apply Frac in E2. apply Exp in E3.
      simpl in *. lia.
Qed.

Local Arguments keyword : simpl never.
Local Arguments number : simpl never.
Local Arguments string_body : simpl never.

Lemma starts_with_length (p s : jstr) :
  starts_with p s = true -> length p <= length s.
Proof.
  revert s. induction p as [|a p IH]; intros [|b s]; simpl; try done; try lia.
  intros E. apply andb_true_iff in E as [_ E]. apply IH in E. lia.
Qed.

Lemma keyword_length (k : string) (j v : json) (s r : jstr) :
  0 < length (str k) ->
  keyword k j s = Some (v, r) -> length r < length s.
Proof.
  unfold keyword. intros Hk. destruct (starts_with (str k) s) eqn:E; [|done].
  intros [= <- <-]. apply starts_with_length in E.
  rewrite length_drop. lia.
Qed.

(** What [skip_ws] leaves is no longer than what it was given. *)
Ltac ws_length :=
  repeat match goal with
    | E : skip_ws ?s = _ :: _ |- _ =>
        let L := fresh "L" in
        pose proof (skip_ws_length s) as L; rewrite E in L; simpl in L;
        revert E
    end; intros.

Lemma value_consumes (f : nat) :
  (forall s v r, value f s = Some (v, r) -> length r < length s)
  /\ (forall s vs r, elements f s = Some (vs, r) -> length r < length s)
  /\ (forall s fs r, members f s = Some (fs, r) -> length r < length s).
Proof.
  induction f as [|f (IHv & IHe & IHm)]; [done|].
  split; [|split].
  - intros s v r. simpl.
    destruct (skip_ws s) as [|c r0] eqn:Es; [done|].
    destruct (c =? 123)%N.
    { destruct (skip_ws r0) as [|d r1] eqn:Er; [done|].
      destruct (d =? 125)%N; [intros [= <- <-]; ws_length; lia|].
      destruct (members f r0) as [[fs rest]|] eqn:Em; [|done].
      intros [= <- <-]. apply IHm in Em. ws_length. lia. }
    destruct (c =? 91)%N.
    { destruct (skip_ws r0) as [|d r1] eqn:Er; [done|].
      destruct (d =? 93)%N; [intros [= <- <-]; ws_length; lia|].
      destruct (elements f r0) as [[vs rest]|] eqn:Ee; [|done].
      intros [= <- <-]. apply IHe in Ee. ws_length. lia. }
    destruct (c =? 34)%N.
    { destruct (string_body r0) as [[t rest]|] eqn:Eb; [|done].
      intros [= <- <-]. apply string_body_length in Eb. ws_length. lia. }
    destruct (c =? 116)%N.
    { intros K. apply keyword_length in K; [|vm_compute; lia]. ws_length.
      simpl in K. lia. }
    destruct (c =? 102)%N.
    { intros K. apply keyword_length in K; [|vm_compute; lia]. ws_length.
      simpl in K. lia. }
    destruct (c =? 110)%N.
    { intros K. apply keyword_length in K; [|vm_compute; lia]. ws_length.
      simpl in K. lia. }
    destruct (number (c :: r0)) as [[n rest]|] eqn:En; [|done].
    intros [= <- <-]. apply number_length in En. ws_length. simpl in En. lia.
  - intros s vs r. simpl.
    destruct (value f s) as [[v r0]|] eqn:Ev; [|done]. apply IHv in Ev.
    destruct (skip_ws r0) as [|d r1] eqn:Er; [done|].
    destruct (d =? 93)%N; [intros [= <- <-]; ws_length; lia|].
    destruct (d =? 44)%N; [|done].
    destruct (elements f r1) as [[vs' rest]|] eqn:Ee; [|done].
    intros [= <- <-]. apply IHe in Ee. ws_length. lia.
  - intros s fs r. simpl.
    destruct (skip_ws s) as [|q r0] eqn:Es; [done|].
    destruct (q =? 34)%N; [|done].
    destruct (string_body r0) as [[k r1]|] eqn:Eb; [|done].
    apply string_body_length in Eb.
    destruct (skip_ws r1) as [|colon r2] eqn:Ec; [done|].
    destruct (colon =? 58)%N; [|done].
    destruct (value f r2) as [[v r3]|] eqn:Ev; [|done]. apply IHv in Ev.
    destruct (skip_ws r3) as [|d r4] eqn:Ed; [done|].
    destruct (d =? 125)%N; [intros [= <- <-]; ws_length; lia|].
    destruct (d =? 44)%N; [|done].
    destruct (members f r4) as [[fs' rest]|] eqn:Em; [|done].
    intros [= <- <-]. apply IHm in Em. ws_length. lia.
Qed.

(** Fuel beyond twice the number of characters that a parse consumes does
    not change it. *)
Lemma value_fuel (f : nat) :
  (forall f' s v r,
      value f s = Some (v, r) -> 2 * (length s - length r) <= f' ->
      value f' s = Some (v, r))
  /\ (forall f' s vs r,
         elements f s = Some (vs, r) -> 2 * (length s - length r) <= S f' ->
         elements f' s = Some (vs, r))
  /\ (forall f' s fs r,
         members f s = Some (fs, r) -> 2 * (length s - length r) <= S f' ->
         members f' s = Some (fs, r)).
Proof.
  induction f as [|f (IHv & IHe & IHm)]; [done|].
  destruct (value_consumes f) as (Cv & Ce & Cm).
  split; [|split].
  - intros f' s v r Hv Hb.
    pose proof (proj1 (value_consumes (S f)) _ _ _ Hv) as Lt.
    destruct f' as [|f']; [lia|]. revert Hv Hb. simpl.
    destruct (skip_ws s) as [|c r0] eqn:Es; [done|].
    destruct (c =? 123)%N.
    { destruct (skip_ws r0) as [|d r1] eqn:Er; [done|].
      destruct (d =? 125)%N; [done|].
      destruct (members f r0) as [[fs rest]|] eqn:Em; [|done].
      intros [= <- <-] Hb. pose proof (Cm _ _ _ Em). ws_length.
      rewrite (IHm f' _ _ _ Em); [done|lia]. }
    destruct (c =? 91)%N.
    { destruct (skip_ws r0) as [|d r1] eqn:Er; [done|].
      destruct (d =? 93)%N; [done|].
      destruct (elements f r0) as [[vs rest]|] eqn:Ee; [|done].
      intros [= <- <-] Hb. pose proof (Ce _ _ _ Ee). ws_length.
      rewrite (IHe f' _ _ _ Ee); [done|lia]. }
    done.
  - intros f' s vs r He Hb.
    pose proof (proj1 (proj2 (value_consumes (S f))) _ _ _ He) as Lt.
    destruct f' as [|f']; [lia|]. revert He Hb. simpl.
    destruct (value f s) as [[v r0]|] eqn:Ev; [|done].
    pose proof (Cv _ _ _ Ev).
    destruct (skip_ws r0) as [|d r1] eqn:Er; [done|].
    destruct (d =? 93)%N eqn:E1.
    { intros [= <- <-] Hb. ws_length.
      rewrite (IHv f' _ _ _ Ev); [|lia]. by rewrite Er, E1. }
    destruct (d =? 44)%N eqn:E2; [|done].
    destruct (elements f r1) as [[vs' rest]|] eqn:Ee; [|done].
    intros [= <- <-] Hb. pose proof (Ce _ _ _ Ee). ws_length.
    rewrite (IHv f' _ _ _ Ev); [|lia]. rewrite Er, E1, E2.
    rewrite (IHe f' _ _ _ Ee); [|lia]. done.
  - intros f' s fs r Hm Hb.
    pose proof (proj2 (proj2 (value_consumes (S f))) _ _ _ Hm) as Lt.
    destruct f' as [|f']; [lia|]. revert Hm Hb. simpl.
    destruct (skip_ws s) as [|q r0] eqn:Es; [done|].
    destruct (q =? 34)%N; [|done].
    destruct (string_body r0) as [[k r1]|] eqn:Eb; [|done].
    pose proof (string_body_length _ _ _ Eb).
    destruct (skip_ws r1) as [|colon r2] eqn:Ec; [done|].
    destruct (colon =? 58)%N; [|done].
    destruct (value f r2) as [[v r3]|] eqn:Ev; [|done].
    pose proof (Cv _ _ _ Ev).
    destruct (skip_ws r3) as [|d r4] eqn:Ed; [done|].
    destruct (d =? 125)%N eqn:E1.
    { intros [= <- <-] Hb. ws_length.
      rewrite (IHv f' _ _ _ Ev); [|lia]. by rewrite Ed, E1. }
    destruct (d =? 44)%N eqn:E2; [|done].
    destruct (members f r4) as [[fs' rest]|] eqn:Em; [|done].
    intros [= <- <-] Hb. pose proof (Cm _ _ _ Em). ws_length.
    rewrite (IHv f' _ _ _ Ev); [|lia]. rewrite Ed, E1, E2.
    rewrite (IHm f' _ _ _ Em); [|lia]. done.
Qed.

(** [parse] finds a value whenever some amount of fuel does. *)
Lemma parse_fuel (text : jstr) (j : json) :
  parse text = Ok j
  <-> exists fuel rest, value fuel text = Some (j, rest) /\ skip_ws rest = [].
Proof.
  unfold parse. split.
  - destruct (value (fuel_for text) text) as [[v rest]|] eqn:E; [|done].
    destruct (skip_ws rest) eqn:R; [|done]. intros [= <-]. eauto.
  - intros (fuel & rest & E & R).
    rewrite (proj1 (value_fuel fuel) (fuel_for text) _ _ _ E).
    + by rewrite R.
    + unfold fuel_for. lia.
Qed.

End JsonFuel.

(* --------------------------------------------------------------------- *)
(** ** The direct-API fast path: when it is taken *)
(* --------------------------------------------------------------------- *)

Section ShouldUseDirectApi.
Import Js DirectApi.
Context `{Host}.

(** C7. [shouldUseDirectApi] answers [true] exactly when
    [ANTHROPIC_API_KEY] is set to a non-empty value and either
    [useDirectApi] is [true], or it is not [false] and the agent has the role
    [conductor], the output format [json] and a JSON schema; without the
    credential (unset, or empty) the answer is [false]. *)
Theorem shouldUseDirectApi_exactly (ANTHROPIC_API_KEY : option jstr)
    (agentConfig : AgentConfig) :
  (shouldUseDirectApi ANTHROPIC_API_KEY agentConfig = true <->
   (exists c s, ANTHROPIC_API_KEY = Some (c :: s)) /\
   (useDirectApi agentConfig = Json (JBool true) \/
    (useDirectApi agentConfig <> Json (JBool false) /\
     role agentConfig = Json (JStr (str "conductor")) /\
     outputFormat agentConfig = Json (JStr (str "json")) /\
     truthy (jsonSchema agentConfig) = true)))
  /\ shouldUseDirectApi None agentConfig = false
  /\ shouldUseDirectApi (Some []) agentConfig = false.
Proof.
  split; [|done].
  unfold shouldUseDirectApi.
  destruct ANTHROPIC_API_KEY as [[|c s]|]; simpl.
  1,3: split; [discriminate | intros [(? & ? & [=]) _]].
  destruct (is_bool (useDirectApi agentConfig) true) eqn:Et.
  { apply is_bool_true in Et. split; [|done]. intros _. eauto. }
  destruct (is_bool (useDirectApi agentConfig) false) eqn:Ef.
  { apply is_bool_true in Ef. split; [discriminate|].
    intros [_ [E|[E _]]]; [|done].
    rewrite E in Ef. discriminate. }
  assert (useDirectApi agentConfig <> Json (JBool true)) as Nt.
  { intros E. apply is_bool_true in E. congruence. }
  assert (useDirectApi agentConfig <> Json (JBool false)) as Nf.
  { intros E. apply is_bool_true in E. congruence. }
  destruct (is_str (role agentConfig) (str "conductor")) eqn:Er; simpl.
  2: { split; [discriminate|]. intros [_ [E|(_ & E & _)]]; [done|].
       apply is_str_true in E. congruence. }
  destruct (is_str (outputFormat agentConfig) (str "json")) eqn:Eo; simpl.
  2: { split; [discriminate|]. intros [_ [E|(_ & _ & E & _)]]; [done|].
       apply is_str_true in E. congruence. }
  apply is_str_true in Er, Eo.
  destruct (truthy (jsonSchema agentConfig)) eqn:Ej.
  - split; [|done]. intros _. split; [eauto|]. right. done.
  - split; [discriminate|]. intros [_ [E|(_ & _ & _ & E)]]; done.
Qed.

End ShouldUseDirectApi.

(* --------------------------------------------------------------------- *)
(** ** Levels that a provider does not map *)
(* --------------------------------------------------------------------- *)

Section ResolveModelSpec.
Import Js BaseProvider.
Context `{Provider}.

Lemma slot_own (key : jstr) (entry : LevelEntry) :
  getLevelMapping !! key = Some entry -> slot key = Own entry.
Proof. intros E. unfold slot. by rewrite E. Qed.

Lemma slot_foreign (key : jstr) :
  getLevelMapping !! key = None ->
  slot key = if inherited key then Inherited else Absent.
Proof. intros E. unfold slot. by rewrite E. Qed.

Lemma resolveModelSpec_throws (level : jstr) (overrides : gmap jstr Override) :
  (exists e, resolveModelSpec level overrides = Throw e) <->
  slot level = Absent /\ slot getDefaultLevel = Absent.
Proof.
  unfold resolveModelSpec, base_entry.
  destruct (slot level) eqn:L; cbn [present];
    try (split; [by intros [e [=]] | by intros [[=] _]]).
  destruct (slot getDefaultLevel) eqn:D; cbn [present];
    try (split; [by intros [e [=]] | by intros [_ [=]]]).
  split; eauto.
Qed.

(** C10. A level that the mapping of the provider has no entry for. When
    the level is not the name of a member of [Object.prototype],
    [resolveModelSpec] answers with the model and the reasoning effort of
    the default level, each behind the override given for that very level
    name, under the level name that was asked for; it throws only when the
    default level yields nothing either; and [validateLevel] rejects the
    level. When the level is such a name ([constructor], [toString], ...),
    the lookup finds the inherited member: [resolveModelSpec] does not fall
    back and leaves model and reasoning effort to the override alone, and
    [validateLevel] returns the level. *)
Theorem resolveModelSpec_falls_back (level : jstr)
    (overrides : gmap jstr Override) (minLevel maxLevel : option jstr) :
  getLevelMapping !! level = None ->
  (inherited level = false ->
   match slot getDefaultLevel with
   | Absent =>
       resolveModelSpec level overrides
       = Throw (Error (message "Unknown level" level))
   | fallback =>
       resolveModelSpec level overrides
       = Ok {| level := level;
               model := or_str (overrides !! level ≫= override_model)
                               (slot_model fallback);
               reasoningEffort :=
                 or_str (overrides !! level ≫= override_reasoningEffort)
                        (slot_reasoningEffort fallback) |}
   end
   /\ validateLevel level minLevel maxLevel
      = Throw (Error (message "Invalid level" level)))
  /\ (inherited level = true ->
      resolveModelSpec level overrides
      = Ok {| level := level;
              model := or_str (overrides !! level ≫= override_model) None;
              reasoningEffort :=
                or_str (overrides !! level ≫= override_reasoningEffort) None |}
      /\ validateLevel level None None = Ok level)
  /\ (forall any, (exists e, resolveModelSpec any overrides = Throw e) ->
                  slot getDefaultLevel = Absent).
Proof.
  intros E. pose proof (slot_foreign level E) as L.
  split; [|split].
  - intros Foreign. rewrite Foreign in L. split.
    + unfold resolveModelSpec, base_entry. rewrite L. cbn [present].
      destruct (slot getDefaultLevel); cbn [present]; try done;
        by destruct (overrides !! level).
    + unfold validateLevel, unmapped. by rewrite L.
  - intros Member. rewrite Member in L. split.
    + unfold resolveModelSpec, base_entry. rewrite L. cbn [present].
      by destruct (overrides !! level).
    + unfold validateLevel, unmapped. by rewrite L.
  - intros any Hthrow. by apply resolveModelSpec_throws in Hthrow as [_ ?].
Qed.

End ResolveModelSpec.

(** The Google tables have no reasoning effort: a level that they do not
    map gets the model of [level2] and none. *)
Example resolveModelSpec_google :
  @BaseProvider.resolveModelSpec
     {| BaseProvider.name := Js.str "google";
        BaseProvider.getLevelMapping := GoogleModels.LEVEL_MAPPING;
        BaseProvider.getDefaultLevel := GoogleModels.DEFAULT_LEVEL |}
     (Js.str "level7") ∅
  = Js.Ok {| BaseProvider.level := Js.str "level7";
             BaseProvider.model := Some (Js.str "google-tier-2");
             BaseProvider.reasoningEffort := None |}.
Proof. by vm_compute. Qed.

(** The OpenAI tables. [level9] is resolved as [level2] is and rejected by
    [validateLevel]; [constructor] is resolved to no model and no reasoning
    effort, and [validateLevel] returns it. *)
Lemma resolveModelSpec_falls_back_openai :
  (@BaseProvider.resolveModelSpec OpenAI.levels (Js.str "level9") ∅
   = Js.Ok {| BaseProvider.level := Js.str "level9";
              BaseProvider.model := Some (Js.str "openai-model-main");
              BaseProvider.reasoningEffort := Some (Js.str "medium") |}
   /\ @BaseProvider.validateLevel OpenAI.levels (Js.str "level9") None None
      = Js.Throw (Js.Error
                    (@BaseProvider.message OpenAI.levels "Invalid level"
                       (Js.str "level9"))))
  /\ @BaseProvider.resolveModelSpec OpenAI.levels (Js.str "constructor") ∅
     = Js.Ok {| BaseProvider.level := Js.str "constructor";
                BaseProvider.model := None;
                BaseProvider.reasoningEffort := None |}
  /\ @BaseProvider.validateLevel OpenAI.levels (Js.str "constructor") None None
     = Js.Ok (Js.str "constructor").
Proof.
  split.
  - destruct (@resolveModelSpec_falls_back OpenAI.levels (Js.str "level9") ∅
                None None) as (Falls & _); [by vm_compute|].
    destruct Falls as [Resolved Rejected]; [by vm_compute|].
    split; [|exact Rejected].
    rewrite Resolved. by vm_compute.
  - destruct (@resolveModelSpec_falls_back OpenAI.levels
                (Js.str "constructor") ∅ None None) as (_ & Member & _);
      [by vm_compute|].
    destruct Member as [Resolved Accepted]; [by vm_compute|].
    split; [|exact Accepted].
    rewrite Resolved. by vm_compute.
Defined.

(* --------------------------------------------------------------------- *)
(** ** Lines that are not JSON *)
(* --------------------------------------------------------------------- *)

Section MalformedLines.
Import Js.
Context `{Host}.

(** A line that [JSON.parse] rejects makes [parseEvent] return [null]:
    nothing is thrown, the callback is not called and the caller's state is
    as before, for the parser itself and for the provider's method; and
    [safeJsonParse] returns its fallback for a string that [JSON.parse]
    rejects. The empty line is such a line. *)
Lemma parseEvent_malformed_line (line : jstr) (e : exn) :
  JSON.parse line = Throw e ->
  (forall (S : Type) (onUnknown : option (value -> json -> S -> result unit * S))
          (st : S),
      OutputParser.parseEvent line onUnknown st = (Ok OutputParser.Null, st))
  /\ (forall st, OpenAI.parseEvent line st = (Ok OutputParser.Null, st))
  /\ (forall fallback, OutputParser.safeJsonParse line fallback = fallback)
  /\ JSON.parse [] = Throw SyntaxError.
Proof.
  intros E. repeat split.
  - intros S onUnknown st. unfold OutputParser.parseEvent. by rewrite E.
  - intros st. unfold OpenAI.parseEvent, OutputParser.parseEvent. by rewrite E.
  - intros fallback. unfold OutputParser.safeJsonParse. by rewrite E.
Qed.

(** C9. [parseEvent] is not total. The line [null] is JSON, so the [try]
    around [JSON.parse] lets it through, and reading [event.type] of [null]
    throws a [TypeError]: from the parser, from the provider's method, and
    from [parseChunk], which then parses none of the lines that follow. An
    [item.created] event without an item throws in the same way, from
    [parseItem]. *)
Theorem parseEvent_null_line :
  JSON.parse (str "null") = Ok JNull
  /\ (forall (S : Type) (onUnknown : option (value -> json -> S -> result unit * S))
             (st : S),
        OutputParser.parseEvent (str "null") onUnknown st = (Throw TypeError, st)
        /\ OutputParser.parseEvent (dq "{'type':'item.created'}") onUnknown st
           = (Throw TypeError, st)
        /\ OutputParser.parseChunk
             (str "null" ++ [10%N] ++ dq "{'type':'turn.completed'}") onUnknown st
           = (Throw TypeError, st))
  /\ (forall st, OpenAI.parseEvent (str "null") st = (Throw TypeError, st)).
Proof.
  split; [by vm_compute|]. split; [|done].
  intros S onUnknown st. by vm_compute.
Qed.

End MalformedLines.

(** A line cut off in the middle of an event. *)
Lemma parseEvent_malformed_line_truncated :
  JSON.parse (Js.dq "{'type':'turn.comp") = Js.Throw Js.SyntaxError
  /\ @OpenAI.parseEvent example_host (Js.dq "{'type':'turn.comp")
       (OpenAI.new, OpenAI.start)
     = (Js.Ok OutputParser.Null, (OpenAI.new, OpenAI.start)).
Proof.
  split; [by vm_compute|].
  apply (@parseEvent_malformed_line example_host _ Js.SyntaxError).
  by vm_compute.
Defined.

(* --------------------------------------------------------------------- *)
(** ** The capabilities of the command line *)
(* --------------------------------------------------------------------- *)

Section CliFeatures.
Import Js OpenAI.

Lemma getCliFeatures_cached (help : option jstr) (this : Provider)
    (features : gmap string bool) :
  _cliFeatures this = Some features ->
  getCliFeatures help this = (features, this).
Proof. intros E. unfold getCliFeatures. by rewrite E. Qed.

Lemma getCliFeatures_caches (help : option jstr) (this : Provider) :
  _cliFeatures (getCliFeatures help this).2
  = Some (getCliFeatures help this).1.
Proof.
  unfold getCliFeatures. destruct (_cliFeatures this) eqn:E; simpl; done.
Qed.

Lemma calls_cached (helps : list (option jstr)) (this : Provider)
    (features : gmap string bool) :
  _cliFeatures this = Some features ->
  calls helps this = (replicate (length helps) features, this).
Proof.
  intros E. induction helps as [|help helps IH]; [done|].
  simpl. rewrite (getCliFeatures_cached _ _ _ E), IH. done.
Qed.

(** C4. When the help output cannot be had (the detection library answers
    nothing, or an empty text), the first call of [getCliFeatures] on a
    provider returns a set in which every capability is [true], and
    [unknown] with them. The first call stores the set that it returns in
    the field [_cliFeatures] and writes nothing else; whatever it returned,
    every later call returns the same set and leaves the provider as it
    is, whatever the help output would be by then. A provider that holds a
    set returns it, whichever set it is. *)
Theorem getCliFeatures_optimistic_and_cached (help : option jstr)
    (this : Provider) (later : list (option jstr)) :
  _cliFeatures this = None ->
  (BaseProvider.given help = false ->
   (forall c, In c capabilities ->
              (getCliFeatures help this).1 !! c = Some true)
   /\ (getCliFeatures help this).1 !! "unknown"%string = Some true)
  /\ _cliFeatures (getCliFeatures help this).2
     = Some (getCliFeatures help this).1
  /\ _unknownEventCounts (getCliFeatures help this).2
     = _unknownEventCounts this
  /\ calls later (getCliFeatures help this).2
     = (replicate (length later) (getCliFeatures help this).1,
        (getCliFeatures help this).2)
  /\ (forall (that : Provider) (features : gmap string bool)
             (help' : option jstr),
        _cliFeatures that = Some features ->
        getCliFeatures help' that = (features, that)).
Proof.
  intros Fresh. split; [|split; [|split; [|split]]].
  - intros Unknown. unfold getCliFeatures. rewrite Fresh, Unknown. split.
    + intros c Hc. simpl in Hc. simpl.
      repeat (destruct Hc as [<-|Hc]; [by vm_compute|]). done.
    + by vm_compute.
  - apply getCliFeatures_caches.
  - unfold getCliFeatures. by rewrite Fresh.
  - apply calls_cached, getCliFeatures_caches.
  - intros that features help' Held. by apply getCliFeatures_cached.
Qed.

End CliFeatures.

(** A new provider whose help cannot be read, asked three more times when
    the help has become readable. *)
Lemma getCliFeatures_optimistic_and_cached_new :
  OpenAI._cliFeatures OpenAI.new = None
  /\ Cli.enabled (OpenAI.getCliFeatures None OpenAI.new).1 "supportsJson" = true
  /\ OpenAI._cliFeatures (OpenAI.getCliFeatures None OpenAI.new).2
     = Some (OpenAI.getCliFeatures None OpenAI.new).1
  /\ (OpenAI.calls [Some (Js.str "usage: codex exec"); None; Some []]
        (OpenAI.getCliFeatures None OpenAI.new).2).1
     = replicate 3 (OpenAI.getCliFeatures None OpenAI.new).1.
Proof.
  split; [done|].
  destruct (getCliFeatures_optimistic_and_cached None OpenAI.new
              [Some (Js.str "usage: codex exec"); None; Some []] eq_refl)
    as (Optimistic & Stored & _ & Cached & _).
  split; [|split].
  - unfold Cli.enabled. destruct (Optimistic eq_refl) as [Capabilities _].
    rewrite Capabilities; [done|]. simpl. auto.
  - exact Stored.
  - by rewrite Cached.
Defined.

(* --------------------------------------------------------------------- *)
(** ** The isolation manager *)
(* --------------------------------------------------------------------- *)

Section IsolationFacts.
Import Js Isolation.

Local Arguments attempts : simpl never.

(** Unfolds the monad. *)
Ltac run_m :=
  unfold mbind, M_bind, mret, M_ret, read, emit, on_manager, on_world,
    throw, try_catch; simpl.

Lemma cleanupContainer_frame (clusterId : jstr) (s : Sys) :
  exists s', cleanupContainer clusterId s = (Ok tt, s')
             /\ trace (manager s') = trace (manager s)
             /\ worktrees (manager s') = worktrees (manager s)
             /\ manifests (world s') = manifests (world s).
Proof.
  unfold cleanupContainer. run_m.
  destruct (containers (manager s) !! clusterId); simpl; eauto.
Qed.

Lemma attempts_step (exec : nat -> ExecOutcome) (clusterId : jstr)
    (attempt remaining : nat) (s : Sys) :
  attempts exec clusterId attempt (S remaining) s
  = let s1 := {| manager :=
                   {| worktrees := worktrees (manager s);
                      containers := containers (manager s);
                      trace := trace (manager s) ++ [Exec clusterId attempt] |};
                 world := world s |} in
    if succeeded (exec attempt) then (Ok true, s1)
    else match remaining with
         | O => (Ok false, s1)
         | S _ =>
             attempts exec clusterId (S attempt) remaining
               {| manager :=
                    {| worktrees := worktrees (manager s);
                       containers := containers (manager s);
                       trace := (trace (manager s) ++ [Exec clusterId attempt])
                                ++ [Sleep (delay attempt)] |};
                  world := world s |}
         end.
Proof.
  unfold attempts at 1. fold attempts. run_m.
  destruct (succeeded (exec attempt)); [done|]. by destruct remaining.
Qed.

Lemma attempts_ext (exec exec' : nat -> ExecOutcome) (clusterId : jstr)
    (remaining attempt : nat) (s : Sys) :
  (forall n, succeeded (exec' n) = succeeded (exec n)) ->
  attempts exec' clusterId attempt remaining s
  = attempts exec clusterId attempt remaining s.
Proof.
  intros Same. revert attempt s.
  induction remaining as [|remaining IH]; intros attempt s; [done|].
  rewrite !attempts_step. simpl. rewrite Same.
  destruct (succeeded (exec attempt)); [done|].
  destruct remaining; [done|]. apply IH.
Qed.

Lemma createContainer_ext (launch : result jstr) (exec exec' : nat -> ExecOutcome)
    (clusterId workDir image : jstr) (s : Sys) :
  (forall n, succeeded (exec' n) = succeeded (exec n)) ->
  createContainer launch exec' clusterId workDir image s
  = createContainer launch exec clusterId workDir image s.
Proof.
  intros Same. unfold createContainer, install. run_m.
  destruct (cleanupContainer clusterId s) as [[[]|e] s1]; [|done].
  destruct launch as [containerId|e]; [|done]. simpl.
  case_bool_decide; [|done]. run_m.
  by rewrite (attempts_ext exec exec' _ _ _ _ Same).
Qed.

Lemma fails_not_succeeded (o : ExecOutcome) : fails o -> succeeded o = false.
Proof.
  destruct o as [code|e]; simpl; [|done].
  intros. by apply bool_decide_eq_false_2.
Qed.

(** C1. When the work directory holds a package manifest and every run of
    the install command fails, by a non-zero exit or by a thrown error,
    [createContainer] runs the command three times, sleeps 2000 ms before
    the second run and 4000 ms before the third and not after it, logs a
    warning, and returns the container, which is registered and running. A
    run that throws counts as a run that exits with a non-zero code: the
    outcome of [createContainer] depends on the runs only through their
    success. *)
Theorem createContainer_install_exhausted (containerId : jstr)
    (execInContainer : nat -> ExecOutcome) (clusterId workDir image : jstr)
    (s : Sys) :
  workDir ∈ manifests (world s) ->
  (forall n, fails (execInContainer n)) ->
  (exists s',
      createContainer (Ok containerId) execInContainer clusterId workDir image s
      = (Ok containerId, s')
      /\ trace (manager s')
         = trace (manager s)
           ++ [ Launch image workDir;
                Exec clusterId 1; Sleep 2000;
                Exec clusterId 2; Sleep 4000;
                Exec clusterId 3;
                Warning (str "npm install failed") ]
      /\ hasContainer clusterId s' = (Ok true, s')
      /\ containerId ∈ running (world s'))
  /\ (forall other,
         (forall n, succeeded (other n) = succeeded (execInContainer n)) ->
         createContainer (Ok containerId) other clusterId workDir image s
         = createContainer (Ok containerId) execInContainer clusterId workDir
             image s).
Proof.
  intros Manifest Fail. split.
  2: { intros other Same. by apply createContainer_ext. }
  assert (forall n, succeeded (execInContainer n) = false) as F
    by (intros n; apply fails_not_succeeded, Fail).
  destruct (cleanupContainer_frame clusterId s) as (s1 & E1 & T1 & _ & M1).
  unfold createContainer, install. run_m. rewrite E1. simpl.
  rewrite bool_decide_eq_true_2; [|by rewrite M1].
  run_m. unfold maxAttempts. rewrite !attempts_step. simpl.
  rewrite !F. simpl.
  eexists. split; [reflexivity|]. simpl. split; [|split].
  - rewrite T1. by rewrite <- !app_assoc.
  - unfold hasContainer. run_m. rewrite lookup_insert_eq.
    by rewrite bool_decide_eq_true_2.
  - set_solver.
Qed.

Lemma cleanupWorktree_unknown (clusterId : jstr) (s : Sys) :
  worktrees (manager s) !! clusterId = None ->
  cleanupWorktree clusterId s = (Ok tt, s).
Proof. intros E. unfold cleanupWorktree. run_m. by rewrite E. Qed.

Lemma cleanupWorktree_known (clusterId : jstr) (info : WorktreeInfo) (s : Sys) :
  worktrees (manager s) !! clusterId = Some info ->
  exists s', cleanupWorktree clusterId s = (Ok tt, s')
             /\ worktrees (manager s') = delete clusterId (worktrees (manager s))
             /\ directories (world s') = directories (world s) ∖ {[path info]}
             /\ ((repoRoot info, path info) ∉ registrations (world s'))
             /\ branches (world s') = branches (world s).
Proof.
  intros E. unfold cleanupWorktree, git_worktree_remove, remove_directory,
    forget_worktree.
  run_m. rewrite E. simpl. case_bool_decide; run_m.
  - eexists. split; [reflexivity|]. simpl. repeat split. set_solver.
  - eexists. split; [reflexivity|]. simpl. repeat split. done.
Qed.

Lemma cleanupWorktree_total (clusterId : jstr) (s : Sys) :
  exists s', cleanupWorktree clusterId s = (Ok tt, s')
             /\ worktrees (manager s') !! clusterId = None.
Proof.
  destruct (worktrees (manager s) !! clusterId) as [info|] eqn:E.
  - destruct (cleanupWorktree_known _ _ _ E) as (s' & R & W & _).
    exists s'. split; [done|]. rewrite W. apply lookup_delete_eq.
  - exists s. split; [by apply cleanupWorktree_unknown | done].
Qed.

(** C2. When the worktree isolation of a cluster is cleaned up, by
    [cleanupWorktree] or by a [kill] of the cluster, the directory of the
    worktree is deleted and its registration is gone, while the repositories
    have the branches they had; so the branch [zeroshot/<clusterId>] of the
    enclosing repository, present before, is present after. *)
Theorem cleanup_preserves_branch (clusterId : jstr) (info : WorktreeInfo)
    (s : Sys) :
  worktrees (manager s) !! clusterId = Some info ->
  (repoRoot info, str "zeroshot/" ++ clusterId) ∈ branches (world s) ->
  let cleaned (s' : Sys) :=
    (path info ∉ directories (world s'))
    /\ ((repoRoot info, path info) ∉ registrations (world s'))
    /\ branches (world s') = branches (world s)
    /\ ((repoRoot info, str "zeroshot/" ++ clusterId) ∈ branches (world s'))
    /\ getWorktreeInfo clusterId s' = (Ok None, s') in
  (exists s', cleanupWorktree clusterId s = (Ok tt, s') /\ cleaned s')
  /\ (forall (clusters : gmap jstr Cluster) (cluster : Cluster),
         clusters !! clusterId = Some cluster ->
         isolation cluster = Worktree info ->
         exists clusters' s',
           kill clusterId clusters s = (Ok clusters', s') /\ cleaned s'
           /\ state <$> clusters' !! clusterId = Some stopped).
Proof.
  intros Known Branch cleaned.
  assert (forall s0 s',
             worktrees (manager s0) !! clusterId = Some info ->
             branches (world s0) = branches (world s) ->
             cleanupWorktree clusterId s0 = (Ok tt, s') -> cleaned s') as Post.
  { intros s0 s' K B R.
    destruct (cleanupWorktree_known _ _ _ K) as (s2 & R2 & W & D & G & Br).
    rewrite R in R2. injection R2 as <-.
    unfold cleaned. rewrite Br, B. repeat split; [set_solver|done|done|].
    unfold getWorktreeInfo, read. by rewrite W, lookup_delete_eq. }
  split.
  - destruct (cleanupWorktree_total clusterId s) as (s' & R & _).
    exists s'. split; [done|]. by apply (Post s).
  - intros clusters cluster Registered Isolated.
    unfold kill. rewrite Registered, Isolated. unfold signal_all. run_m.
    match goal with
    | |- context [cleanupWorktree clusterId ?s0] =>
        destruct (cleanupWorktree_total clusterId s0) as (s' & R & _);
        pose proof (Post s0 s' Known eq_refl R) as C; rewrite R
    end.
    eexists _, s'. split; [reflexivity|]. split; [done|].
    by rewrite lookup_insert_eq.
Qed.

(** C3. [cleanupWorktree] never throws; two or more cleanups in a row come
    to what one cleanup comes to; and for an id without a registered
    worktree it changes nothing. *)
Theorem cleanupWorktree_idempotent (clusterId : jstr) (s : Sys) :
  (exists s', cleanupWorktree clusterId s = (Ok tt, s'))
  /\ (forall n, cleanups (S n) clusterId s = cleanupWorktree clusterId s)
  /\ (worktrees (manager s) !! clusterId = None ->
      cleanupWorktree clusterId s = (Ok tt, s)).
Proof.
  split; [|split].
  - destruct (cleanupWorktree_total clusterId s) as (s' & R & _). eauto.
  - intros n. destruct (cleanupWorktree_total clusterId s) as (s' & R & Gone).
    simpl. unfold mbind, M_bind. rewrite R.
    clear R. induction n as [|n IH]; [done|].
    simpl. unfold mbind, M_bind.
    by rewrite (cleanupWorktree_unknown _ _ Gone).
  - apply cleanupWorktree_unknown.
Qed.

End IsolationFacts.

(* --------------------------------------------------------------------- *)
(** ** Events of a type that the parser does not know *)
(* --------------------------------------------------------------------- *)

Section UnknownEvents.
Import Js OpenAI.
Context `{Host}.

Local Arguments _logUnknown : simpl never.
Local Arguments str : simpl never.

Lemma json_nested_ind (P : json -> Prop) :
  P JNull -> (forall b, P (JBool b)) -> (forall n, P (JNum n)) ->
  (forall s, P (JStr s)) ->
  (forall items, Forall P items -> P (JArr items)) ->
  (forall fields, P (JObj fields)) ->
  forall j, P j.
Proof.
  intros PNull PBool PNum PStr PArr PObj. fix IH 1.
  intros [|b|n|s|items|fields];
    [exact PNull | apply PBool | apply PNum | apply PStr | | apply PObj].
  apply PArr. revert items. fix IHitems 1.
  intros [|x items]; constructor; [apply IH | apply IHitems].
Qed.

Lemma to_string_cons (x y : json) (items : list json) :
  OutputParser.to_string (JArr (x :: y :: items))
  = bind (match x with JNull => Ok [] | _ => OutputParser.to_string x end)
      (fun head =>
    bind (OutputParser.to_string (JArr (y :: items)))
      (fun tail => Ok (head ++ str "," ++ tail))).
Proof. reflexivity. Qed.

(** The conversion to a string throws for the values without a string and
    for no others; what it throws is a [TypeError]. *)
Lemma to_string_outcome (j : json) :
  if ParserTerms.unprintable j then OutputParser.to_string j = Throw TypeError
  else exists text, OutputParser.to_string j = Ok text.
Proof.
  induction j as [|[|]|n|s|items IH|fields] using json_nested_ind;
    try (by eexists).
  - change (ParserTerms.unprintable (JArr items))
      with (existsb ParserTerms.unprintable items).
    induction IH as [|x items Hx _ IHitems]; [by eexists|].
    change (existsb ParserTerms.unprintable (x :: items))
      with (ParserTerms.unprintable x || existsb ParserTerms.unprintable items).
    assert (if ParserTerms.unprintable x
            then match x with
                 | JNull => Ok []
                 | _ => OutputParser.to_string x
                 end = Throw TypeError
            else exists text, match x with
                              | JNull => Ok []
                              | _ => OutputParser.to_string x
                              end = Ok text) as Head.
    { destruct x; try exact Hx. by eexists. }
    clear Hx. destruct items as [|y items].
    { change (OutputParser.to_string (JArr [x]))
        with (match x with JNull => Ok [] | _ => OutputParser.to_string x end).
      cbn [existsb]. by rewrite orb_false_r. }
    rewrite to_string_cons.
    destruct (ParserTerms.unprintable x); cbn [orb].
    + by rewrite Head.
    + destruct Head as [text ->]. cbn [bind].
      destruct (existsb ParserTerms.unprintable (y :: items)).
      * by rewrite IHitems.
      * destruct IHitems as [tail ->]. by eexists.
  - cbn [ParserTerms.unprintable OutputParser.to_string].
    destruct (own (str "toString") fields); [by eexists|done].
Qed.

Lemma template_outcome (type : value) :
  if ParserTerms.no_string type then template type = Throw TypeError
  else exists text, template type = Ok text.
Proof. destruct type as [|j]; [by eexists | apply to_string_outcome]. Qed.

Lemma primitive_key (type : value) (fresh : nat) :
  primitive (key_of type fresh) = negb (is_object type).
Proof. by destruct type as [|[]]. Qed.

Lemma no_string_object (type : value) :
  is_object type = false -> ParserTerms.no_string type = false.
Proof. by destruct type as [|[]]. Qed.

Lemma logUnknown_effect (type : value) (this : Provider) (p : Process) :
  let k := key_of type (objects p) in
  let out := _logUnknown type (this, p) in
  objects out.2.2 = (if is_object type then S (objects p) else objects p)
  /\ if (5 <=? count this k)%nat then
       out.1 = Ok tt
       /\ _unknownEventCounts out.2.1 = _unknownEventCounts this
       /\ console out.2.2 = console p
     else
       _unknownEventCounts out.2.1
       = <[k := S (count this k)]> (_unknownEventCounts this)
       /\ if ParserTerms.no_string type then
            out.1 = Throw TypeError /\ console out.2.2 = console p
          else
            out.1 = Ok tt /\ length (console out.2.2) = S (length (console p)).
Proof.
  unfold _logUnknown, count. pose proof (template_outcome type) as Printed.
  destruct (Nat.leb 5 (default 0%nat
              (_unknownEventCounts this !! key_of type (objects p))));
    cbn [fst snd _unknownEventCounts console objects]; [done|].
  destruct (ParserTerms.no_string type).
  - rewrite Printed. done.
  - destruct Printed as [text ->].
    cbn [fst snd _unknownEventCounts console objects].
    do 3 (split; [done|]). rewrite length_app. cbn [length]. lia.
Qed.

Lemma parseEvent_step (line : jstr) (this : Provider) (p : Process) :
  match unknown_key line p with
  | Some k =>
      exists type,
        k = key_of type (objects p)
        /\ parseEvent line (this, p)
           = (match (_logUnknown type (this, p)).1 with
              | Ok _ => Ok OutputParser.Null
              | Throw e => Throw e
              end, (_logUnknown type (this, p)).2)
  | None => (parseEvent line (this, p)).2 = (this, p)
  end.
Proof.
  unfold unknown_key, parseEvent, OutputParser.parseEvent, OutputParser.known_type.
  destruct (JSON.parse line) as [event|e]; [|done].
  destruct (get (Json event) (str "type")) as [type|e]; [|done].
  destruct (is_str type (str "thread.started")); [done|].
  destruct (is_str type (str "item.created")); [done|].
  destruct (is_str type (str "turn.completed")); [done|].
  destruct (is_str type (str "turn.failed")); [done|].
  simpl. exists type. split; [done|].
  by destruct (_logUnknown type (this, p)) as [[[]|e] st'].
Qed.

Lemma parseEvent_unknown (line : jstr) (event : json) (type : value)
    (this : Provider) (p : Process) :
  JSON.parse line = Ok event ->
  get (Json event) (str "type") = Ok type ->
  OutputParser.known_type type = false ->
  parseEvent line (this, p)
  = (match (_logUnknown type (this, p)).1 with
     | Ok _ => Ok OutputParser.Null
     | Throw e => Throw e
     end, (_logUnknown type (this, p)).2).
Proof.
  intros P T K. unfold parseEvent, OutputParser.parseEvent. rewrite P, T.
  unfold OutputParser.known_type in K.
  destruct (is_str type (str "thread.started")); [done|].
  destruct (is_str type (str "item.created")); [done|].
  destruct (is_str type (str "turn.completed")); [done|].
  destruct (is_str type (str "turn.failed")); [done|].
  by destruct (_logUnknown type (this, p)) as [[[]|e] st'].
Qed.

Lemma count_insert (this : Provider) (k k' : key) (n : nat) :
  default 0%nat (<[k := n]> (_unknownEventCounts this) !! k')
  = if bool_decide (k = k') then n else count this k'.
Proof.
  unfold count. rewrite lookup_insert. by repeat case_decide; case_bool_decide.
Qed.

(** One line: the counts stay capped; the count of a key grows by at least
    what the line adds to the console on behalf of that key, and by just
    that for a primitive key. *)
Lemma parseEvent_accounts (line : jstr) (this : Provider) (p : Process) :
  capped this ->
  let st' := (parseEvent line (this, p)).2 in
  capped st'.1
  /\ forall k,
      let emitted :=
        if bool_decide (unknown_key line p = Some k)
        then (length (console st'.2) - length (console p))%nat else 0%nat in
      (emitted + count this k <= count st'.1 k)%nat
      /\ (primitive k = true -> (emitted + count this k)%nat = count st'.1 k).
Proof.
  intros Cap. pose proof (parseEvent_step line this p) as Step.
  destruct (unknown_key line p) as [k0|].
  2: { simpl. rewrite Step. simpl. split; [done|]. intros k. split; [lia|done]. }
  destruct Step as (type & -> & ->). cbn [snd].
  pose proof (logUnknown_effect type this p) as Effect. cbv zeta in Effect.
  destruct Effect as [_ Effect].
  pose proof (primitive_key type (objects p)) as Prim.
  pose proof (no_string_object type) as Printable.
  destruct (5 <=? count this (key_of type (objects p)))%nat eqn:Full.
  - destruct Effect as (_ & Counts & Console). split.
    + intros k. unfold count. rewrite Counts. apply Cap.
    + intros k. cbv zeta. unfold count at 2 4. rewrite Counts, Console.
      fold (count this k). split; [|intros _]; case_bool_decide; lia.
  - apply Nat.leb_gt in Full. destruct Effect as [Counts Effect]. split.
    + intros k. unfold count at 1. rewrite Counts, count_insert.
      case_bool_decide; [lia | apply Cap].
    + intros k. cbv zeta. unfold count at 2 4. rewrite Counts, count_insert.
      destruct (ParserTerms.no_string type) eqn:NoString.
      * destruct Effect as [_ Console]. rewrite Console. split.
        -- case_bool_decide as E1; case_bool_decide as E2; simplify_eq; lia.
        -- intros Pk. case_bool_decide as E1; case_bool_decide as E2;
             simplify_eq; try lia.
           rewrite Pk in Prim. destruct (is_object type); [done|].
           by specialize (Printable eq_refl).
      * destruct Effect as [_ Console]. rewrite Console.
        split; [|intros _];
          case_bool_decide as E1; case_bool_decide as E2; simplify_eq; lia.
Qed.

(** One line: the count of a key grows by one when the line holds an event
    of an unknown type filed under the key, up to 5. *)
Lemma parseEvent_counts (line : jstr) (this : Provider) (p : Process) (k : key) :
  capped this ->
  count (parseEvent line (this, p)).2.1 k
  = Nat.min 5 (count this k
               + (if bool_decide (unknown_key line p = Some k) then 1 else 0)).
Proof.
  intros Cap. pose proof (Cap k) as Ck.
  pose proof (parseEvent_step line this p) as Step.
  destruct (unknown_key line p) as [k0|].
  2: { rewrite Step. cbn [fst snd].
       rewrite bool_decide_eq_false_2; [lia|done]. }
  destruct Step as (type & -> & ->). cbn [snd].
  pose proof (logUnknown_effect type this p) as Effect. cbv zeta in Effect.
  destruct Effect as [_ Effect].
  pose proof (Cap (key_of type (objects p))) as Ck0.
  destruct (5 <=? count this (key_of type (objects p)))%nat eqn:Full.
  - destruct Effect as (_ & Counts & _). unfold count at 1. rewrite Counts.
    apply Nat.leb_le in Full. fold (count this k).
    case_bool_decide; simplify_eq; lia.
  - destruct Effect as [Counts _]. unfold count at 1. rewrite Counts.
    apply Nat.leb_gt in Full. rewrite count_insert.
    case_bool_decide as E1; case_bool_decide as E2; simplify_eq; lia.
Qed.

(** One line: an object that is yet to come stays out of the counters. *)
Lemma parseEvent_unseen (line : jstr) (this : Provider) (p : Process) :
  unseen this p ->
  unseen (parseEvent line (this, p)).2.1 (parseEvent line (this, p)).2.2.
Proof.
  intros Unseen. pose proof (parseEvent_step line this p) as Step.
  destruct (unknown_key line p) as [k0|]; [|by rewrite Step].
  destruct Step as (type & -> & ->). cbn [snd].
  pose proof (logUnknown_effect type this p) as Effect. cbv zeta in Effect.
  destruct Effect as [Objects Effect]. intros n. rewrite Objects. intros Later.
  assert (objects p <= n)%nat as Later' by (destruct (is_object type); lia).
  destruct (5 <=? count this (key_of type (objects p)))%nat.
  - destruct Effect as (_ & -> & _). by apply Unseen.
  - destruct Effect as [-> _]. rewrite lookup_insert_ne; [by apply Unseen|].
    destruct type as [|[]]; try done; cbn in *; intros [= E]; lia.
Qed.

Lemma run_accounts (lines : list jstr) (st : Provider * Process) :
  capped st.1 ->
  capped (run lines st).2.1
  /\ (forall k, (emissions k lines st + count st.1 k <= count (run lines st).2.1 k)%nat)
  /\ (forall k, primitive k = true ->
                (emissions k lines st + count st.1 k)%nat
                = count (run lines st).2.1 k)
  /\ (forall k, count (run lines st).2.1 k
                = Nat.min 5 (count st.1 k + occurrences k lines st)).
Proof.
  revert st. induction lines as [|line lines IH]; intros [this p] Cap.
  { split; [done|]. split; [done|]. split; [done|]. intros k. specialize (Cap k).
    cbn [run occurrences fst snd] in *. lia. }
  destruct (parseEvent_accounts line this p Cap) as [Cap' Step].
  pose proof (fun k => parseEvent_counts line this p k Cap) as Counts.
  cbn [run emissions occurrences fst snd] in *.
  destruct (parseEvent line (this, p)) as [r st'] eqn:E.
  destruct (run lines st') as [rs st''] eqn:R. cbn [fst snd] in *.
  destruct (IH st' Cap') as (Cap'' & Rest & Exact & Occ).
  rewrite R in Cap'', Rest, Exact, Occ.
  cbn [fst snd] in *. split; [done|]. split; [|split].
  - intros k. specialize (Rest k). destruct (Step k) as [Le _]. lia.
  - intros k Pk. rewrite <- (Exact k Pk). destruct (Step k) as [_ Eq].
    rewrite <- (Eq Pk). lia.
  - intros k. rewrite Occ, Counts. lia.
Qed.

Lemma run_ignores (lines : list jstr) (st : Provider * Process) (i : nat)
    (line : jstr) (event : json) (type : value) :
  unseen st.1 st.2 ->
  lines !! i = Some line ->
  JSON.parse line = Ok event ->
  get (Json event) (str "type") = Ok type ->
  OutputParser.known_type type = false ->
  (run lines st).1 !! i
  = Some (if ParserTerms.no_string type then Throw TypeError
          else Ok OutputParser.Null).
Proof.
  revert st i. induction lines as [|l lines IH]; intros [this p] i Unseen Hi P T K;
    [done|].
  pose proof (parseEvent_unseen l this p Unseen) as Unseen'.
  cbn [run]. destruct (parseEvent l (this, p)) as [r st'] eqn:E.
  destruct (run lines st') as [rs st''] eqn:R.
  destruct i as [|i].
  - injection Hi as ->.
    rewrite (parseEvent_unknown line event type this p P T K) in E.
    injection E as <- _. cbn [fst lookup list_lookup]. f_equal.
    pose proof (logUnknown_effect type this p) as Effect. cbv zeta in Effect.
    destruct Effect as [_ Effect].
    destruct (5 <=? count this (key_of type (objects p)))%nat eqn:Full.
    + destruct Effect as (-> & _).
      destruct (ParserTerms.no_string type) eqn:NoString; [|done].
      apply Nat.leb_le in Full. unfold count in Full.
      cbn [fst snd] in Unseen.
      destruct type as [|[]]; try done; cbn [key_of] in Full;
        rewrite (Unseen (objects p)) in Full; cbn in Full; lia.
    + destruct Effect as [_ Effect].
      destruct (ParserTerms.no_string type); by destruct Effect as [-> _].
  - specialize (IH st' i). destruct st' as [this' p']. cbn [fst snd] in *.
    rewrite R in IH. by apply IH.
Qed.

(** C8. Whatever lines a new provider parses: an event of a type that the
    parser has no case for yields [null], no neutral event, unless the type
    is an object without a string, which throws; the provider counts such
    events per key of its map, up to 5; for a primitive type, the entries
    that they add to the console are as many as that count, and for no key
    are they more; and no count exceeds 5, so that the provider adds at most
    5 entries per key. *)
Theorem unknown_events_counted_and_capped (lines : list jstr) (p : Process) :
  let outcome := run lines (new, p) in
  (forall i line event type,
      lines !! i = Some line ->
      JSON.parse line = Ok event ->
      get (Json event) (str "type") = Ok type ->
      OutputParser.known_type type = false ->
      outcome.1 !! i
      = Some (if ParserTerms.no_string type then Throw TypeError
              else Ok OutputParser.Null)
      /\ (is_object type = false ->
          outcome.1 !! i = Some (Ok OutputParser.Null)))
  /\ (forall k, count outcome.2.1 k
                = Nat.min 5 (occurrences k lines (new, p)))
  /\ (forall k, primitive k = true ->
                emissions k lines (new, p) = count outcome.2.1 k)
  /\ (forall k, (emissions k lines (new, p) <= count outcome.2.1 k)%nat)
  /\ (forall k n, _unknownEventCounts outcome.2.1 !! k = Some n -> (n <= 5)%nat)
  /\ (forall k, (emissions k lines (new, p) <= 5)%nat).
Proof.
  intros outcome.
  assert (forall k, count new k = 0%nat) as Zero.
  { intros k. unfold count. simpl. by rewrite lookup_empty. }
  assert (capped new) as Cap0 by (intros k; rewrite Zero; lia).
  assert (unseen new p) as Unseen by (intros n _; apply lookup_empty).
  destruct (run_accounts lines (new, p) Cap0) as (Cap & Acc & Exact & Occ).
  fold outcome in Cap, Acc, Exact, Occ. cbn [fst] in Acc, Exact, Occ.
  split; [|split; [|split; [|split; [|split]]]].
  - intros i line event type Hi P T K.
    pose proof (run_ignores lines (new, p) i line event type Unseen Hi P T K)
      as Ignored.
    fold outcome in Ignored. split; [done|].
    intros Primitive. by rewrite Ignored, (no_string_object _ Primitive).
  - intros k. by rewrite Occ, Zero.
  - intros k Pk. rewrite <- (Exact k Pk), Zero. lia.
  - intros k. specialize (Acc k). lia.
  - intros k n E. specialize (Cap k). unfold count in Cap. by rewrite E in Cap.
  - intros k. specialize (Acc k). specialize (Cap k). lia.
Qed.

End UnknownEvents.

(** The install command keeps failing, once by throwing: three runs, two
    sleeps, a warning, and the container is returned. *)
Lemma createContainer_install_exhausted_flaky :
  Js.str "/work" ∈ Isolation.manifests (Isolation.world project_sys)
  /\ (forall n, Isolation.fails (flaky_channel n))
  /\ (Isolation.createContainer (Js.Ok (Js.str "0a1b")) flaky_channel
        (Js.str "c1") (Js.str "/work") (Js.str "alpine:latest") project_sys).1
     = Js.Ok (Js.str "0a1b").
Proof.
  assert (Js.str "/work" ∈ Isolation.manifests (Isolation.world project_sys))
    as Manifest by (simpl; apply elem_of_singleton_2; reflexivity).
  assert (forall n, Isolation.fails (flaky_channel n)) as Fail.
  { intros n. unfold flaky_channel. destruct (n =? 2)%nat; simpl; done. }
  split; [exact Manifest|]. split; [exact Fail|].
  destruct (createContainer_install_exhausted (Js.str "0a1b") flaky_channel
              (Js.str "c1") (Js.str "/work") (Js.str "alpine:latest")
              project_sys Manifest Fail) as [(s' & Run & _) _].
  rewrite Run. reflexivity.
Defined.

(** The cluster [c1]: after the cleanup, and after a kill, the branch is
    still there. *)
Lemma cleanup_preserves_branch_c1 :
  Isolation.worktrees (Isolation.manager c1_sys) !! Js.str "c1" = Some c1_info
  /\ ((Js.str "/repo", Js.str "zeroshot/c1")
        ∈ Isolation.branches (Isolation.world c1_sys))
  /\ ((Js.str "/repo", Js.str "zeroshot/c1")
        ∈ Isolation.branches
            (Isolation.world (Isolation.cleanupWorktree (Js.str "c1") c1_sys).2))
  /\ ((Js.str "/repo", Js.str "zeroshot/c1")
        ∈ Isolation.branches
            (Isolation.world (Isolation.kill (Js.str "c1") c1_clusters c1_sys).2)).
Proof.
  assert (Isolation.worktrees (Isolation.manager c1_sys) !! Js.str "c1"
          = Some c1_info) as Known by apply lookup_singleton_eq.
  assert ((Isolation.repoRoot c1_info, Js.str "zeroshot/" ++ Js.str "c1")
            ∈ Isolation.branches (Isolation.world c1_sys)) as Branch
    by (simpl; apply elem_of_singleton_2; reflexivity).
  split; [exact Known|]. split; [exact Branch|].
  destruct (cleanup_preserves_branch (Js.str "c1") c1_info c1_sys Known Branch)
    as [(s' & Run & _ & _ & _ & Kept & _) Killed].
  split; [rewrite Run; exact Kept|].
  destruct (Killed c1_clusters _ (lookup_singleton_eq _ _) eq_refl)
    as (clusters' & s'' & Run' & (_ & _ & _ & Kept' & _) & _).
  rewrite Run'. exact Kept'.
Defined.

(* --------------------------------------------------------------------- *)
(** ** The direct-API fast path: how the answer is parsed *)
(* --------------------------------------------------------------------- *)

Section ExtractJson.
Import Js DirectApi.

Local Arguments str : simpl never.

Lemma starts_with_spec (p s : jstr) :
  starts_with p s = true -> s = p ++ drop (length p) s.
Proof.
  revert s. induction p as [|a p IH]; intros s; [done|].
  destruct s as [|b s]; simpl; [done|].
  intros E. apply andb_true_iff in E as [E1 E2].
  apply N.eqb_eq in E1 as ->. f_equal. by apply IH.
Qed.

Lemma find_sub_spec (p s before after : jstr) :
  find_sub p s = Some (before, after) -> s = before ++ p ++ after.
Proof.
  revert before. induction s as [|c s IH]; intros before; simpl.
  - destruct (starts_with p []) eqn:E; [|done].
    intros [= <- <-]. by apply starts_with_spec in E.
  - destruct (starts_with p (c :: s)) eqn:E.
    + intros [= <- <-]. by apply starts_with_spec in E.
    + destruct (find_sub p s) as [[b a]|]; [|done].
      intros [= <- <-]. simpl. f_equal. by apply IH.
Qed.

(** What precedes the first occurrence of a character does not hold it. *)
Lemma find_sub_first (c : cu) (s before after : jstr) :
  find_sub [c] s = Some (before, after) -> c ∉ before.
Proof.
  revert before. induction s as [|x s IH]; intros before; simpl; [done|].
  destruct (c =? x)%N eqn:E; simpl.
  - intros [= <- <-]. apply not_elem_of_nil.
  - destruct (find_sub [c] s) as [[b a]|]; [|done].
    intros [= <- <-]. apply not_elem_of_cons. split; [|by apply IH].
    intros ->. by rewrite N.eqb_refl in E.
Qed.

Lemma upto_last_spec (c : cu) (s body : jstr) :
  upto_last c s = Some body ->
  exists init rest, body = init ++ [c] /\ s = body ++ rest /\ c ∉ rest.
Proof.
  revert body. induction s as [|x s IH]; intros body; simpl; [done|].
  destruct (upto_last c s) as [t|] eqn:E.
  - intros [= <-]. destruct (IH t eq_refl) as (init & rest & -> & -> & Hc).
    exists (x :: init), rest. done.
  - destruct (x =? c)%N eqn:Ex; [|done].
    intros [= <-]. apply N.eqb_eq in Ex as ->.
    exists [], s. repeat split.
    clear IH. induction s as [|y s IH]; [apply not_elem_of_nil|].
    simpl in E. destruct (upto_last c s); [done|].
    destruct (y =? c)%N eqn:Ey; [done|].
    apply not_elem_of_cons. split; [|by apply IH].
    intros ->. by rewrite N.eqb_refl in Ey.
Qed.

Lemma drop_spaces_spec (s : jstr) :
  exists spaces, s = spaces ++ drop_spaces s /\ forallb is_space spaces = true.
Proof.
  induction s as [|c s (spaces & E & F)]; [by exists []|].
  simpl. destruct (is_space c) eqn:Ec.
  - exists (c :: spaces). simpl. rewrite Ec, F. split; [by f_equal|done].
  - by exists [].
Qed.

Lemma starts_with_prefix (p s : jstr) :
  starts_with p s = true <-> exists rest, s = p ++ rest.
Proof.
  split.
  - intros E. exists (drop (length p) s). by apply starts_with_spec.
  - intros [rest ->]. induction p as [|a p IH]; [done|].
    simpl. by rewrite N.eqb_refl.
Qed.

Lemma find_sub_here (p s : jstr) :
  starts_with p s = true -> find_sub p s = Some ([], drop (length p) s).
Proof. intros E. destruct s; simpl; by rewrite E. Qed.

Lemma find_sub_next (p : jstr) (x : cu) (s : jstr) :
  starts_with p (x :: s) = false ->
  find_sub p (x :: s)
  = match find_sub p s with
    | Some (before, after) => Some (x :: before, after)
    | None => None
    end.
Proof. intros E. cbn [find_sub]. by rewrite E. Qed.

Lemma starts_with_other (c x : cu) (p s : jstr) :
  c <> x -> starts_with (c :: p) (x :: s) = false.
Proof. intros Ne. simpl. by apply N.eqb_neq in Ne as ->. Qed.

Lemma find_sub_fresh (c : cu) (p before after : jstr) :
  c ∉ before ->
  find_sub (c :: p) (before ++ (c :: p) ++ after) = Some (before, after).
Proof.
  intros Fresh. induction before as [|x before IH].
  - rewrite app_nil_l, find_sub_here.
    + by rewrite drop_app_length.
    + apply starts_with_prefix. by exists after.
  - apply not_elem_of_cons in Fresh as [Ne Fresh].
    rewrite <- app_comm_cons, find_sub_next by by apply starts_with_other.
    by rewrite (IH Fresh).
Qed.

Lemma find_sub_absent (c : cu) (p s : jstr) :
  c ∉ s -> find_sub (c :: p) s = None.
Proof.
  induction s as [|x s IH]; [done|].
  intros Fresh. apply not_elem_of_cons in Fresh as [Ne Fresh].
  rewrite find_sub_next by by apply starts_with_other.
  by rewrite (IH Fresh).
Qed.

Lemma drop_spaces_app (spaces rest : jstr) :
  forallb is_space spaces = true ->
  drop_spaces (spaces ++ rest) = drop_spaces rest.
Proof.
  induction spaces as [|c spaces IH]; [done|].
  simpl. intros E. apply andb_true_iff in E as [-> E]. by apply IH.
Qed.

Lemma upto_last_absent (c : cu) (s : jstr) : c ∉ s -> upto_last c s = None.
Proof.
  induction s as [|x s IH]; [done|].
  intros Fresh. apply not_elem_of_cons in Fresh as [Ne Fresh].
  simpl. rewrite (IH Fresh).
  assert ((x =? c)%N = false) as -> by (apply N.eqb_neq; congruence). done.
Qed.

Lemma upto_last_found (c : cu) (body after : jstr) :
  c ∉ after -> upto_last c (body ++ c :: after) = Some (body ++ [c]).
Proof.
  intros Fresh. induction body as [|x body IH].
  - simpl. rewrite (upto_last_absent _ _ Fresh). by rewrite N.eqb_refl.
  - cbn [app]. simpl. by rewrite IH.
Qed.

Lemma find_sub_found (p before after : jstr) :
  exists before' after',
    find_sub p (before ++ p ++ after) = Some (before', after').
Proof.
  induction before as [|c before IH].
  - rewrite app_nil_l, find_sub_here; [by eexists _, _|].
    apply starts_with_prefix. by exists after.
  - cbn [app]. destruct (starts_with p (c :: before ++ p ++ after)) eqn:Here.
    + rewrite find_sub_here by done. by eexists _, _.
    + rewrite find_sub_next by done. destruct IH as (b & a & ->).
      by eexists _, _.
Qed.

Lemma find_sub_minimal (p s before after : jstr) :
  find_sub p s = Some (before, after) ->
  forall before' after',
    s = before' ++ p ++ after' -> (length before <= length before')%nat.
Proof.
  revert before. induction s as [|c s IH]; intros before Found before' after' E.
  - cbn [find_sub] in Found. destruct (starts_with p []); [|done].
    injection Found as <- _. simpl. lia.
  - destruct (starts_with p (c :: s)) eqn:Here.
    + rewrite find_sub_here in Found by done. injection Found as <- _.
      simpl. lia.
    + rewrite find_sub_next in Found by done.
      destruct (find_sub p s) as [[b a]|] eqn:Later; [|done].
      injection Found as <- <-.
      destruct before' as [|c' before'].
      * exfalso. rewrite app_nil_l in E.
        assert (starts_with p (c :: s) = true) as Again
          by (apply starts_with_prefix; by exists after').
        congruence.
      * cbn [app] in E. injection E as -> E. simpl.
        specialize (IH b eq_refl before' after' E). lia.
Qed.

(** [find_sub] finds the first occurrence, and finds one whenever there is
    one. *)
Lemma find_sub_first_at (p s before after : jstr) :
  find_sub p s = Some (before, after) <-> first_at p s before after.
Proof.
  split.
  - intros Found. split; [by apply find_sub_spec|].
    by apply (find_sub_minimal p s before after).
  - intros [E Least].
    destruct (find_sub_found p before after) as (b & a & Found).
    rewrite <- E in Found.
    pose proof (find_sub_spec _ _ _ _ Found) as E'.
    pose proof (find_sub_minimal _ _ _ _ Found _ _ E) as Le.
    pose proof (Least _ _ E') as Ge.
    assert (b = before) as ->.
    { rewrite E in E'. apply (f_equal (take (length before))) in E'.
      rewrite take_app_length in E'.
      replace (length before) with (length b) in E' by lia.
      by rewrite take_app_length in E'. }
    rewrite E in E'. do 2 apply app_inv_head in E'. by rewrite Found, E'.
Qed.

Lemma drop_spaces_head (s : jstr) (c : cu) :
  head (drop_spaces s) = Some c -> is_space c = false.
Proof.
  induction s as [|x s IH]; [done|]. simpl.
  destruct (is_space x) eqn:Space; [exact IH|]. by intros [= <-].
Qed.

Lemma drop_spaces_fixed (s : jstr) :
  (forall c, head s = Some c -> is_space c = false) -> drop_spaces s = s.
Proof.
  destruct s as [|x s]; [done|]. intros Head. simpl.
  by rewrite (Head x eq_refl).
Qed.

Lemma match_fence_spec (rawResult inner : jstr) :
  match_fence rawResult = Some inner ->
  exists before spaces after,
    rawResult = before ++ str "```json" ++ spaces ++ inner ++ str "```" ++ after
    /\ forallb is_space spaces = true.
Proof.
  unfold match_fence.
  destruct (find_sub (str "```json") rawResult) as [[before rest]|] eqn:Open;
    [|done].
  destruct (find_sub (str "```") (drop_spaces rest)) as [[body after]|] eqn:Close;
    [|done].
  intros [= <-].
  apply find_sub_spec in Open, Close.
  destruct (drop_spaces_spec rest) as (spaces & Rest & Spaces).
  exists before, spaces, after. split; [|done].
  by rewrite Open, Rest, Close.
Qed.

Lemma match_object_spec (rawResult object : jstr) :
  match_object rawResult = Some object ->
  exists before body after,
    rawResult = before ++ object ++ after
    /\ object = str "{" ++ body ++ str "}"
    /\ (123%N ∉ before) /\ (125%N ∉ after).
Proof.
  unfold match_object.
  destruct (find_sub (str "{") rawResult) as [[before rest]|] eqn:Open; [|done].
  destruct (upto_last 125%N rest) as [body|] eqn:Close; [|done].
  intros [= <-].
  pose proof (find_sub_first _ _ _ _ Open) as First.
  apply find_sub_spec in Open.
  apply upto_last_spec in Close as (init & after & -> & -> & Last).
  exists before, init, after. repeat split; [|done..].
  rewrite Open. change (str "{") with [123%N]. simpl.
  by rewrite <- !app_assoc.
Qed.

Lemma match_fence_fenced (rawResult inner : jstr) :
  match_fence rawResult = Some inner <-> fenced rawResult inner.
Proof.
  unfold match_fence, fenced. split.
  - destruct (find_sub (str "```json") rawResult) as [[before rest]|] eqn:Open;
      [|done].
    destruct (find_sub (str "```") (drop_spaces rest)) as [[body after]|]
      eqn:Close; [|done].
    intros [= <-].
    destruct (drop_spaces_spec rest) as (spaces & Rest & Spaces).
    exists before, spaces, (drop_spaces rest), after.
    split; [|split; [done|split]].
    + rewrite <- Rest. by apply find_sub_first_at.
    + apply drop_spaces_head.
    + by apply find_sub_first_at.
  - intros (before & spaces & rest & after & Open & Spaces & Head & Close).
    apply find_sub_first_at in Open, Close. rewrite Open.
    rewrite drop_spaces_app by done. rewrite (drop_spaces_fixed _ Head).
    by rewrite Close.
Qed.

Lemma match_object_spanned (rawResult object : jstr) :
  match_object rawResult = Some object <-> spanned rawResult object.
Proof.
  split; [apply match_object_spec|].
  intros (before & body & after & -> & -> & First & Last).
  unfold match_object.
  change (str "{") with (123%N :: []). change (str "}") with [125%N].
  rewrite <- !app_assoc. rewrite find_sub_fresh by done. cbn [app].
  by rewrite upto_last_found.
Qed.

Context `{Host} `{Ajv}.

(** C6, amended. The text is parsed as a whole; if that fails and the text
    has a fence, what stands between the first opening fence with its white
    space and the next three backquotes is trimmed and parsed, and that is
    the outcome, also when it is a failure; if there is no fence, the span
    from the first opening brace to the last closing brace is parsed; if
    there is no such span either, the error says that no JSON could be
    parsed. The two searches of the code find exactly these texts. With a
    schema configured, the call succeeds only with a value that was parsed
    in this way and that the validator accepts, and its result is a failure
    otherwise: the text is never returned unparsed. *)
Theorem extract_json_chain (rawResult : jstr) :
  (forall inner, match_fence rawResult = Some inner <-> fenced rawResult inner)
  /\ (forall object,
        match_object rawResult = Some object <-> spanned rawResult object)
  /\ match JSON.parse rawResult with
     | Ok whole => extract_json rawResult = Ok whole
     | Throw _ =>
         (forall inner,
             fenced rawResult inner ->
             extract_json rawResult = JSON.parse (trim inner))
         /\ ((forall inner, ~ fenced rawResult inner) ->
             (forall object,
                 spanned rawResult object ->
                 extract_json rawResult = JSON.parse object)
             /\ ((forall object, ~ spanned rawResult object) ->
                 extract_json rawResult
                 = Throw (Error (str "Could not parse JSON from response: "
                                 ++ take 200 rawResult))))
     end
  /\ forall jsonSchema response,
      truthy jsonSchema = true ->
      raw_result response = rawResult ->
      match callDirectApi jsonSchema (Resolved response) with
      | Success result raw _ _ =>
          raw = rawResult
          /\ extract_json rawResult = Ok result
          /\ exists validate,
               compile jsonSchema = Ok validate /\ validate result = None
      | Failure e =>
          extract_json rawResult = Throw e
          \/ exists result,
               extract_json rawResult = Ok result
               /\ validate_schema jsonSchema result = Throw e
      end.
Proof.
  split; [apply match_fence_fenced|]. split; [apply match_object_spanned|].
  split.
  - unfold extract_json, catch.
    destruct (JSON.parse rawResult) as [whole|e]; [done|]. split.
    { intros inner Fence. apply match_fence_fenced in Fence. by rewrite Fence. }
    intros Plain.
    assert (match_fence rawResult = None) as ->.
    { destruct (match_fence rawResult) as [inner|] eqn:Fence; [|done].
      apply match_fence_fenced in Fence. by destruct (Plain inner). }
    split.
    { intros object Span. apply match_object_spanned in Span. by rewrite Span. }
    intros Bare.
    destruct (match_object rawResult) as [object|] eqn:Span; [|done].
    apply match_object_spanned in Span. by destruct (Bare object).
  - intros jsonSchema response Schema <-.
    unfold callDirectApi, parse_result. rewrite Schema.
    destruct (extract_json (raw_result response)) as [result|e] eqn:E;
      cbn [bind]; [|by left].
    unfold validate_schema at 1, bind.
    destruct (compile jsonSchema) as [validate|e] eqn:C.
    + destruct (validate result) as [errors|] eqn:V.
      * right. exists result. split; [done|].
        unfold validate_schema, bind. by rewrite C, V.
      * split; [done|]. split; [done|]. eauto.
    + right. exists result. split; [done|].
      unfold validate_schema, bind. by rewrite C.
Qed.

End ExtractJson.

(** C6 as it is worded does not hold: the contents of the fence do not
    parse, the text has a balanced object after the fence that does, and the
    call fails all the same; and of two objects in a text without a fence it
    is not the first that is parsed but the span from the first brace to the
    last, which is not JSON. *)
Lemma extract_json_without_further_fallback :
  let fenced := Js.dq "```json x``` {'a':1}" in
  let two := Js.dq "x {'a':1} y {'b':2}" in
  let a1 := Js.JObj [(Js.str "a", Js.JNum (Js.str "1"))] in
  DirectApi.spec_extract_json fenced = Some a1
  /\ DirectApi.extract_json fenced = Js.Throw Js.SyntaxError
  /\ @DirectApi.callDirectApi example_host example_ajv (Js.Json (Js.JObj []))
       (text_response fenced)
     = DirectApi.Failure Js.SyntaxError
  /\ DirectApi.first_balanced_object two = Some (Js.dq "{'a':1}")
  /\ DirectApi.spec_extract_json two = Some a1
  /\ DirectApi.match_object two = Some (Js.dq "{'a':1} y {'b':2}")
  /\ DirectApi.extract_json two = Js.Throw Js.SyntaxError.
Proof. by vm_compute. Qed.

(* --------------------------------------------------------------------- *)
(** ** Flags and capabilities *)
(* --------------------------------------------------------------------- *)

Section Flags.
Import Js Cli.
Context `{Host}.

Local Arguments str : simpl never.

Lemma elem_of_push_if (x : jstr) (cond : bool) (items args : list jstr) :
  x ∈ push_if cond items args <-> x ∈ args \/ (cond = true /\ x ∈ items).
Proof.
  unfold push_if. destruct cond.
  - rewrite elem_of_app. naive_solver.
  - naive_solver.
Qed.

Lemma is_false_true (features : gmap string bool) (k : string) :
  is_false features k = true <-> features !! k = Some false.
Proof. unfold is_false. apply bool_decide_eq_true. Qed.

Lemma enabled_true (features : gmap string bool) (k : string) :
  enabled features k = true <-> features !! k = Some true.
Proof. unfold enabled. apply bool_decide_eq_true. Qed.

Lemma not_off (features : gmap string bool) (k : string) :
  negb (is_false features k) = true <-> features !! k <> Some false.
Proof.
  rewrite negb_true_iff, <- not_true_iff_false. by rewrite is_false_true.
Qed.

(** Two flags written out are told apart by computing. *)
Ltac flags_differ :=
  match goal with
  | E : str ?a = str ?b |- _ => by vm_compute in E
  | E : str ?a = [] |- _ => by vm_compute in E
  end.

(** Turns a statement on the arguments of a command into one on the
    conditions of the builder. *)
Ltac open_args :=
  rewrite ?elem_of_app, ?elem_of_push_if, ?elem_of_app, ?elem_of_cons,
    ?elem_of_nil, ?andb_true_iff, ?not_off, ?enabled_true.

Lemma anthropic_gate (g : Gate) (context : jstr) (options : Options)
    (commandConfig : AnthropicCli.CommandConfig) :
  In g AnthropicCli.gates ->
  flag g ∉ AnthropicCli.free_text context options commandConfig ->
  flag g ∈ args (AnthropicCli.buildCommand context options commandConfig)
  <-> requested g options = true
      /\ default ∅ (cliFeatures options) !! capability g <> Some false.
Proof.
  intros Hg Free. unfold AnthropicCli.free_text in Free.
  rewrite !not_elem_of_app, !not_elem_of_cons in Free.
  destruct Free as (F0 & F1 & F2 & F3 & F4 & _).
  unfold AnthropicCli.buildCommand. cbn [args].
  simpl in Hg.
  repeat (destruct Hg as [<-|Hg]; [cbn [flag requested capability] in *|]);
    [..|done]; open_args; (split; [|naive_solver]);
    intros Hin; destruct_or!; destruct_and?; try done;
    try flags_differ; try naive_solver.
Qed.

Lemma google_gate (g : Gate) (context : jstr) (options : Options) :
  In g GoogleCli.gates ->
  flag g ∉ GoogleCli.free_text context options ->
  flag g ∈ args (GoogleCli.buildCommand context options)
  <-> requested g options = true
      /\ default ∅ (cliFeatures options) !! capability g = Some true.
Proof.
  intros Hg Free. unfold GoogleCli.free_text in Free.
  rewrite !not_elem_of_cons in Free.
  destruct Free as (F0 & F1 & F2 & _).
  unfold GoogleCli.buildCommand. cbn [args].
  simpl in Hg.
  repeat (destruct Hg as [<-|Hg]; [cbn [flag requested capability] in *|]);
    [..|done]; open_args; (split; [|naive_solver]);
    intros Hin; destruct_or!; destruct_and?; try done;
    try flags_differ; try naive_solver.
Qed.

Lemma openai_cli_gate (g : Gate) (context : jstr) (options : Options) :
  In g OpenAICli.gates ->
  flag g ∉ OpenAICli.free_text context options ->
  flag g ∈ args (OpenAICli.buildCommand context options)
  <-> requested g options = true
      /\ default ∅ (cliFeatures options) !! capability g = Some true.
Proof.
  intros Hg Free. unfold OpenAICli.free_text in Free.
  rewrite !not_elem_of_cons in Free.
  destruct Free as (F0 & F1 & F2 & F3 & F4 & _).
  unfold OpenAICli.buildCommand. cbn [args].
  simpl in Hg.
  repeat (destruct Hg as [<-|Hg]; [cbn [flag requested capability] in *|]);
    [..|done]; open_args; (split; [|naive_solver]);
    intros Hin; destruct_or!; destruct_and?; try done;
    try flags_differ; try naive_solver.
Qed.

(** The method of the provider builds what the builder builds from the same
    options, with an absent capability set made the empty one. *)
Lemma openai_gate (g : Gate) (context : jstr) (options : Options)
    (p : OpenAI.Process) :
  In g OpenAICli.gates ->
  flag g ∉ OpenAICli.free_text context options ->
  flag g ∈ args (OpenAI.buildCommand context options p).1
  <-> requested g options = true
      /\ default ∅ (cliFeatures options) !! capability g = Some true.
Proof.
  intros Hg Free. unfold OpenAI.buildCommand. cbn [fst].
  rewrite openai_cli_gate; [|done|done]. cbn [cliFeatures default].
  assert (forall o o', modelSpec o = modelSpec o' ->
                       outputFormat o = outputFormat o' ->
                       jsonSchema o = jsonSchema o' -> cwd o = cwd o' ->
                       autoApprove o = autoApprove o' ->
                       requested g o = requested g o') as Same.
  { intros o o' E1 E2 E3 E4 E5. simpl in Hg.
    repeat (destruct Hg as [<-|Hg]; [cbn [requested]|]); [..|done];
      unfold is_format, spec_effort; by rewrite ?E1, ?E2, ?E3, ?E4, ?E5. }
  by rewrite (Same _ options).
Qed.

(** *** Warnings *)

Import OpenAI.

Lemma warned_step (cond : bool) (key message : jstr) (p : Process) (k : jstr) :
  bool_decide (k ∈ warned (when cond (_warnOnce key message) p))
  = bool_decide (k ∈ warned p) || (cond && bool_decide (k = key)).
Proof.
  unfold when, _warnOnce. destruct cond; simpl; [|by rewrite orb_false_r].
  destruct (bool_decide (key ∈ warned p)) eqn:Known; simpl.
  - apply bool_decide_eq_true in Known.
    repeat case_bool_decide; simpl; try done; set_solver.
  - repeat case_bool_decide; simpl; try done; set_solver.
Qed.

Lemma printed_step (n : Notice) (cond : bool) (key message : jstr)
    (p : Process) :
  printed n (when cond (_warnOnce key message) p)
  = (printed n p
     + (if cond && negb (bool_decide (key ∈ warned p))
           && bool_decide (message = notice_text n)
        then 1 else 0))%nat.
Proof.
  unfold when, _warnOnce, printed. destruct cond; simpl; [|lia].
  destruct (bool_decide (key ∈ warned p)); simpl; [lia|].
  rewrite List.filter_app, length_app. simpl.
  repeat case_bool_decide; simplify_list_eq; simpl; try done; lia.
Qed.

Lemma console_step (cond : bool) (key message : jstr) (p : Process)
    (e : LogEntry) :
  e ∈ console (when cond (_warnOnce key message) p) ->
  e ∈ console p \/ e = Warn (sign ++ message).
Proof.
  unfold when, _warnOnce. destruct cond; [|by left].
  case_bool_decide; [by left|]. simpl.
  rewrite elem_of_app, list_elem_of_singleton. tauto.
Qed.

(** Decides the equality of two texts that are written out. *)
Ltac compare_texts :=
  repeat match goal with
    | |- context [bool_decide (str ?a = str ?b)] =>
        let v := eval vm_compute in (bool_decide (str a = str b)) in
        change (bool_decide (str a = str b)) with v
    end.

Lemma buildCommand_notice (n : Notice) (context : jstr) (options : Options)
    (p : Process) :
  In n notices ->
  let p' := (OpenAI.buildCommand context options p).2 in
  bool_decide (notice_key n ∈ warned p')
  = bool_decide (notice_key n ∈ warned p) || raises n options
  /\ printed n p'
     = (printed n p
        + (if raises n options && negb (bool_decide (notice_key n ∈ warned p))
           then 1 else 0))%nat.
Proof.
  intros Hn. unfold OpenAI.buildCommand, raises. cbn [snd]. simpl in Hn.
  repeat (destruct Hn as [<-|Hn];
          [cbn [notice_key notice_capability notice_requested notice_text]|]);
    [..|done];
    rewrite !printed_step, !warned_step; compare_texts;
    destruct (bool_decide (_ ∈ warned p));
    repeat match goal with |- context [?a && ?b] => destruct a; simpl end;
    repeat match goal with |- context [is_false ?f ?k] =>
             destruct (is_false f k); simpl end;
    split; (done || lia).
Qed.

Lemma buildCommand_console (context : jstr) (options : Options) (p : Process)
    (e : LogEntry) :
  e ∈ console (OpenAI.buildCommand context options p).2 ->
  e ∈ console p \/ exists n, In n notices /\ e = Warn (sign ++ notice_text n).
Proof.
  unfold OpenAI.buildCommand. cbn [snd]. intros Hin.
  apply console_step in Hin as [Hin| ->].
  2: { right. eexists. split; [simpl; do 2 right; left; reflexivity|done]. }
  apply console_step in Hin as [Hin| ->].
  2: { right. eexists. split; [simpl; right; left; reflexivity|done]. }
  apply console_step in Hin as [Hin| ->].
  2: { right. eexists. split; [simpl; left; reflexivity|done]. }
  by left.
Qed.

Lemma builds_notice (n : Notice) (requests : list (jstr * Options))
    (p : Process) :
  In n notices ->
  let raised := existsb (fun r => raises n r.2) requests in
  bool_decide (notice_key n ∈ warned (builds requests p))
  = bool_decide (notice_key n ∈ warned p) || raised
  /\ printed n (builds requests p)
     = (printed n p
        + (if raised && negb (bool_decide (notice_key n ∈ warned p))
           then 1 else 0))%nat.
Proof.
  intros Hn. revert p.
  induction requests as [|[context options] requests IH]; intros p;
    cbn [builds existsb snd].
  { rewrite orb_false_r. split; [done|]. cbn [andb]. lia. }
  destruct (IH (OpenAI.buildCommand context options p).2) as [W P].
  destruct (buildCommand_notice n context options p Hn) as [W1 P1].
  cbv zeta in *. rewrite W, P, W1, P1.
  destruct (bool_decide (notice_key n ∈ warned p)), (raises n options),
    (existsb _ requests); simpl; split; (done || lia).
Qed.

Lemma builds_console (requests : list (jstr * Options)) (p : Process)
    (e : LogEntry) :
  e ∈ console (builds requests p) ->
  e ∈ console p \/ exists n, In n notices /\ e = Warn (sign ++ notice_text n).
Proof.
  revert p. induction requests as [|[context options] requests IH];
    intros p; cbn [builds]; [by left|].
  intros Hin. apply IH in Hin as [Hin|Hin]; [|by right].
  by apply buildCommand_console in Hin.
Qed.

(** C5, amended. Of the flags that a build asks for: the Anthropic builder
    leaves one out exactly when its capability is explicitly [false], so an
    absent capability does not suppress it; the OpenAI and the Google
    builder put one in exactly when its capability is [true], so an absent
    capability suppresses it as [false] does. The OpenAI provider warns
    under its three keys only: a warning is on the console once if one of
    the builds of the process asked for the feature while the capability was
    explicitly [false], and not at all otherwise; nothing else is printed.
    (A flag is told from the caller's own texts among the arguments.) *)
Theorem flags_follow_capabilities :
  (forall g context options commandConfig,
      In g AnthropicCli.gates ->
      flag g ∉ AnthropicCli.free_text context options commandConfig ->
      flag g ∈ args (AnthropicCli.buildCommand context options commandConfig)
      <-> requested g options = true
          /\ default ∅ (cliFeatures options) !! capability g <> Some false)
  /\ (forall g context options p,
         In g OpenAICli.gates ->
         flag g ∉ OpenAICli.free_text context options ->
         flag g ∈ args (OpenAI.buildCommand context options p).1
         <-> requested g options = true
             /\ default ∅ (cliFeatures options) !! capability g = Some true)
  /\ (forall g context options,
         In g GoogleCli.gates ->
         flag g ∉ GoogleCli.free_text context options ->
         flag g ∈ args (GoogleCli.buildCommand context options)
         <-> requested g options = true
             /\ default ∅ (cliFeatures options) !! capability g = Some true)
  /\ (forall n requests,
         In n notices ->
         printed n (builds requests start)
         = if existsb (fun r => raises n r.2) requests then 1%nat else 0%nat)
  /\ (forall requests e,
         e ∈ console (builds requests start) ->
         exists n, In n notices /\ e = Warn (sign ++ notice_text n)).
Proof.
  split; [|split; [|split; [|split]]].
  - intros. by apply anthropic_gate.
  - intros. by apply openai_gate.
  - intros. by apply google_gate.
  - intros n requests Hn.
    destruct (builds_notice n requests start Hn) as [_ P]. cbv zeta in P.
    rewrite P. unfold printed. simpl.
    by destruct (existsb _ requests).
  - intros requests e Hin. apply builds_console in Hin as [Hin|Hin]; [|done].
    simpl in Hin. by apply elem_of_nil in Hin.
Qed.

End Flags.

(** C5 as it is worded does not hold. With [supportsJson] explicitly
    [false] the OpenAI provider leaves [--json] out and prints no warning;
    with [supportsModel] explicitly [false] it passes [-m] all the same; and
    the Google builder leaves [--yolo] out when the capability is absent,
    not [false]. *)
Lemma flags_not_as_claimed :
  let asks (format : option Js.jstr) (model : option Js.jstr) (approve : bool)
           (features : gmap string bool) : Cli.Options :=
    {| Cli.modelSpec :=
         Some {| BaseProvider.level := Js.str "level2";
                 BaseProvider.model := model;
                 BaseProvider.reasoningEffort := None |};
       Cli.outputFormat := format; Cli.jsonSchema := Js.Undefined;
       Cli.cwd := None; Cli.autoApprove := approve;
       Cli.cliFeatures := Some features |} in
  @OpenAI.buildCommand example_host (Js.str "prompt")
     (asks (Some (Js.str "json")) None false {[ "supportsJson"%string := false ]})
     OpenAI.start
  = ({| Cli.binary := Js.str "codex";
        Cli.args := [Js.str "exec"; Js.str "prompt"] |}, OpenAI.start)
  /\ @OpenAI.buildCommand example_host (Js.str "prompt")
       (asks None (Some (Js.str "openai-model-main")) false
             {[ "supportsModel"%string := false ]})
       OpenAI.start
     = ({| Cli.binary := Js.str "codex";
           Cli.args := [Js.str "exec"; Js.str "-m"; Js.str "openai-model-main";
                        Js.str "prompt"] |}, OpenAI.start)
  /\ GoogleCli.buildCommand (Js.str "prompt") (asks None None true ∅)
     = {| Cli.binary := Js.str "gemini";
          Cli.args := [Js.str "-p"; Js.str "prompt"] |}.
Proof. by vm_compute. Qed.

(* --------------------------------------------------------------------- *)
(** ** The functions at work *)
(* --------------------------------------------------------------------- *)

Section Runs.
Import Js.

Example parse_event_line :
  JSON.parse (dq "{ 'type': 'turn.completed', 'usage': {'input_tokens': 12} }")
  = Ok (JObj [ (str "type", JStr (str "turn.completed"));
               (str "usage", JObj [(str "input_tokens", JNum (str "12"))]) ]).
Proof. reflexivity. Qed.

Example parse_rejects :
  JSON.parse (dq "{'a':1,}") = Throw SyntaxError
  /\ JSON.parse (dq "01") = Throw SyntaxError
  /\ JSON.parse (dq "'a' 'b'") = Throw SyntaxError
  /\ JSON.parse (dq "[1 2]") = Throw SyntaxError.
Proof. by vm_compute. Qed.

Example parseEvent_turn_completed :
  @OutputParser.parseEvent example_host unit
    (dq "{'type':'turn.completed','usage':{'input_tokens':12}}") None tt
  = (Ok (OutputParser.One
           (OutputParser.ResultOk (Json (JNum (str "12")))
                                  (Json (JNum (str "0"))))), tt).
Proof. reflexivity. Qed.

Example parseEvent_assistant_message :
  @OutputParser.parseEvent example_host unit
    (dq "{'type':'item.created','item':{'type':'message','role':'assistant','content':[{'type':'text','text':'Hel'},{'type':'reasoning','text':'hm'},{'type':'text','text':'lo'}]}}")
    None tt
  = (Ok (OutputParser.Many [ OutputParser.Text (str "Hello");
                             OutputParser.Thinking (str "hm") ]), tt).
Proof. reflexivity. Qed.

(** A content, or a text, that is an object with a [toString] of its own
    has no string to join; an element of another type is not read. *)
Example parseEvent_content_without_string :
  @OutputParser.parseEvent example_host unit
    (dq "{'type':'item.created','item':{'type':'message','role':'assistant','content':{'toString':1}}}")
    None tt
  = (Throw TypeError, tt)
  /\ @OutputParser.parseEvent example_host unit
       (dq "{'type':'item.created','item':{'type':'message','role':'assistant','content':[{'type':'text','text':{'toString':1}}]}}")
       None tt
     = (Throw TypeError, tt)
  /\ @OutputParser.parseEvent example_host unit
       (dq "{'type':'item.created','item':{'type':'message','role':'assistant','content':[{'type':'image','text':{'toString':1}},{'type':'text','text':[1,null,{}]}]}}")
       None tt
     = (Ok (OutputParser.One (OutputParser.Text (str "1,,[object Object]"))), tt).
Proof. by vm_compute. Qed.

Example parseChunk_two_lines :
  (@OutputParser.parseChunk example_host unit
     (dq "{'type':'thread.started'}" ++ [10%N; 32%N; 10%N]
      ++ dq "{'type':'turn.failed','error':{'message':'boom'}}")
     None tt).1
  = Ok [OutputParser.ResultFailed (Json (JStr (str "boom")))].
Proof. reflexivity. Qed.

Example getCliFeatures_from_help :
  let help := str "Usage: codex exec [OPTIONS]  -C, --cd <DIR>  --json  -m, --model <MODEL>  --config <k=v>" in
  (fun features => (fun c => features !! c) <$> OpenAI.capabilities)
    (OpenAI.getCliFeatures (Some help) OpenAI.new).1
  = [Some true; Some false; Some false; Some true; Some true; Some true].
Proof. by vm_compute. Qed.

Example anthropic_stream_command :
  @AnthropicCli.buildCommand example_host (str "do it")
    {| Cli.modelSpec := Some {| BaseProvider.level := str "level2";
                                BaseProvider.model := Some (str "sonnet");
                                BaseProvider.reasoningEffort := None |};
       Cli.outputFormat := Some (str "stream-json");
       Cli.jsonSchema := Undefined; Cli.cwd := None; Cli.autoApprove := true;
       Cli.cliFeatures := None |}
    {| AnthropicCli.command := None; AnthropicCli.extra_args := None |}
  = {| Cli.binary := str "claude";
       Cli.args := [ str "--print"; str "--input-format"; str "text";
                     str "--output-format"; str "stream-json"; str "--verbose";
                     str "--include-partial-messages"; str "--model";
                     str "sonnet"; str "--dangerously-skip-permissions";
                     str "do it" ] |}.
Proof. reflexivity. Qed.

(** The install command fails twice and then succeeds: three runs, two
    sleeps, no warning. *)
Example createContainer_third_run_succeeds :
  let run :=
    Isolation.createContainer (Ok (str "0a1b"))
      (fun n => if (n <=? 2)%nat then Isolation.Exited 1 else Isolation.Exited 0)
      (str "c1") (str "/work") (str "alpine:latest") project_sys in
  run.1 = Ok (str "0a1b")
  /\ Isolation.trace (Isolation.manager run.2)
     = [ Isolation.Launch (str "alpine:latest") (str "/work");
         Isolation.Exec (str "c1") 1; Isolation.Sleep 2000;
         Isolation.Exec (str "c1") 2; Isolation.Sleep 4000;
         Isolation.Exec (str "c1") 3 ].
Proof. by vm_compute. Qed.

End Runs.

(* --------------------------------------------------------------------- *)
(** ** The theorems at concrete inputs *)
(* --------------------------------------------------------------------- *)

(** Two cleanups of the cluster [c1] are one cleanup, and the cleanup of a
    cluster that the manager does not know changes nothing. *)
Lemma cleanupWorktree_idempotent_c1 :
  Isolation.cleanups 2 (Js.str "c1") c1_sys
  = Isolation.cleanupWorktree (Js.str "c1") c1_sys
  /\ Isolation.cleanupWorktree (Js.str "non-existent-cluster-xyz") c1_sys
     = (Js.Ok tt, c1_sys).
Proof.
  destruct (cleanupWorktree_idempotent (Js.str "c1") c1_sys) as (_ & Twice & _).
  destruct (cleanupWorktree_idempotent (Js.str "non-existent-cluster-xyz") c1_sys)
    as (_ & _ & Unknown).
  split; [apply Twice|]. apply Unknown. by vm_compute.
Defined.

(** A streaming build with [supportsVerbose] explicitly [false] has no
    [--verbose]; and of two builds that ask for auto-approve from a Codex
    command line without it, one prints the warning. *)
Lemma flags_follow_capabilities_examples :
  let stream :=
    {| Cli.modelSpec := None; Cli.outputFormat := Some (Js.str "stream-json");
       Cli.jsonSchema := Js.Undefined; Cli.cwd := None;
       Cli.autoApprove := false;
       Cli.cliFeatures := Some {[ "supportsVerbose"%string := false ]} |} in
  let approve :=
    {| Cli.modelSpec := None; Cli.outputFormat := None;
       Cli.jsonSchema := Js.Undefined; Cli.cwd := None;
       Cli.autoApprove := true;
       Cli.cliFeatures := Some {[ "supportsAutoApprove"%string := false ]} |} in
  let claude :=
    {| AnthropicCli.command := None; AnthropicCli.extra_args := None |} in
  let notice :=
    {| OpenAI.notice_key := Js.str "openai-auto-approve";
       OpenAI.notice_capability := "supportsAutoApprove";
       OpenAI.notice_requested := fun o => Cli.autoApprove o;
       OpenAI.notice_text :=
         Js.str "Codex CLI does not support auto-approve; continuing without bypass flag." |} in
  (Js.str "--verbose"
     ∉ @AnthropicCli.free_text example_host (Js.str "do it") stream claude)
  /\ (Js.str "--verbose"
        ∉ Cli.args (@AnthropicCli.buildCommand example_host (Js.str "do it")
                      stream claude))
  /\ OpenAI.printed notice
       (@OpenAI.builds example_host
          [(Js.str "one", approve); (Js.str "two", approve)] OpenAI.start)
     = 1%nat.
Proof.
  intros stream approve claude notice.
  destruct (@flags_follow_capabilities example_host)
    as (Anthropic & _ & _ & Printed & _).
  assert (Js.str "--verbose"
            ∉ @AnthropicCli.free_text example_host (Js.str "do it") stream claude)
    as Free.
  { unfold AnthropicCli.free_text. simpl.
    rewrite !not_elem_of_cons. repeat split; try (by vm_compute).
    apply not_elem_of_nil. }
  split; [exact Free|]. split.
  - intros Hin.
    apply (Anthropic {| Cli.capability := "supportsVerbose";
                        Cli.flag := Js.str "--verbose";
                        Cli.requested := fun o => Cli.is_format o "stream-json" |})
      in Hin as [_ Off]; [|simpl; auto|exact Free].
    apply Off. by vm_compute.
  - rewrite (Printed notice); [by vm_compute|]. simpl. auto.
Defined.

(** An answer with a fence: the contents of the fence are the result. *)
Lemma extract_json_chain_fenced :
  let raw := Js.dq "Here you go: ```json {'complexity':'SIMPLE'} ``` Done." in
  @Js.truthy example_host (Js.Json (Js.JObj [])) = true
  /\ DirectApi.fenced raw (Js.dq "{'complexity':'SIMPLE'} ")
  /\ DirectApi.extract_json raw
     = Js.Ok (Js.JObj [(Js.str "complexity", Js.JStr (Js.str "SIMPLE"))])
  /\ exists i o,
       @DirectApi.callDirectApi example_host example_ajv (Js.Json (Js.JObj []))
         (text_response raw)
       = DirectApi.Success
           (Js.JObj [(Js.str "complexity", Js.JStr (Js.str "SIMPLE"))]) raw i o.
Proof.
  intros raw.
  destruct (@extract_json_chain example_host example_ajv raw)
    as (Fence & _ & _ & Call).
  specialize (Call (Js.Json (Js.JObj []))
                {| DirectApi.content :=
                     [ {| DirectApi.block_type := Js.str "text";
                          DirectApi.block_text := raw |} ];
                   DirectApi.usage := None |} eq_refl eq_refl).
  fold (text_response raw) in Call.
  destruct (@DirectApi.callDirectApi example_host example_ajv
              (Js.Json (Js.JObj [])) (text_response raw))
    as [result raw' i o|e] eqn:Run; [|by vm_compute in Run].
  destruct Call as (-> & Parsed & _).
  assert (DirectApi.extract_json raw
          = Js.Ok (Js.JObj [(Js.str "complexity", Js.JStr (Js.str "SIMPLE"))]))
    as Known by (by vm_compute).
  split; [done|]. split; [by apply Fence; vm_compute|]. split; [exact Known|].
  exists i, o. rewrite Known in Parsed. by injection Parsed as <-.
Defined.

(** Six events of the type [foo]: all of them ignored, five of them
    logged. *)
Lemma unknown_events_counted_and_capped_foo :
  let lines := replicate 6 (Js.dq "{'type':'foo'}") in
  (@OpenAI.run example_host lines (OpenAI.new, OpenAI.start)).1
  !! 5%nat = Some (Js.Ok OutputParser.Null)
  /\ (@OpenAI.emissions example_host (OpenAI.KString (Js.str "foo")) lines
        (OpenAI.new, OpenAI.start) <= 5)%nat
  /\ @OpenAI.emissions example_host (OpenAI.KString (Js.str "foo")) lines
       (OpenAI.new, OpenAI.start) = 5%nat.
Proof.
  intros lines.
  destruct (@unknown_events_counted_and_capped example_host lines OpenAI.start)
    as (Ignored & Counted & Logged & _ & _ & Capped).
  split; [|split].
  - apply (Ignored 5%nat (Js.dq "{'type':'foo'}")
             (Js.JObj [(Js.str "type", Js.JStr (Js.str "foo"))])
             (Js.Json (Js.JStr (Js.str "foo")))); by vm_compute.
  - apply Capped.
  - rewrite (Logged (OpenAI.KString (Js.str "foo")) eq_refl), Counted.
    by vm_compute.
Defined.

(** Two providers of one process parse the same six events of the type
    [foo]: each of them counts for itself, and the console of the process
    shows the type ten times. *)
Lemma unknown_events_logged_per_provider :
  let lines := replicate 6 (Js.dq "{'type':'foo'}") in
  let first := @OpenAI.run example_host lines (OpenAI.new, OpenAI.start) in
  let second := @OpenAI.run example_host lines (OpenAI.new, first.2.2) in
  OpenAI.console second.2.2
  = replicate 10 (OpenAI.Debug (Js.str "[openai] Unknown event type: foo"))
  /\ OpenAI.count first.2.1 (OpenAI.KString (Js.str "foo")) = 5%nat
  /\ OpenAI.count second.2.1 (OpenAI.KString (Js.str "foo")) = 5%nat.
Proof. by vm_compute. Qed.

(** Types that are objects. Every parsed object is a key of its own, so
    that six events whose type is the empty object are logged six times;
    and a type with a property [toString] of its own is counted and then
    stops [parseEvent] with a [TypeError], nothing being logged. *)
Example unknown_object_types :
  OpenAI.console
    (@OpenAI.run example_host (replicate 6 (Js.dq "{'type':{}}"))
       (OpenAI.new, OpenAI.start)).2.2
  = replicate 6
      (OpenAI.Debug (Js.str "[openai] Unknown event type: [object Object]"))
  /\ (let outcome :=
        @OpenAI.run example_host [Js.dq "{'type':{'toString':1}}"]
          (OpenAI.new, OpenAI.start) in
      outcome.1 = [Js.Throw Js.TypeError]
      /\ OpenAI.count outcome.2.1 (OpenAI.KObject 0) = 1%nat
      /\ OpenAI.console outcome.2.2 = []).
Proof. by vm_compute. Qed.

(** A conductor with JSON output and a schema takes the fast path once the
    credential is set, also without [useDirectApi]. *)
Lemma shouldUseDirectApi_exactly_conductor :
  @DirectApi.shouldUseDirectApi example_host (Some (Js.str "sk-test"))
    {| DirectApi.useDirectApi := Js.Undefined;
       DirectApi.role := Js.Json (Js.JStr (Js.str "conductor"));
       DirectApi.outputFormat := Js.Json (Js.JStr (Js.str "json"));
       DirectApi.jsonSchema := Js.Json (Js.JObj []) |}
  = true.
Proof.
  apply (@shouldUseDirectApi_exactly example_host). split.
  - by eexists _, _.
  - right. by repeat split.
Defined.

(* ===================================================================== *)
(** * Further properties of the code *)
(* ===================================================================== *)

(* --------------------------------------------------------------------- *)
(** ** Levels and models *)
(* --------------------------------------------------------------------- *)

Section Levels.
Import Js BaseProvider.
Context `{Provider}.

(** [validateLevel] returns when none of its six checks fires. *)
Lemma validateLevel_checks (level : jstr) (minLevel maxLevel : option jstr)
    (accepted : jstr) :
  validateLevel level minLevel maxLevel = Ok accepted
  <-> accepted = level
      /\ unmapped level = false
      /\ given minLevel && unmapped (default [] minLevel) = false
      /\ given maxLevel && unmapped (default [] maxLevel) = false
      /\ given minLevel && given maxLevel
         && rank_gt (default [] minLevel) (default [] maxLevel) = false
      /\ given maxLevel && rank_gt level (default [] maxLevel) = false
      /\ given minLevel && rank_gt (default [] minLevel) level = false.
Proof.
  unfold validateLevel. cbv zeta.
  destruct (unmapped level);
    [split; [done | by intros (_ & ? & _)]|].
  destruct (given minLevel && unmapped (default [] minLevel));
    [split; [done | by intros (_ & _ & ? & _)]|].
  destruct (given maxLevel && unmapped (default [] maxLevel));
    [split; [done | by intros (_ & _ & _ & ? & _)]|].
  destruct (given minLevel && given maxLevel
            && rank_gt (default [] minLevel) (default [] maxLevel));
    [split; [done | by intros (_ & _ & _ & _ & ? & _)]|].
  destruct (given maxLevel && rank_gt level (default [] maxLevel));
    [split; [done | by intros (_ & _ & _ & _ & _ & ? & _)]|].
  destruct (given minLevel && rank_gt (default [] minLevel) level);
    [split; [done | by intros (_ & _ & _ & _ & _ & _ & ?)]|].
  split; [by intros [= <-] | by intros (-> & _)].
Qed.

Lemma unmapped_false (key : jstr) :
  unmapped key = false <-> present (slot key) = true.
Proof. unfold unmapped. by destruct (present (slot key)). Qed.

Lemma rank_gt_false (a b : jstr) :
  rank_gt a b = false
  <-> not_above (slot_rank (slot a)) (slot_rank (slot b)).
Proof.
  unfold rank_gt, not_above.
  destruct (slot_rank (slot a)) as [x|], (slot_rank (slot b)) as [y|];
    try (split; [by intros _ ? ? | done]).
  rewrite bool_decide_eq_false. split.
  - intros Le ? ? [= <-] [= <-]. lia.
  - intros Le. specialize (Le x y eq_refl eq_refl). lia.
Qed.

Lemma slot_plain (key : jstr) :
  inherited key = false ->
  slot key = match getLevelMapping !! key with
             | Some entry => Own entry
             | None => Absent
             end.
Proof. intros Plain. unfold slot. by rewrite Plain. Qed.

(** What [validateLevel] accepts, for names of every kind. *)
Lemma validateLevel_accepts_any (level : jstr) (minLevel maxLevel : option jstr)
    (accepted : jstr) :
  validateLevel level minLevel maxLevel = Ok accepted
  <-> accepted = level
      /\ present (slot level) = true
      /\ (forall c t, minLevel = Some (c :: t) ->
            present (slot (c :: t)) = true
            /\ not_above (slot_rank (slot (c :: t))) (slot_rank (slot level)))
      /\ (forall c t, maxLevel = Some (c :: t) ->
            present (slot (c :: t)) = true
            /\ not_above (slot_rank (slot level)) (slot_rank (slot (c :: t))))
      /\ (forall c t c' t',
            minLevel = Some (c :: t) -> maxLevel = Some (c' :: t') ->
            not_above (slot_rank (slot (c :: t)))
                      (slot_rank (slot (c' :: t')))).
Proof.
  rewrite validateLevel_checks.
  destruct minLevel as [[|c1 t1]|], maxLevel as [[|c2 t2]|];
    cbn [given nonempty default from_option id andb];
    rewrite ?unmapped_false, ?rank_gt_false.
  all: split.
  all: intros (-> & Level & Rest); split; [done|]; split; [done|].
  all: destruct_and?; repeat split; try done.
  all: try (intros; simplify_eq; done).
  all: try (intros; simplify_eq; split; done).
  all: repeat match goal with
           | Lo : forall c t, Some (?a :: ?b) = Some (c :: t) -> _ |- _ =>
               pose proof (Lo _ _ eq_refl) as [? ?]; clear Lo
           end.
  all: try match goal with
           | Hi : forall c t c' t', Some _ = Some _ -> Some _ = Some _ -> _ |- _ =>
               pose proof (Hi _ _ _ _ eq_refl eq_refl)
           end.
  all: try done.
Qed.

(** X1. [validateLevel] accepts a level exactly when the level is mapped and
    each bound that is given (a non-empty name) is mapped and on the right
    side of the level by rank; it then returns the level itself. That is
    for names that are not members of [Object.prototype]; for names of
    every kind, a name counts as mapped when the lookup yields an entry or
    an inherited member, and an inherited member has no rank and so takes
    part in no comparison, which leaves the two bounds, when both are
    given, to be in order between themselves. *)
Theorem validateLevel_accepts (level : jstr) (minLevel maxLevel : option jstr)
    (accepted : jstr) :
  (inherited level = false ->
   (forall bound, minLevel = Some bound -> inherited bound = false) ->
   (forall bound, maxLevel = Some bound -> inherited bound = false) ->
   validateLevel level minLevel maxLevel = Ok accepted
   <-> accepted = level
       /\ exists entry,
           getLevelMapping !! level = Some entry
           /\ (forall c t, minLevel = Some (c :: t) ->
                 exists low, getLevelMapping !! (c :: t) = Some low
                             /\ rank low <= rank entry)
           /\ (forall c t, maxLevel = Some (c :: t) ->
                 exists high, getLevelMapping !! (c :: t) = Some high
                              /\ rank entry <= rank high))
  /\ (validateLevel level minLevel maxLevel = Ok accepted
      <-> accepted = level
          /\ present (slot level) = true
          /\ (forall c t, minLevel = Some (c :: t) ->
                present (slot (c :: t)) = true
                /\ not_above (slot_rank (slot (c :: t)))
                             (slot_rank (slot level)))
          /\ (forall c t, maxLevel = Some (c :: t) ->
                present (slot (c :: t)) = true
                /\ not_above (slot_rank (slot level))
                             (slot_rank (slot (c :: t))))
          /\ (forall c t c' t',
                minLevel = Some (c :: t) -> maxLevel = Some (c' :: t') ->
                not_above (slot_rank (slot (c :: t)))
                          (slot_rank (slot (c' :: t'))))).
Proof.
  split; [|apply validateLevel_accepts_any].
  intros Level Min Max. rewrite validateLevel_accepts_any.
  rewrite (slot_plain level Level).
  assert (forall c t, minLevel = Some (c :: t) ->
            slot (c :: t) = match getLevelMapping !! (c :: t) with
                            | Some entry => Own entry
                            | None => Absent
                            end) as PlainMin
    by (intros; apply slot_plain; eauto).
  assert (forall c t, maxLevel = Some (c :: t) ->
            slot (c :: t) = match getLevelMapping !! (c :: t) with
                            | Some entry => Own entry
                            | None => Absent
                            end) as PlainMax
    by (intros; apply slot_plain; eauto).
  split.
  - intros (-> & Level' & Lo & Hi & _). split; [done|].
    destruct (getLevelMapping !! level) as [entry|]; [|done].
    exists entry. split; [done|]. split.
    + intros c t E. destruct (Lo c t E) as [P Le].
      rewrite (PlainMin c t E) in P, Le.
      destruct (getLevelMapping !! (c :: t)) as [low|]; [|done].
      exists low. split; [done|]. by apply Le.
    + intros c t E. destruct (Hi c t E) as [P Le].
      rewrite (PlainMax c t E) in P, Le.
      destruct (getLevelMapping !! (c :: t)) as [high|]; [|done].
      exists high. split; [done|]. by apply Le.
  - intros (-> & entry & E & Lo & Hi). rewrite E. split; [done|].
    split; [done|]. split; [|split].
    + intros c t M. destruct (Lo c t M) as (low & L & Le).
      rewrite (PlainMin c t M), L. split; [done|].
      intros ? ? [= <-] [= <-]. done.
    + intros c t M. destruct (Hi c t M) as (high & L & Le).
      rewrite (PlainMax c t M), L. split; [done|].
      intros ? ? [= <-] [= <-]. done.
    + intros c t c' t' M M'.
      destruct (Lo c t M) as (low & L & Le).
      destruct (Hi c' t' M') as (high & L' & Le').
      rewrite (PlainMin c t M), L, (PlainMax c' t' M'), L'.
      intros ? ? [= <-] [= <-]. lia.
Qed.

(** X2. A level that [validateLevel] has accepted is resolved from what the
    lookup of the level itself yields, not from the default level, and
    [resolveModelSpec] does not throw for it: each field is the override's
    when that is a non-empty string, and otherwise the field of the entry
    of the level (which an inherited member does not have). A level that is
    not the name of a member of [Object.prototype] has an entry. *)
Theorem validated_level_resolves (level : jstr) (minLevel maxLevel : option jstr)
    (overrides : gmap jstr Override) :
  validateLevel level minLevel maxLevel = Ok level ->
  present (slot level) = true
  /\ resolveModelSpec level overrides
     = Ok {| BaseProvider.level := level;
             model := or_str (overrides !! level ≫= override_model)
                             (slot_model (slot level));
             reasoningEffort :=
               or_str (overrides !! level ≫= override_reasoningEffort)
                      (slot_reasoningEffort (slot level)) |}
  /\ (inherited level = false ->
      exists entry,
        getLevelMapping !! level = Some entry /\ slot level = Own entry).
Proof.
  intros Valid. apply validateLevel_checks in Valid as (_ & Mapped & _).
  apply unmapped_false in Mapped. split; [done|]. split.
  - unfold resolveModelSpec, base_entry.
    destruct (slot level); [| |done]; by destruct (overrides !! level).
  - intros Plain. rewrite (slot_plain level Plain) in Mapped |- *.
    destruct (getLevelMapping !! level) as [entry|]; [|done]. by exists entry.
Qed.

End Levels.

(** What a level is resolved from, on the OpenAI tables and on the Google
    tables: an entry of the tables when the level is no member of
    [Object.prototype], the inherited member otherwise (no level of the
    tables has such a name). *)
Lemma openai_base_entry (level : Js.jstr) :
  if Js.inherited level
  then @BaseProvider.base_entry OpenAI.levels level = BaseProvider.Inherited
  else exists entry,
      @BaseProvider.base_entry OpenAI.levels level = BaseProvider.Own entry
      /\ BaseProvider.entry_model entry = Some (Js.str "openai-model-main")
      /\ BaseProvider.given (BaseProvider.entry_reasoningEffort entry) = true.
Proof.
  unfold BaseProvider.base_entry.
  destruct (@BaseProvider.getLevelMapping OpenAI.levels !! level)
    as [entry|] eqn:L.
  - apply elem_of_list_to_map_2 in L.
    repeat (apply elem_of_cons in L as [[= -> ->]|L];
            [eexists; split; [reflexivity|]; by vm_compute|]).
    by apply elem_of_nil in L.
  - rewrite (@slot_foreign OpenAI.levels level L).
    destruct (Js.inherited level); [done|]. cbn [BaseProvider.present].
    eexists. split; [by vm_compute|]. by vm_compute.
Qed.

Lemma google_base_entry (name level : Js.jstr) :
  let google :=
    {| BaseProvider.name := name;
       BaseProvider.getLevelMapping := GoogleModels.LEVEL_MAPPING;
       BaseProvider.getDefaultLevel := GoogleModels.DEFAULT_LEVEL |} in
  if Js.inherited level
  then @BaseProvider.base_entry google level = BaseProvider.Inherited
  else exists entry m,
      @BaseProvider.base_entry google level = BaseProvider.Own entry
      /\ BaseProvider.entry_model entry = Some m
      /\ BaseProvider.given (Some m) = true
      /\ BaseProvider.listed GoogleModels.MODEL_CATALOG m = true
      /\ BaseProvider.entry_reasoningEffort entry = None.
Proof.
  intros google. unfold google. clear google.
  unfold BaseProvider.base_entry.
  destruct (GoogleModels.LEVEL_MAPPING !! level) as [entry|] eqn:L.
  - apply elem_of_list_to_map_2 in L.
    repeat (apply elem_of_cons in L as [[= -> ->]|L];
            [eexists _, _; split; [reflexivity|]; split; [reflexivity|];
             split; [by vm_compute|]; split; [by vm_compute|done]|]).
    by apply elem_of_nil in L.
  - rewrite (@slot_foreign
               {| BaseProvider.name := name;
                  BaseProvider.getLevelMapping := GoogleModels.LEVEL_MAPPING;
                  BaseProvider.getDefaultLevel := GoogleModels.DEFAULT_LEVEL |}
               level L).
    destruct (Js.inherited level); [done|]. cbn [BaseProvider.present].
    eexists _, _. split; [by vm_compute|]. split; [reflexivity|].
    split; [by vm_compute|]. split; [by vm_compute|done].
Qed.

Lemma or_str_given (a b : option Js.jstr) :
  BaseProvider.given b = true ->
  BaseProvider.given (BaseProvider.or_str a b) = true.
Proof. intros B. unfold BaseProvider.or_str. by destruct (BaseProvider.given a) eqn:A. Qed.

Lemma or_str_override (overrides : gmap Js.jstr BaseProvider.Override)
    (level : Js.jstr) (field : BaseProvider.Override -> option Js.jstr)
    (base : option Js.jstr) :
  field {| BaseProvider.override_model := None;
           BaseProvider.override_reasoningEffort := None |} = None ->
  BaseProvider.or_str
    (field (default {| BaseProvider.override_model := None;
                       BaseProvider.override_reasoningEffort := None |}
                    (overrides !! level))) base
  = BaseProvider.or_str (overrides !! level ≫= field) base.
Proof. intros Blank. destruct (overrides !! level); [done|]. cbn. by rewrite Blank. Qed.

(** X3. The tables that ship with the OpenAI provider: whatever level is asked
    for and whatever the overrides, [resolveModelSpec] returns a
    specification, and its model passes [validateModelId] unless the
    override of the level names a model of its own. For a level that is
    not the name of a member of [Object.prototype] the specification
    carries a reasoning effort, and its model is the one of the tables
    unless the override names one; for a level that is such a name, model
    and reasoning effort are what the override gives, and nothing without
    one. *)
Theorem openai_tables_resolve (level : Js.jstr)
    (overrides : gmap Js.jstr BaseProvider.Override) :
  exists spec,
    @BaseProvider.resolveModelSpec OpenAI.levels level overrides = Js.Ok spec
    /\ (BaseProvider.given (overrides !! level ≫= BaseProvider.override_model)
        = false ->
        @BaseProvider.validateModelId OpenAI.levels OpenAIModels.MODEL_CATALOG
          (BaseProvider.model spec)
        = Js.Ok (BaseProvider.model spec))
    /\ (Js.inherited level = false ->
        BaseProvider.given (BaseProvider.reasoningEffort spec) = true
        /\ (BaseProvider.given
              (overrides !! level ≫= BaseProvider.override_model) = false ->
            BaseProvider.model spec = Some (Js.str "openai-model-main")))
    /\ (Js.inherited level = true ->
        BaseProvider.model spec
        = BaseProvider.or_str
            (overrides !! level ≫= BaseProvider.override_model) None
        /\ BaseProvider.reasoningEffort spec
           = BaseProvider.or_str
               (overrides !! level ≫= BaseProvider.override_reasoningEffort)
               None).
Proof.
  unfold BaseProvider.resolveModelSpec.
  pose proof (openai_base_entry level) as Base.
  destruct (Js.inherited level).
  - rewrite Base. cbn [BaseProvider.present]. eexists. split; [reflexivity|].
    cbn [BaseProvider.model BaseProvider.reasoningEffort
         BaseProvider.slot_model BaseProvider.slot_reasoningEffort].
    rewrite !or_str_override by done.
    split; [|split; [done|]].
    + intros G. unfold BaseProvider.or_str. by rewrite G.
    + done.
  - destruct Base as (entry & -> & Model & Effort). cbn [BaseProvider.present].
    eexists. split; [reflexivity|].
    cbn [BaseProvider.model BaseProvider.reasoningEffort
         BaseProvider.slot_model BaseProvider.slot_reasoningEffort].
    rewrite !or_str_override by done. rewrite Model.
    split; [|split; [|done]].
    + intros G. unfold BaseProvider.or_str. rewrite G. by vm_compute.
    + intros _. split; [by apply or_str_given|].
      intros G. unfold BaseProvider.or_str. by rewrite G.
Qed.

(** X4. A provider on the Google tables, under whatever name: every level is
    resolved, the model passes [validateModelId] unless the override names
    one, and no reasoning effort is set unless the override sets one. *)
Theorem google_tables_resolve (name : Js.jstr) (level : Js.jstr)
    (overrides : gmap Js.jstr BaseProvider.Override) :
  let google :=
    {| BaseProvider.name := name;
       BaseProvider.getLevelMapping := GoogleModels.LEVEL_MAPPING;
       BaseProvider.getDefaultLevel := GoogleModels.DEFAULT_LEVEL |} in
  exists spec,
    @BaseProvider.resolveModelSpec google level overrides = Js.Ok spec
    /\ (BaseProvider.given
          (overrides !! level ≫= BaseProvider.override_reasoningEffort) = false ->
        BaseProvider.reasoningEffort spec = None)
    /\ (BaseProvider.given (overrides !! level ≫= BaseProvider.override_model)
        = false ->
        @BaseProvider.validateModelId google GoogleModels.MODEL_CATALOG
          (BaseProvider.model spec)
        = Js.Ok (BaseProvider.model spec)).
Proof.
  intros google. unfold google. clear google.
  unfold BaseProvider.resolveModelSpec.
  pose proof (google_base_entry name level) as Base. cbv zeta in Base.
  destruct (Js.inherited level).
  - rewrite Base. cbn [BaseProvider.present]. eexists. split; [reflexivity|].
    cbn [BaseProvider.model BaseProvider.reasoningEffort
         BaseProvider.slot_model BaseProvider.slot_reasoningEffort].
    rewrite !or_str_override by done.
    split; intros G; unfold BaseProvider.or_str; by rewrite G.
  - destruct Base as (entry & m & -> & Model & Given & Known & Effort).
    cbn [BaseProvider.present]. eexists. split; [reflexivity|].
    cbn [BaseProvider.model BaseProvider.reasoningEffort
         BaseProvider.slot_model BaseProvider.slot_reasoningEffort].
    rewrite !or_str_override by done. rewrite Model, Effort.
    split; intros G; unfold BaseProvider.or_str; rewrite G; [done|].
    unfold BaseProvider.validateModelId. rewrite Given.
    cbn [default from_option id]. by rewrite Known.
Qed.

(** The OpenAI provider accepts [level1] between its default bounds and
    resolves it from the entry of [level1]. *)
Lemma validated_level_resolves_openai :
  let overrides : gmap Js.jstr BaseProvider.Override :=
    {[ Js.str "level3" := {| BaseProvider.override_model := None;
                             BaseProvider.override_reasoningEffort :=
                               Some (Js.str "high") |} ]} in
  @BaseProvider.validateLevel OpenAI.levels (Js.str "level1")
    (Some OpenAIModels.DEFAULT_MIN_LEVEL) (Some OpenAIModels.DEFAULT_MAX_LEVEL)
  = Js.Ok (Js.str "level1")
  /\ @BaseProvider.resolveModelSpec OpenAI.levels (Js.str "level1") overrides
     = Js.Ok {| BaseProvider.level := Js.str "level1";
                BaseProvider.model := Some (Js.str "openai-model-main");
                BaseProvider.reasoningEffort := Some (Js.str "low") |}.
Proof.
  intros overrides.
  assert (@BaseProvider.validateLevel OpenAI.levels (Js.str "level1")
            (Some OpenAIModels.DEFAULT_MIN_LEVEL)
            (Some OpenAIModels.DEFAULT_MAX_LEVEL)
          = Js.Ok (Js.str "level1")) as Valid by (by vm_compute).
  split; [exact Valid|].
  destruct (@validated_level_resolves OpenAI.levels (Js.str "level1")
              (Some OpenAIModels.DEFAULT_MIN_LEVEL)
              (Some OpenAIModels.DEFAULT_MAX_LEVEL) overrides Valid)
    as (_ & Resolved & _).
  rewrite Resolved. by vm_compute.
Defined.

(* --------------------------------------------------------------------- *)
(** ** The capability table *)
(* --------------------------------------------------------------------- *)

Section CapabilityTable.
Import Js Capabilities.

Local Arguments str : simpl never.

(** Decides the comparisons of a name with the names written in the
    table. *)
Ltac table_cases :=
  repeat match goal with
    | |- context [bool_decide (str ?k = str ?k')] =>
        let b := eval vm_compute in (bool_decide (str k = str k')) in
        change (bool_decide (str k = str k')) with b
    | |- context [bool_decide (str ?k = ?x)] =>
        destruct (bool_decide_reflect (str k = x)) as [<-|?]
    end.


(** X5. [warnIfExperimental] prints for one entry of the table, the JSON schema
    of the Google provider, and that is an entry that [checkCapability] does
    not report as supported; for every other provider and capability, known
    or not, it prints nothing. *)
Theorem warnIfExperimental_exactly (provider capability : jstr)
    (console : list jstr) :
  (provider = str "google" /\ capability = str "jsonSchema" ->
   warnIfExperimental provider capability console
   = console ++ [ [9888%N; 65039%N; 32%N]
                  ++ str "jsonSchema is experimental for google and may not work reliably" ]
   /\ checkCapability provider capability = false)
  /\ (~ (provider = str "google" /\ capability = str "jsonSchema") ->
      warnIfExperimental provider capability console = console).
Proof.
  split.
  - intros [-> ->]. split; by vm_compute.
  - intros Other. unfold warnIfExperimental, CAPABILITIES.
    cbn [own]. table_cases; cbn [get_opt own is_str]; table_cases;
      cbn [is_str]; try done.
    all: try (destruct Other; by split).
Qed.


End CapabilityTable.

(* --------------------------------------------------------------------- *)
(** ** What the OpenAI provider detects, and what it then builds *)
(* --------------------------------------------------------------------- *)

Section Detection.
Import Js Cli OpenAI.
Context `{Host}.

Local Arguments str : simpl never.

(** X7. The two tests that [getCliFeatures] runs on the help text are the
    expressions they stand for: [test_flag] finds an occurrence of the flag
    that the end of the text or a character that is no letter, digit or
    underscore follows, and [test_spaced] one that a white-space character
    precedes as well. *)
Theorem flag_tests_find_occurrences (flag help : jstr) :
  (test_flag flag help = true
   <-> exists before after,
         help = before ++ flag ++ after /\ boundary after = true)
  /\ (test_spaced flag help = true
      <-> exists before space after,
            help = before ++ space :: flag ++ after
            /\ is_space space = true /\ boundary after = true).
Proof.
  split.
  - induction help as [|c help IH]; simpl.
    + rewrite orb_false_r, andb_true_iff, starts_with_prefix. split.
      * intros [[rest E] B]. exists [], rest. split; [done|].
        rewrite E, drop_app_length in B. done.
      * intros (before & after & E & B).
        symmetry in E. apply app_eq_nil in E as [-> E].
        apply app_eq_nil in E as [-> ->]. split; [by exists []|done].
    + rewrite orb_true_iff, andb_true_iff, starts_with_prefix, IH. split.
      * intros [[[rest E] B]|(before & after & -> & B)].
        -- exists [], rest. split; [done|].
           rewrite E, drop_app_length in B. done.
        -- by exists (c :: before), after.
      * intros (before & after & E & B). destruct before as [|b before].
        -- left. simpl in E. split; [by exists after|].
           by rewrite E, drop_app_length.
        -- right. injection E as -> ->. by exists before, after.
  - induction help as [|c help IH]; simpl.
    + split; [done|]. intros (before & ? & ? & E & _). by destruct before.
    + rewrite orb_true_iff, !andb_true_iff, starts_with_prefix, IH. split.
      * intros [[[S [rest E]] B]|(before & space & after & -> & S & B)].
        -- exists [], c, rest. rewrite E, drop_app_length in B.
           by rewrite E.
        -- by exists (c :: before), space, after.
      * intros (before & space & after & E & S & B).
        destruct before as [|b before].
        -- left. injection E as -> ->.
           rewrite drop_app_length. split; [|done]. split; [done|].
           by exists after.
        -- right. injection E as -> ->. by exists before, space, after.
Qed.

(** The capabilities that a new provider reads off a help text that it
    could get. *)
Lemma detected_features (help : jstr) (this : Provider) :
  _cliFeatures this = None ->
  nonempty help = true ->
  let features := (getCliFeatures (Some help) this).1 in
  features !! "supportsJson"%string = Some (test_flag (str "--json") help)
  /\ features !! "supportsOutputSchema"%string
     = Some (test_flag (str "--output-schema") help)
  /\ features !! "supportsAutoApprove"%string
     = Some (test_flag (str "--dangerously-bypass-approvals-and-sandbox") help)
  /\ features !! "supportsCwd"%string
     = Some (test_spaced (str "-C") help || test_flag (str "--cwd") help)
  /\ features !! "supportsConfigOverride"%string
     = Some (test_flag (str "--config") help).
Proof.
  intros Fresh Given. unfold getCliFeatures. rewrite Fresh.
  cbn [fst BaseProvider.given default from_option id]. rewrite Given. cbn [negb].
  generalize (test_flag (str "--json") help),
    (test_flag (str "--output-schema") help),
    (test_flag (str "--dangerously-bypass-approvals-and-sandbox") help),
    (test_spaced (str "-C") help || test_flag (str "--cwd") help),
    (test_flag (str "--config") help),
    (test_spaced (str "-m") help || test_flag (str "--model") help).
  intros. by vm_compute.
Qed.

(** X8. A provider that could not read the help text of its CLI builds as if
    everything were supported: every flag that the options ask for is
    passed, and no warning is printed. *)
Theorem unreadable_help_passes_flags (help : option jstr) (this : Provider)
    (g : Gate) (context : jstr) (options : Options) (p : Process) :
  _cliFeatures this = None ->
  BaseProvider.given help = false ->
  cliFeatures options = Some (getCliFeatures help this).1 ->
  In g OpenAICli.gates ->
  flag g ∉ OpenAICli.free_text context options ->
  (flag g ∈ args (buildCommand context options p).1
   <-> requested g options = true)
  /\ (buildCommand context options p).2 = p.
Proof.
  intros Fresh Unknown Features Hg Free.
  assert (forall c, In c capabilities ->
                    default ∅ (cliFeatures options) !! c = Some true) as All.
  { intros c Hc. rewrite Features. unfold getCliFeatures.
    rewrite Fresh, Unknown. simpl in Hc. cbn [fst default from_option id negb].
    repeat (destruct Hc as [<-|Hc]; [by vm_compute|]). done. }
  split.
  - rewrite openai_gate by done.
    assert (In (capability g) capabilities) as Known.
    { simpl in Hg. repeat (destruct Hg as [<-|Hg]; [simpl; tauto|]). done. }
    rewrite (All _ Known). naive_solver.
  - unfold buildCommand. cbn [snd]. unfold is_false.
    rewrite !All by (simpl; tauto).
    rewrite !bool_decide_eq_false_2 by done.
    by rewrite !andb_false_r.
Qed.

(** X9. A provider that has read the help text passes a flag exactly when the
    options ask for it and the test of the help text found it: detection
    leaves no capability undecided. *)
Theorem readable_help_decides_flags (help : jstr) (this : Provider)
    (context : jstr) (options : Options) (p : Process) :
  _cliFeatures this = None ->
  nonempty help = true ->
  cliFeatures options = Some (getCliFeatures (Some help) this).1 ->
  (forall g, In g OpenAICli.gates ->
             flag g ∉ OpenAICli.free_text context options) ->
  let built := args (buildCommand context options p).1 in
  (str "--json" ∈ built
   <-> is_format options "stream-json" || is_format options "json" = true
       /\ test_flag (str "--json") help = true)
  /\ (str "--config" ∈ built
      <-> given (spec_effort options) = true
          /\ test_flag (str "--config") help = true)
  /\ (str "-C" ∈ built
      <-> given (cwd options) = true
          /\ test_spaced (str "-C") help || test_flag (str "--cwd") help = true)
  /\ (str "--dangerously-bypass-approvals-and-sandbox" ∈ built
      <-> autoApprove options = true
          /\ test_flag (str "--dangerously-bypass-approvals-and-sandbox") help
             = true)
  /\ (str "--output-schema" ∈ built
      <-> truthy (jsonSchema options) = true
          /\ test_flag (str "--output-schema") help = true).
Proof.
  intros Fresh Given Features Free built.
  destruct (detected_features help this Fresh Given) as (F1 & F2 & F3 & F4 & F5).
  cbv zeta in F1, F2, F3, F4, F5.
  assert (forall g, In g OpenAICli.gates ->
            flag g ∈ built
            <-> requested g options = true
                /\ (getCliFeatures (Some help) this).1 !! capability g
                   = Some true) as Gate.
  { intros g Hg. unfold built. rewrite openai_gate by auto.
    by rewrite Features. }
  assert (forall b : bool, Some b = Some true <-> b = true) as Same
    by (intros b; split; [by intros [= ->] | by intros ->]).
  assert (Forall (fun g => flag g ∈ built
                          <-> requested g options = true
                              /\ (getCliFeatures (Some help) this).1
                                 !! capability g = Some true)
                 OpenAICli.gates) as Gates.
  { apply List.Forall_forall. intros g Hg. by apply Gate. }
  unfold OpenAICli.gates in Gates.
  repeat match type of Gates with
         | Forall _ (_ :: _) =>
             let G := fresh "G" in
             apply Forall_cons in Gates as [G Gates];
             cbn [flag capability requested] in G
         end.
  rewrite F1, Same in G. rewrite F5, Same in G0. rewrite F4, Same in G1.
  rewrite F3, Same in G2. rewrite F2, Same in G3.
  done.
Qed.

End Detection.

(* --------------------------------------------------------------------- *)
(** ** From the level to the command line *)
(* --------------------------------------------------------------------- *)

Section ModelFlag.
Import Js Cli.
Context `{Host}.

Local Arguments str : simpl never.

Lemma openai_model_flag (context : jstr) (options : Options) :
  given (spec_model options) = true ->
  exists before after,
    args (OpenAICli.buildCommand context options)
    = before ++ [str "-m"; default [] (spec_model options)] ++ after.
Proof.
  intros Model. unfold OpenAICli.buildCommand. cbn [args]. rewrite Model.
  unfold push_if.
  repeat match goal with
         | |- context [if ?b then _ else _] => destruct b
         end;
    first [ exists [str "exec"; str "--json"]; eexists; reflexivity
          | exists [str "exec"]; eexists; reflexivity ].
Qed.

Lemma google_model_flag (context : jstr) (options : Options) :
  given (spec_model options) = true ->
  exists before after,
    args (GoogleCli.buildCommand context options)
    = before ++ [str "-m"; default [] (spec_model options)] ++ after.
Proof.
  intros Model. unfold GoogleCli.buildCommand. cbn [args]. rewrite Model.
  unfold push_if.
  repeat match goal with
         | |- context [if ?b then _ else _] => destruct b
         end;
    first [ exists [str "-p"; context; str "--output-format"; str "stream-json"];
            eexists; reflexivity
          | exists [str "-p"; context]; eexists; reflexivity ].
Qed.

(** Without a model, [-m] is among the arguments only as a text of the
    caller's. *)
Lemma openai_no_model_flag (context : jstr) (options : Options) :
  given (spec_model options) = false ->
  (str "-m" ∉ OpenAICli.free_text context options) ->
  str "-m" ∉ args (OpenAICli.buildCommand context options).
Proof.
  intros Model Free Hin. unfold OpenAICli.free_text in Free.
  rewrite !not_elem_of_cons in Free.
  destruct Free as (F0 & F1 & F2 & F3 & F4 & _).
  unfold OpenAICli.buildCommand in Hin. cbn [args] in Hin.
  rewrite Model in Hin. unfold push_if at 5 in Hin.
  rewrite ?elem_of_app, ?elem_of_push_if, ?elem_of_app, ?elem_of_cons,
    ?elem_of_nil in Hin.
  repeat first [progress destruct_or! | progress destruct_and?]; try done;
    match goal with
    | E : str ?a = str ?b |- _ => by vm_compute in E
    end.
Qed.

Lemma google_no_model_flag (context : jstr) (options : Options) :
  given (spec_model options) = false ->
  (str "-m" ∉ GoogleCli.free_text context options) ->
  str "-m" ∉ args (GoogleCli.buildCommand context options).
Proof.
  intros Model Free Hin. unfold GoogleCli.free_text in Free.
  rewrite !not_elem_of_cons in Free.
  destruct Free as (F0 & F1 & F2 & _).
  unfold GoogleCli.buildCommand in Hin. cbn [args] in Hin.
  rewrite Model in Hin. unfold push_if at 3 in Hin.
  rewrite ?elem_of_app, ?elem_of_push_if, ?elem_of_app, ?elem_of_cons,
    ?elem_of_nil in Hin.
  repeat first [progress destruct_or! | progress destruct_and?]; try done;
    match goal with
    | E : str ?a = str ?b |- _ => by vm_compute in E
    end.
Qed.

End ModelFlag.

(** X10. From the level to the command line, on the tables of the OpenAI and
    of the Google provider, whatever the overrides and the detected
    capabilities. For a level that is not the name of a member of
    [Object.prototype], the specification that is resolved names a model,
    and the builder of that provider passes the model behind [-m]. For a
    level that is such a name and has no model in its override, the
    specification names no model and the builder passes no [-m] of its
    own. *)
Theorem resolved_model_reaches_command `{Js.Host} (name level : Js.jstr)
    (overrides : gmap Js.jstr BaseProvider.Override)
    (context : Js.jstr) (options : Cli.Options) :
  let google :=
    {| BaseProvider.name := name;
       BaseProvider.getLevelMapping := GoogleModels.LEVEL_MAPPING;
       BaseProvider.getDefaultLevel := GoogleModels.DEFAULT_LEVEL |} in
  let reaches (provider : BaseProvider.Provider)
      (build : Js.jstr -> Cli.Options -> Cli.Command)
      (free_text : Js.jstr -> Cli.Options -> list Js.jstr) :=
    exists spec,
      @BaseProvider.resolveModelSpec provider level overrides = Js.Ok spec
      /\ (Cli.modelSpec options = Some spec ->
          (Js.inherited level = false ->
           exists model before after,
             BaseProvider.model spec = Some model
             /\ Cli.args (build context options)
                = before ++ [Js.str "-m"; model] ++ after)
          /\ (Js.inherited level = true ->
              BaseProvider.given
                (overrides !! level ≫= BaseProvider.override_model) = false ->
              BaseProvider.model spec = None
              /\ ((Js.str "-m" ∉ free_text context options) ->
                  Js.str "-m" ∉ Cli.args (build context options)))) in
  reaches OpenAI.levels OpenAICli.buildCommand OpenAICli.free_text
  /\ reaches google GoogleCli.buildCommand GoogleCli.free_text.
Proof.
  intros google reaches. unfold reaches, google. clear reaches google.
  split.
  - unfold BaseProvider.resolveModelSpec.
    pose proof (openai_base_entry level) as Base.
    destruct (Js.inherited level).
    + rewrite Base. cbn [BaseProvider.present]. eexists.
      split; [reflexivity|]. intros Spec. split; [done|]. intros _ G.
      cbn [BaseProvider.model BaseProvider.slot_model].
      rewrite or_str_override by done.
      assert (BaseProvider.or_str
                (overrides !! level ≫= BaseProvider.override_model) None
              = None) as None_ by (unfold BaseProvider.or_str; by rewrite G).
      split; [exact None_|].
      apply openai_no_model_flag.
      unfold Cli.spec_model. rewrite Spec. cbn.
      rewrite or_str_override by done. by rewrite None_.
    + destruct Base as (entry & -> & Model & _). cbn [BaseProvider.present].
      eexists. split; [reflexivity|]. intros Spec. split; [|done]. intros _.
      assert (Cli.given (Cli.spec_model options) = true) as Given.
      { unfold Cli.spec_model. rewrite Spec. cbn. apply or_str_given.
        by rewrite Model. }
      destruct (openai_model_flag context options Given)
        as (before & after & Args).
      destruct (Cli.spec_model options) as [model|] eqn:M; [|done].
      exists model, before, after. split; [|exact Args].
      unfold Cli.spec_model in M. by rewrite Spec in M.
  - unfold BaseProvider.resolveModelSpec.
    pose proof (google_base_entry name level) as Base. cbv zeta in Base.
    destruct (Js.inherited level).
    + rewrite Base. cbn [BaseProvider.present]. eexists.
      split; [reflexivity|]. intros Spec. split; [done|]. intros _ G.
      cbn [BaseProvider.model BaseProvider.slot_model].
      rewrite or_str_override by done.
      assert (BaseProvider.or_str
                (overrides !! level ≫= BaseProvider.override_model) None
              = None) as None_ by (unfold BaseProvider.or_str; by rewrite G).
      split; [exact None_|].
      apply google_no_model_flag.
      unfold Cli.spec_model. rewrite Spec. cbn.
      rewrite or_str_override by done. by rewrite None_.
    + destruct Base as (entry & m & -> & Model & Known & _).
      cbn [BaseProvider.present].
      eexists. split; [reflexivity|]. intros Spec. split; [|done]. intros _.
      assert (Cli.given (Cli.spec_model options) = true) as Given.
      { unfold Cli.spec_model. rewrite Spec. cbn. apply or_str_given.
        by rewrite Model. }
      destruct (google_model_flag context options Given)
        as (before & after & Args).
      destruct (Cli.spec_model options) as [model|] eqn:M; [|done].
      exists model, before, after. split; [|exact Args].
      unfold Cli.spec_model in M. by rewrite Spec in M.
Qed.

(* --------------------------------------------------------------------- *)
(** ** What the parser of the OpenAI output returns and when it throws *)
(* --------------------------------------------------------------------- *)

Section Parser.
Import Js OutputParser ParserTerms.
Context `{Host}.

Local Arguments str : simpl never.

Lemma piece_outcome (v : value) :
  if no_string v then piece v = Throw TypeError
  else exists text, piece v = Ok text.
Proof.
  destruct v as [|j]; [by eexists|].
  pose proof (to_string_outcome j) as Outcome.
  destruct j; try exact Outcome. by eexists.
Qed.

Lemma texts_of_outcome (keep : value -> bool) (content : list json) :
  if existsb is_null content || existsb (unreadable keep) content
  then texts_of keep content = Throw TypeError
  else exists text, texts_of keep content = Ok text.
Proof.
  induction content as [|c content IH]; [by eexists|].
  cbn [existsb texts_of].
  destruct (existsb is_null content) eqn:Nulls.
  { rewrite orb_true_r. cbn [orb] in *. rewrite IH. by destruct c. }
  destruct (existsb (unreadable keep) content) eqn:Texts; cbn [orb] in IH.
  { rewrite !orb_true_r. rewrite IH. by destruct c. }
  destruct IH as [tail ->]. rewrite !orb_false_r.
  destruct c as [|b|n|s|items|fields]; cbn [is_null unreadable get bind orb];
    try done; try (destruct (keep Undefined); by eexists).
  destruct (keep (own (str "type") fields)); cbn [andb]; [|by eexists].
  pose proof (piece_outcome (own (str "text") fields)) as Piece.
  destruct (no_string (own (str "text") fields)); [by rewrite Piece|].
  destruct Piece as [head ->]. by eexists.
Qed.

Lemma existsb_unreadable (content : list json) :
  existsb (unreadable is_read) content
  = existsb (unreadable is_text) content || existsb (unreadable is_thinking) content.
Proof.
  induction content as [|c content IH]; [done|].
  cbn [existsb]. rewrite IH. unfold is_read.
  destruct c as [| | | | |fields]; cbn [unreadable orb]; try done.
  destruct (is_text (own (str "type") fields)),
    (is_thinking (own (str "type") fields)),
    (no_string (own (str "text") fields)),
    (existsb (unreadable is_text) content),
    (existsb (unreadable is_thinking) content); done.
Qed.

Lemma call_events_object (fields : list (jstr * json)) :
  exists name toolId input,
    input <> Undefined
    /\ call_events (Json (JObj fields))
       = Ok (if is_str (own (str "type") fields) (str "function_call")
             then [ToolCall name toolId input] else []).
Proof.
  unfold call_events, tool_id. cbn [get bind].
  destruct (is_str (own (str "type") fields) (str "function_call")).
  - eexists _, _, _. split; [|reflexivity].
    destruct (own (str "arguments") fields) as [|[]]; try done;
      unfold or_else; by destruct (truthy _).
  - exists Undefined, Undefined, (Json JNull). done.
Qed.

Lemma output_events_object (fields : list (jstr * json)) :
  exists toolId content isError,
    content <> Undefined /\ content <> Json JNull
    /\ output_events (Json (JObj fields))
       = Ok (if is_str (own (str "type") fields) (str "function_call_output")
             then [ToolResult toolId content isError] else []).
Proof.
  unfold output_events, tool_id. cbn [get bind].
  destruct (is_str (own (str "type") fields) (str "function_call_output")).
  - eexists _, _, _. split; [|split; [|reflexivity]].
    + destruct (own (str "output") fields) as [|[]],
        (own (str "result") fields) as [|[]],
        (own (str "content") fields) as [|[]]; done.
    + destruct (own (str "output") fields) as [|[]],
        (own (str "result") fields) as [|[]],
        (own (str "content") fields) as [|[]]; done.
  - exists Undefined, (Json (JStr [])), false. done.
Qed.

Lemma message_events_object (fields : list (jstr * json)) :
  if broken_item (Json (JObj fields))
  then message_events (Json (JObj fields)) = Throw TypeError
  else exists text thinking,
      message_events (Json (JObj fields))
      = Ok (if is_str (own (str "type") fields) (str "message")
            then (if nonempty text then [Text text] else [])
                 ++ (if nonempty thinking then [Thinking thinking] else [])
            else []).
Proof.
  unfold message_events, broken_item. cbn [get bind].
  destruct (is_str (own (str "type") fields) (str "message")); cbn [andb];
    [|by exists [], []].
  destruct (is_str (own (str "role") fields) (str "assistant")); cbn [andb];
    [|by exists [], []].
  destruct (own (str "content") fields) as [|single] eqn:Content;
    [by exists [], []|].
  assert (if no_string (Json single)
          then bind (piece (Json single)) (fun text => Ok (text, @nil N))
               = Throw TypeError
          else exists text : jstr,
              bind (piece (Json single)) (fun text => Ok (text, @nil N))
              = Ok (text, [])) as Single.
  { pose proof (piece_outcome (Json single)) as Piece.
    destruct (no_string (Json single)); [by rewrite Piece|].
    destruct Piece as [text ->]. by eexists. }
  destruct single as [| | | |content|];
    try (destruct (no_string _);
         [by rewrite Single | destruct Single as [text ->]; by exists text, []]).
  clear Single. rewrite existsb_unreadable.
  pose proof (texts_of_outcome is_text content) as Text.
  pose proof (texts_of_outcome is_thinking content) as Thinking.
  destruct (existsb is_null content); cbn [orb] in *; [by rewrite Text|].
  destruct (existsb (unreadable is_text) content); cbn [orb] in *;
    [by rewrite Text|].
  destruct Text as [text ->].
  destruct (existsb (unreadable is_thinking) content); [by rewrite Thinking|].
  destruct Thinking as [thinking ->]. by exists text, thinking.
Qed.

Lemma is_str_same (v : value) (a b : jstr) :
  is_str v a = true -> is_str v b = true -> a = b.
Proof. rewrite !is_str_true. by intros -> [= ->]. Qed.

Lemma parseItem_outcome (item : value) :
  if broken_item item then parseItem item = Throw TypeError
  else exists parsed, parseItem item = Ok parsed.
Proof.
  destruct item as [|[| | | | |fields]]; try done; try by eexists.
  pose proof (message_events_object fields) as M.
  destruct (call_events_object fields) as (n & i & a & _ & C).
  destruct (output_events_object fields) as (i' & c & err & _ & _ & O).
  unfold parseItem. rewrite C, O.
  destruct (broken_item (Json (JObj fields))); [by rewrite M|].
  destruct M as (text & thinking & ->). cbn [bind].
  destruct (_ ++ _ ++ _) as [|? [|]]; by eexists.
Qed.

(** X11. [parseItem] throws for the items that it cannot read and for no
    others, and what it throws is a [TypeError]. These items are: the ones
    that are not there; and the messages of an assistant whose content is
    an array with a [null] in it, or with a text or a thought whose [text]
    has no string (an object with a [toString] of its own, or an array
    that holds one), or whose content is itself such a value. *)
Theorem parseItem_throws (item : value) (e : exn) :
  parseItem item = Throw e <-> e = TypeError /\ broken_item item = true.
Proof.
  pose proof (parseItem_outcome item) as Outcome.
  destruct (broken_item item).
  - rewrite Outcome. split; [by intros [= <-] | by intros [-> _]].
  - destruct Outcome as [parsed ->]. split; [done | by intros [_ ?]].
Qed.

(** X12. What [parseItem] returns. An array is returned for one kind of item
    only, a message with text and with thinking, and holds these two
    events in this order; a text is never empty, the input of a tool call
    is never [undefined], the content of a tool result never [undefined] or
    [null]; results of a turn do not come from items. *)
Theorem parseItem_shapes (item : value) (parsed : Parsed) :
  parseItem item = Ok parsed ->
  match parsed with
  | Null => True
  | One (Text text) | One (Thinking text) => text <> []
  | One (ToolCall _ _ input) => input <> Undefined
  | One (ToolResult _ content _) =>
      content <> Undefined /\ content <> Json JNull
  | One (ResultOk _ _) | One (ResultFailed _) => False
  | Many events =>
      exists text thinking,
        events = [Text text; Thinking thinking]
        /\ text <> [] /\ thinking <> []
  end.
Proof.
  destruct item as [|[| | | | |fields]]; try by intros [= <-].
  pose proof (message_events_object fields) as M.
  destruct (call_events_object fields) as (n & i & a & Input & C).
  destruct (output_events_object fields) as (i' & c & err & C1 & C2 & O).
  unfold parseItem. rewrite C, O.
  destruct (broken_item (Json (JObj fields))); [by rewrite M|].
  destruct M as (text & thinking & ->). cbn [bind].
  destruct (is_str (own (str "type") fields) (str "message")) eqn:T1,
    (is_str (own (str "type") fields) (str "function_call")) eqn:T2,
    (is_str (own (str "type") fields) (str "function_call_output")) eqn:T3;
    try (by pose proof (is_str_same _ _ _ T1 T2) as E; vm_compute in E);
    try (by pose proof (is_str_same _ _ _ T1 T3) as E; vm_compute in E);
    try (by pose proof (is_str_same _ _ _ T2 T3) as E; vm_compute in E).
  - destruct text as [|x text], thinking as [|y thinking]; cbn;
      intros [= <-]; try done.
    by eexists _, _.
  - by intros [= <-].
  - by intros [= <-].
  - by intros [= <-].
Qed.

Lemma parseEvent_throws_when {S : Type} (line : jstr)
    (onUnknown : option (value -> json -> S -> result unit * S))
    (st st' : S) (e : exn) :
  parseEvent line onUnknown st = (Throw e, st')
  <-> exists event,
      JSON.parse line = Ok event
      /\ (e = TypeError /\ st' = st
          /\ (event = JNull
              \/ is_str (get_opt (Json event) (str "type")) (str "item.created")
                 = true
                 /\ broken_item (get_opt (Json event) (str "item")) = true)
          \/ event <> JNull
             /\ known_type (get_opt (Json event) (str "type")) = false
             /\ exists callback,
                 onUnknown = Some callback
                 /\ callback (get_opt (Json event) (str "type")) event st
                    = (Throw e, st')).
Proof.
  unfold parseEvent, known_type.
  destruct (JSON.parse line) as [event|failure];
    [|split; [done | by intros (? & ? & _)]].
  assert (forall P : json -> Prop, (exists event', Ok event = Ok event' /\ P event')
                                   <-> P event) as One.
  { intros P. split; [by intros (? & [= <-] & ?) | by exists event]. }
  rewrite One. clear One.
  assert (forall type : value,
             match onUnknown with
             | Some callback =>
                 match callback type event st with
                 | (Ok _, st1) => (Ok Null, st1)
                 | (Throw e1, st1) => (Throw e1, st1)
                 end
             | None => (Ok Null, st)
             end = (Throw e, st')
             <-> exists callback,
                 onUnknown = Some callback
                 /\ callback type event st = (Throw e, st')) as Callback.
  { intros type. destruct onUnknown as [callback|].
    - destruct (callback type event st) as [[[]|e1] st1] eqn:Called.
      + split; [done|]. intros (? & [= <-] & Again). by rewrite Called in Again.
      + split.
        * intros [= <- <-]. by exists callback.
        * intros (? & [= <-] & Again). congruence.
    - split; [done | by intros (? & ? & _)]. }
  destruct event as [|b|n|s|items|fields]; cbn [get get_opt is_str].
  1: { split; [intros [= <- <-]; left; eauto | by intros [(-> & -> & _)|[? _]]]. }
  1-4: cbn [orb]; rewrite Callback; split;
       [intros Called; right; by repeat split
       | by intros [(_ & _ & [?|[? _]])|(_ & _ & ?)]].
  destruct (is_str (own (str "type") fields) (str "thread.started")) eqn:T1.
  { split; [done|]. intros [(_ & _ & [?|[T _]])|(_ & ? & _)]; [done| |done].
    pose proof (is_str_same _ _ _ T1 T) as E. by vm_compute in E. }
  destruct (is_str (own (str "type") fields) (str "item.created")) eqn:T2.
  { cbn [bind orb].
    pose proof (parseItem_outcome (own (str "item") fields)) as Outcome.
    split.
    - destruct (broken_item (own (str "item") fields)) eqn:Broken.
      + rewrite Outcome. intros [= <- <-]. left. by repeat split; right.
      + by destruct Outcome as [parsed ->].
    - intros [(-> & -> & [?|[_ Broken]])|(_ & ? & _)]; [done| |done].
      rewrite Broken in Outcome. by rewrite Outcome. }
  destruct (is_str (own (str "type") fields) (str "turn.completed")).
  { split; [done|]. by intros [(_ & _ & [?|[? _]])|(_ & ? & _)]. }
  destruct (is_str (own (str "type") fields) (str "turn.failed")).
  { split; [done|]. by intros [(_ & _ & [?|[? _]])|(_ & ? & _)]. }
  cbn [orb]. rewrite Callback. split.
  - intros Called. right. by repeat split.
  - by intros [(_ & _ & [?|[? _]])|(_ & _ & ?)].
Qed.

(** X13. [parseEvent] throws in three cases only. In two of them it throws a
    [TypeError] and leaves the caller's state untouched: the line is the
    JSON text [null], or it is an [item.created] event whose item
    [parseItem] cannot read. In the third the type of the event is one that
    the parser has no case for and the callback throws; the exception and
    the state are then the callback's. With the callback of the provider,
    [_logUnknown], the third case is that of a type without a string (an
    object with a [toString] of its own, or an array that holds one) whose
    count is below 5: a [TypeError], the count of the type grown by one,
    and nothing added to the console. *)
Theorem parseEvent_throws {S : Type} (line : jstr)
    (onUnknown : option (value -> json -> S -> result unit * S))
    (st st' : S) (e : exn) :
  (parseEvent line onUnknown st = (Throw e, st')
   <-> exists event,
       JSON.parse line = Ok event
       /\ (e = TypeError /\ st' = st
           /\ (event = JNull
               \/ is_str (get_opt (Json event) (str "type")) (str "item.created")
                  = true
                  /\ broken_item (get_opt (Json event) (str "item")) = true)
           \/ event <> JNull
              /\ known_type (get_opt (Json event) (str "type")) = false
              /\ exists callback,
                  onUnknown = Some callback
                  /\ callback (get_opt (Json event) (str "type")) event st
                     = (Throw e, st')))
  /\ (forall (this : OpenAI.Provider) (p : OpenAI.Process)
             (after : OpenAI.Provider * OpenAI.Process),
        OpenAI.parseEvent line (this, p) = (Throw e, after)
        <-> e = TypeError
            /\ exists event,
                JSON.parse line = Ok event
                /\ (after = (this, p)
                    /\ (event = JNull
                        \/ is_str (get_opt (Json event) (str "type"))
                             (str "item.created") = true
                           /\ broken_item (get_opt (Json event) (str "item"))
                              = true)
                    \/ let type := get_opt (Json event) (str "type") in
                       let k := OpenAI.key_of type (OpenAI.objects p) in
                       event <> JNull
                       /\ known_type type = false
                       /\ no_string type = true
                       /\ (OpenAI.count this k < 5)%nat
                       /\ after = (OpenAI._logUnknown type (this, p)).2
                       /\ OpenAI.count after.1 k = Datatypes.S (OpenAI.count this k)
                       /\ OpenAI.console after.2 = OpenAI.console p)).
Proof.
  split; [apply parseEvent_throws_when|].
  intros this p after. unfold OpenAI.parseEvent.
  rewrite parseEvent_throws_when. cbv zeta. split.
  - intros (event & Parsed & [(-> & -> & Broken)|(Live & Unknown & Called)]).
    { split; [done|]. exists event. split; [done|]. by left. }
    destruct Called as (callback & [= <-] & Called).
    pose proof (logUnknown_effect (get_opt (Json event) (str "type")) this p)
      as Effect.
    cbv zeta in Effect. rewrite Called in Effect. cbn [fst snd] in Effect.
    destruct Effect as [_ Effect].
    destruct (5 <=? _)%nat eqn:Full; [by destruct Effect as [? _]|].
    apply Nat.leb_gt in Full. destruct Effect as [Counts Effect].
    destruct (no_string (get_opt (Json event) (str "type"))) eqn:NoString;
      [|by destruct Effect as [? _]].
    destruct Effect as [[= <-] Console]. split; [done|].
    exists event. split; [done|]. right. rewrite Called. cbn [fst snd].
    repeat split; try done.
    unfold OpenAI.count at 1. rewrite Counts, lookup_insert.
    by case_decide.
  - intros (-> & event & Parsed & [[-> Broken]|Unknown]).
    { exists event. split; [done|]. by left. }
    destruct Unknown as (Live & Unknown & NoString & Full & -> & _ & _).
    exists event. split; [done|]. right. split; [done|]. split; [done|].
    eexists. split; [done|]. cbv beta.
    pose proof (logUnknown_effect (get_opt (Json event) (str "type")) this p)
      as Effect.
    cbv zeta in Effect. destruct Effect as [_ Effect].
    apply Nat.leb_gt in Full. rewrite Full, NoString in Effect.
    destruct Effect as (_ & Thrown & _).
    destruct (OpenAI._logUnknown _ _) as [r st1]. cbn [fst snd] in *.
    by rewrite Thrown.
Qed.

Lemma split_lines_nonempty (chunk : jstr) : split_lines chunk <> [].
Proof.
  destruct chunk as [|c chunk]; [done|]. simpl.
  destruct (c =? 10)%N; [done|]. by destruct (split_lines chunk).
Qed.

Lemma split_lines_newline (a b : jstr) :
  split_lines (a ++ 10%N :: b) = split_lines a ++ split_lines b.
Proof.
  induction a as [|c a IH]; [done|].
  simpl. destruct (c =? 10)%N; [by rewrite IH|].
  rewrite IH. pose proof (split_lines_nonempty a) as N.
  by destruct (split_lines a).
Qed.

Lemma parseLines_app {S : Type} (lines more : list jstr)
    (onUnknown : option (value -> json -> S -> result unit * S)) (st : S) :
  parseLines (lines ++ more) onUnknown st
  = then_parse (parseLines lines onUnknown st) (parseLines more onUnknown).
Proof.
  revert st. induction lines as [|line lines IH]; intros st.
  - simpl. by destruct (parseLines more onUnknown st) as [[|] ?].
  - cbn [app parseLines]. destruct (nonempty (trim line)); [|apply IH].
    destruct (parseEvent line onUnknown st) as [[event|e] st1]; [|done].
    rewrite IH. unfold then_parse.
    destruct (parseLines lines onUnknown st1) as [[events|e] st2]; [|done].
    destruct (parseLines more onUnknown st2) as [[events'|e] st3]; [|done].
    by rewrite app_assoc.
Qed.

(** X14. A chunk that is two chunks with a line feed between them is parsed as
    the first and then the second are: the events of the first are followed
    by those of the second, the callback sees the unknown events in that
    order, and a throw in the first part ends the parse. *)
Theorem parseChunk_newline {S : Type} (first second : jstr)
    (onUnknown : option (value -> json -> S -> result unit * S)) (st : S) :
  parseChunk (first ++ [10%N] ++ second) onUnknown st
  = then_parse (parseChunk first onUnknown st) (parseChunk second onUnknown).
Proof.
  unfold parseChunk.
  cbn [app].
  by rewrite split_lines_newline, parseLines_app.
Qed.

(** X15. A chunk none of whose lines is JSON, such as a banner or a stack trace
    of the CLI, yields no events: nothing is thrown, and the callback for
    unknown events is not called. *)
Theorem parseChunk_garbage {S : Type} (chunk : jstr)
    (onUnknown : option (value -> json -> S -> result unit * S)) (st : S) :
  (forall line, line ∈ split_lines chunk -> nonempty (trim line) = true ->
                exists e, JSON.parse line = Throw e) ->
  parseChunk chunk onUnknown st = (Ok [], st).
Proof.
  unfold parseChunk. generalize (split_lines chunk). intros lines.
  induction lines as [|line lines IH]; [done|].
  intros Garbage. cbn [parseLines].
  assert (parseLines lines onUnknown st = (Ok [], st)) as Rest.
  { apply IH. intros l Hl. apply Garbage. by right. }
  destruct (nonempty (trim line)) eqn:Blank; [|done].
  destruct (Garbage line) as [e Fails]; [by left|done|].
  unfold parseEvent. by rewrite Fails, Rest.
Qed.

End Parser.

(* --------------------------------------------------------------------- *)
(** ** The direct call: its client, its outcomes, and the answers it reads *)
(* --------------------------------------------------------------------- *)

Section DirectCall.
Import Js DirectApi.
Context `{Host} `{Ajv}.

Local Arguments str : simpl never.

(** [getClient] makes one client and keeps it. A call that returns a client
    leaves that client in place, and every later call returns it, whatever
    the environment holds by then; a client is made only from a credential
    that is set and not empty; and a call throws only when there is neither
    a client nor a credential, and then leaves no client behind. *)
Lemma getClient_singleton (ANTHROPIC_API_KEY : option jstr)
    (anthropicClient : option jstr) :
  match getClient ANTHROPIC_API_KEY anthropicClient with
  | (Ok client, kept) =>
      kept = Some client
      /\ (anthropicClient = None ->
          ANTHROPIC_API_KEY = Some client /\ client <> [])
      /\ (forall later, getClient later kept = (Ok client, kept))
  | (Throw _, kept) =>
      kept = None /\ anthropicClient = None
      /\ env_truthy ANTHROPIC_API_KEY = false
  end.
Proof.
  unfold getClient. destruct anthropicClient as [client|]; [done|].
  destruct ANTHROPIC_API_KEY as [[|c key]|]; done.
Qed.

(** X16. The promise of [callDirectApi] is rejected exactly when there is no
    client yet and the credential is not set; in every other case it
    resolves, with a failure object when the request or the answer
    fails. *)
Theorem callDirectApi_rejects_exactly (ANTHROPIC_API_KEY : option jstr)
    (anthropicClient : option jstr) (jsonSchema : value) (api : ApiOutcome) :
  match callDirectApi_promise ANTHROPIC_API_KEY anthropicClient jsonSchema api with
  | (Ok outcome, _) =>
      outcome = callDirectApi jsonSchema api
      /\ (anthropicClient <> None \/ env_truthy ANTHROPIC_API_KEY = true)
  | (Throw _, kept) =>
      kept = None /\ anthropicClient = None
      /\ env_truthy ANTHROPIC_API_KEY = false
  end.
Proof.
  unfold callDirectApi_promise, getClient.
  destruct anthropicClient as [client|]; [by split; [|left]|].
  destruct ANTHROPIC_API_KEY as [[|c key]|]; try done.
  split; [done | by right].
Qed.

(** X17. An agent that [shouldUseDirectApi] sends down the fast path gets its
    call through [getClient]: the promise resolves. *)
Theorem fast_path_resolves (ANTHROPIC_API_KEY : option jstr)
    (agentConfig : AgentConfig) (anthropicClient : option jstr)
    (jsonSchema : value) (api : ApiOutcome) :
  shouldUseDirectApi ANTHROPIC_API_KEY agentConfig = true ->
  exists kept,
    callDirectApi_promise ANTHROPIC_API_KEY anthropicClient jsonSchema api
    = (Ok (callDirectApi jsonSchema api), kept)
    /\ kept <> None.
Proof.
  unfold shouldUseDirectApi. intros Fast.
  destruct (env_truthy ANTHROPIC_API_KEY) eqn:Key; [|done].
  unfold callDirectApi_promise, getClient. rewrite Key.
  destruct anthropicClient as [client|]; [by eexists|].
  exists ANTHROPIC_API_KEY. split; [done|]. by destruct ANTHROPIC_API_KEY.
Qed.

Lemma parse_throws (text : jstr) (e : exn) :
  JSON.parse text = Throw e -> e = SyntaxError.
Proof.
  unfold JSON.parse. destruct (JSON.value _ _) as [[j rest]|]; [|congruence].
  destruct (JSON.skip_ws rest); congruence.
Qed.

Lemma extract_json_throws (rawResult : jstr) (e : exn) :
  extract_json rawResult = Throw e ->
  e = SyntaxError
  \/ e = Error (str "Could not parse JSON from response: " ++ take 200 rawResult).
Proof.
  unfold extract_json.
  destruct (JSON.parse rawResult) as [whole|e0]; [done|]. cbn [catch].
  destruct (match_fence rawResult) as [inner|].
  { intros Thrown. left. by apply parse_throws in Thrown. }
  destruct (match_object rawResult) as [object|].
  { intros Thrown. left. by apply parse_throws in Thrown. }
  intros [= <-]. by right.
Qed.

(** X18. The result has no field for rate limiting. A request that was
    rejected with the status 429 is reported as a failure with a fixed
    message whatever the error was, the same object that a failure with
    this message and any other status gives; every other rejection is
    reported with its own error. An answer that was received is reported
    with this message in one case only, the schema compiler having thrown
    an error with it: an answer that cannot be parsed or that fails the
    schema has another message. *)
Theorem callDirectApi_rate_limited (jsonSchema : value) :
  (forall e status,
      callDirectApi jsonSchema (Rejected (Some 429) e) = Failure rate_limited
      /\ callDirectApi jsonSchema (Rejected status rate_limited)
         = Failure rate_limited)
  /\ (forall status e,
        status <> Some 429 ->
        callDirectApi jsonSchema (Rejected status e) = Failure e)
  /\ (forall response,
        callDirectApi jsonSchema (Resolved response) = Failure rate_limited ->
        truthy jsonSchema = true /\ compile jsonSchema = Throw rate_limited).
Proof.
  split; [|split].
  - intros e status. split; [done|]. unfold callDirectApi. by case_bool_decide.
  - intros status e Other. unfold callDirectApi. by case_bool_decide.
  - intros response. unfold callDirectApi, parse_result.
    destruct (truthy jsonSchema); [|done].
    destruct (extract_json (raw_result response)) as [result|e] eqn:Parsed.
    + cbn [bind]. unfold validate_schema.
      destruct (compile jsonSchema) as [validate|e]; cbn [bind].
      * destruct (validate result) as [errors|]; [|done].
        intros [= Same]; try by vm_compute in Same.
      * by intros [= ->].
    + cbn [bind]. intros [= ->].
      apply extract_json_throws in Parsed as [Syntax|Message]; [done|].
      injection Message as Message; try by vm_compute in Message.
Qed.

Lemma drop_spaces_all (spaces : jstr) :
  forallb is_space spaces = true -> drop_spaces spaces = [].
Proof.
  intros E. rewrite <- (app_nil_r spaces). by rewrite drop_spaces_app.
Qed.

Lemma drop_spaces_length (s : jstr) : (length (drop_spaces s) <= length s)%nat.
Proof.
  induction s as [|c s IH]; [done|]. simpl.
  destruct (is_space c); simpl; lia.
Qed.

Lemma drop_spaces_keeps (s rest : jstr) :
  drop_spaces s <> [] -> drop_spaces (s ++ rest) = drop_spaces s ++ rest.
Proof.
  induction s as [|c s IH]; [done|]. simpl.
  destruct (is_space c); [apply IH | done].
Qed.

Lemma trim_spaces_r (s spaces : jstr) :
  forallb is_space spaces = true -> trim (s ++ spaces) = trim s.
Proof.
  intros E. unfold trim.
  destruct (drop_spaces s) as [|c kept] eqn:D.
  - assert (drop_spaces (s ++ spaces) = []) as ->; [|done].
    destruct (drop_spaces_spec s) as (lead & S & L). rewrite D, app_nil_r in S.
    subst s. apply drop_spaces_all.
    rewrite List.forallb_app. apply andb_true_iff. split; [exact L | exact E].
  - rewrite drop_spaces_keeps by (by rewrite D). rewrite D.
    rewrite reverse_app. rewrite drop_spaces_app; [done|].
    rewrite forallb_forall in E. apply forallb_forall.
    intros x Hx. apply E. apply list_elem_of_In.
    apply list_elem_of_In in Hx. rewrite elem_of_reverse in Hx. exact Hx.
Qed.

Lemma trimmed_head (c : cu) (s : jstr) :
  trim (c :: s) = c :: s -> is_space c = false.
Proof.
  intros E. destruct (is_space c) eqn:Sp; [|done].
  apply (f_equal length) in E. unfold trim in E.
  rewrite length_reverse in E.
  pose proof (drop_spaces_length (reverse (drop_spaces (c :: s)))) as L1.
  rewrite length_reverse in L1.
  simpl in E, L1. rewrite Sp in E, L1.
  pose proof (drop_spaces_length s). lia.
Qed.

Lemma spaces_no_backquote (spaces : jstr) :
  forallb is_space spaces = true -> 96%N ∉ spaces.
Proof.
  intros E Hin. rewrite forallb_forall in E.
  apply list_elem_of_In in Hin. by apply E in Hin.
Qed.

(** X19. An answer that wraps its JSON in a fence, with prose around it: when
    the text before the fence has no backquote and the fenced text has
    none, [extract_json] reads the fenced text, without the white space
    around it, and nothing else (unless the answer as a whole is JSON). *)
Theorem fenced_answer_extracted
    (before leading text trailing after : jstr) :
  (96%N ∉ before) ->
  (96%N ∉ text) ->
  trim text = text ->
  forallb is_space leading = true ->
  forallb is_space trailing = true ->
  let rawResult :=
    before ++ str "```json" ++ leading ++ text ++ trailing ++ str "```"
    ++ after in
  match_fence rawResult = Some (if nonempty text then text ++ trailing else [])
  /\ extract_json rawResult
     = catch (JSON.parse rawResult) (fun _ => JSON.parse text).
Proof.
  intros Before Text Trimmed Leading Trailing rawResult.
  assert (match_fence rawResult
          = Some (if nonempty text then text ++ trailing else [])) as Fence.
  { unfold match_fence, rawResult.
    change (str "```json") with (96%N :: [96; 96; 106; 115; 111; 110]%N).
    rewrite find_sub_fresh by done.
    rewrite drop_spaces_app by done.
    change (str "```") with (96%N :: [96; 96]%N).
    destruct text as [|c text]; cbn [nonempty].
    - cbn [app]. rewrite drop_spaces_app by done.
      exact (f_equal (fun found : option (jstr * jstr) =>
                        match found with
                        | Some (inner, _) => Some inner
                        | None => None
                        end)
               (find_sub_fresh 96%N [96%N; 96%N] [] after
                  (not_elem_of_nil _))).
    - pose proof (trimmed_head _ _ Trimmed) as Head.
      cbn [app]. cbn [drop_spaces]. rewrite Head.
      assert (96%N ∉ (c :: text) ++ trailing) as Fresh.
      { apply not_elem_of_app. split; [done | by apply spaces_no_backquote]. }
      pose proof (find_sub_fresh 96%N [96%N; 96%N] _ after Fresh) as Found.
      rewrite <- app_assoc in Found.
      exact (f_equal (fun found : option (jstr * jstr) =>
                        match found with
                        | Some (inner, _) => Some inner
                        | None => None
                        end) Found). }
  split; [done|].
  unfold extract_json. rewrite Fence.
  destruct (JSON.parse rawResult); [done|]. cbn [catch].
  destruct text as [|c text]; cbn [nonempty]; [by rewrite <- Trimmed|].
  by rewrite trim_spaces_r, Trimmed.
Qed.

(** X20. An answer without a backquote that holds an object between prose: when
    no brace opens before the object and none closes after it,
    [extract_json] reads the object (unless the answer as a whole is
    JSON). *)
Theorem bare_object_extracted (before body after : jstr) :
  let rawResult := before ++ str "{" ++ body ++ str "}" ++ after in
  (96%N ∉ rawResult) ->
  (123%N ∉ before) ->
  (125%N ∉ after) ->
  match_object rawResult = Some (str "{" ++ body ++ str "}")
  /\ extract_json rawResult
     = catch (JSON.parse rawResult)
             (fun _ => JSON.parse (str "{" ++ body ++ str "}")).
Proof.
  intros rawResult Plain Before After.
  assert (match_object rawResult = Some (str "{" ++ body ++ str "}")) as Object.
  { unfold match_object, rawResult.
    change (str "{") with (123%N :: []). change (str "}") with [125%N].
    rewrite app_assoc.
    change ((before ++ [123%N]) ++ body ++ [125%N] ++ after)
      with ((before ++ [123%N]) ++ body ++ 125%N :: after).
    rewrite <- app_assoc.
    rewrite find_sub_fresh by done. cbn [app].
    by rewrite upto_last_found. }
  split; [done|].
  unfold extract_json. rewrite Object.
  assert (match_fence rawResult = None) as ->; [|done].
  unfold match_fence.
  change (str "```json") with (96%N :: [96; 96; 106; 115; 111; 110]%N).
  by rewrite find_sub_absent.
Qed.

End DirectCall.

(* --------------------------------------------------------------------- *)
(** ** The status footer: durations, escape sequences, the header line *)
(* --------------------------------------------------------------------- *)

Section Footer.
Import Js StatusFooter.

Local Arguments str : simpl never.
Local Arguments number_string : simpl never.

(** X21. [formatDuration] by the size of the duration, for a whole number of
    milliseconds below 2^40 in either direction: from one hour on it shows
    hours and minutes, from one minute on minutes and seconds, and below
    that (also for a negative duration) whole seconds, rounded down; the
    minutes and seconds shown beside a larger unit are below 60. *)
Theorem formatDuration_units (ms : Z) :
  Z.abs ms < 2 ^ 40 ->
  formatDuration ms
  = Some (if 3600000 <=? ms then
            number_string (ms / 3600000) ++ str "h"
            ++ number_string ((ms / 60000) mod 60) ++ str "m"
          else if 60000 <=? ms then
            number_string (ms / 60000) ++ str "m"
            ++ number_string ((ms / 1000) mod 60) ++ str "s"
          else number_string (ms / 1000) ++ str "s").
Proof.
  intros Exact. unfold formatDuration, exact_duration.
  apply Z.ltb_lt in Exact as ->. cbv zeta.
  rewrite !Z.div_div by lia. change (1000 * (60 * 60)) with 3600000.
  change (1000 * 60) with 60000.
  destruct (Z.leb_spec 3600000 ms) as [Hours|Hours].
  - assert (0 < ms / 3600000) as Pos by (apply Z.div_str_pos; lia).
    apply Z.ltb_lt in Pos as ->.
    rewrite Z.rem_mod_nonneg; [done | | lia].
    apply Z.div_pos; lia.
  - assert (ms / 3600000 <= 0) as Neg.
    { apply Z.lt_succ_r. apply Z.div_lt_upper_bound; lia. }
    assert ((0 <? ms / 3600000) = false) as -> by (apply Z.ltb_ge; lia).
    destruct (Z.leb_spec 60000 ms) as [Minutes|Minutes].
    + assert (0 < ms / 60000) as Pos by (apply Z.div_str_pos; lia).
      apply Z.ltb_lt in Pos as ->.
      rewrite Z.rem_mod_nonneg; [done | | lia].
      apply Z.div_pos; lia.
    + assert (ms / 60000 <= 0) as Neg'.
      { apply Z.lt_succ_r. apply Z.div_lt_upper_bound; lia. }
      by assert ((0 <? ms / 60000) = false) as -> by (apply Z.ltb_ge; lia).
Qed.

Lemma tail_length_bound (s : jstr) (n : nat) :
  tail_length s = Some n -> (1 <= n <= length s)%nat.
Proof.
  revert n. induction s as [|c s IH]; intros n; simpl; [done|].
  destruct (is_param c).
  - destruct (tail_length s) as [m|]; [|done]. intros [= <-].
    specialize (IH m eq_refl). lia.
  - destruct (is_letter c); [|done]. intros [= <-]. lia.
Qed.

Lemma escape_length_bound (s : jstr) (n : nat) :
  escape_length s = Some n -> (3 <= n <= length s)%nat.
Proof.
  destruct s as [|e [|b s]]; simpl; try done.
  destruct ((e =? ESC)%N && (b =? 91)%N); [|done].
  destruct (tail_length s) as [m|] eqn:T; [|done]. intros [= <-].
  apply tail_length_bound in T. lia.
Qed.

Lemma tail_length_app (a b : jstr) :
  at_escape b -> tail_length (a ++ b) = tail_length a.
Proof.
  intros B. induction a as [|c a IH].
  - by destruct B as [->|[rest ->]].
  - cbn [app tail_length]. by rewrite IH.
Qed.

Lemma escape_length_app (c : N) (a b : list N) :
  at_escape b -> escape_length (c :: a ++ b) = escape_length (c :: a).
Proof.
  intros B. destruct a as [|d a].
  - destruct B as [->|[rest ->]]; [done|].
    cbn [app escape_length]. by rewrite andb_false_r.
  - cbn [app escape_length]. by rewrite tail_length_app.
Qed.

Lemma strip_app (k : nat) (a b : jstr) :
  (k <= length a)%nat -> at_escape b ->
  strip k (a ++ b) = strip k a ++ strip 0 b.
Proof.
  intros K B. revert k K. induction a as [|c a IH]; intros k K.
  - simpl in K. by replace k with 0%nat by lia.
  - cbn [app strip]. destruct k as [|k].
    + rewrite escape_length_app by done.
      destruct (escape_length (c :: a)) as [n|] eqn:E.
      * apply escape_length_bound in E. simpl in E. apply IH. lia.
      * cbn [app]. f_equal. apply IH. lia.
    + apply IH. simpl in K. lia.
Qed.

Lemma strip_skip (a : list N) (x : N) (rest : list N) :
  strip (S (length a)) (a ++ x :: rest) = strip 0 rest.
Proof. induction a as [|c a IH]; [done|]. exact IH. Qed.

Lemma letter_no_param (c : N) : is_letter c = true -> is_param c = false.
Proof.
  unfold is_letter, is_param. intros L.
  apply orb_true_iff in L. rewrite !andb_true_iff, !N.leb_le in L.
  apply orb_false_iff. split.
  - apply andb_false_iff. right. apply N.leb_gt. lia.
  - apply N.eqb_neq. lia.
Qed.

Lemma tail_length_sequence (params : list N) (letter : N) (rest : list N) :
  forallb is_param params = true ->
  is_letter letter = true ->
  tail_length (params ++ letter :: rest) = Some (S (length params)).
Proof.
  intros P L. induction params as [|c params IH].
  - simpl. by rewrite (letter_no_param _ L), L.
  - simpl in P. apply andb_true_iff in P as [Pc P].
    cbn [app tail_length length]. by rewrite Pc, (IH P).
Qed.

(** X22. [stripAnsi] takes out a control sequence: the escape character and an
    opening bracket, digits and semicolons, and a letter. *)
Theorem stripAnsi_sequence (params : list N) (letter : N) (rest : list N) :
  forallb is_param params = true ->
  is_letter letter = true ->
  stripAnsi (CSI ++ params ++ letter :: rest) = stripAnsi rest.
Proof.
  intros P L. unfold stripAnsi, CSI. cbn [app strip escape_length].
  rewrite N.eqb_refl. cbn [andb].
  rewrite (tail_length_sequence _ _ _ P L).
  exact (strip_skip params letter rest).
Qed.

Lemma strip_plain_app (a b : list N) :
  (ESC ∉ a) -> strip 0 (a ++ b) = a ++ strip 0 b.
Proof.
  intros Plain. induction a as [|c a IH]; [done|].
  apply not_elem_of_cons in Plain as [Ne Plain].
  cbn [app strip].
  assert (escape_length (c :: a ++ b) = None) as ->.
  { destruct (a ++ b); [done|]. cbn [escape_length].
    assert ((c =? ESC)%N = false) as -> by (apply N.eqb_neq; congruence).
    done. }
  by rewrite (IH Plain).
Qed.

Lemma stripAnsi_app (a b : jstr) :
  at_escape b -> stripAnsi (a ++ b) = stripAnsi a ++ stripAnsi b.
Proof. intros B. apply strip_app; [lia|done]. Qed.

(** X23. Stripping goes through a text piece by piece wherever a piece begins
    with the escape character: what precedes cannot complete a control
    sequence across such a point. And a text without the escape character
    is left as it is. *)
Theorem stripAnsi_splits (a b : jstr) :
  (at_escape b -> stripAnsi (a ++ b) = stripAnsi a ++ stripAnsi b)
  /\ ((ESC ∉ a) -> stripAnsi a = a).
Proof.
  split.
  - apply stripAnsi_app.
  - intros Plain. unfold stripAnsi.
    rewrite <- (app_nil_r a) at 1. rewrite strip_plain_app by done.
    by rewrite app_nil_r.
Qed.

Lemma repeat_str_plain (c : N) (n : Z) :
  repeat_str [c] n = replicate (Z.to_nat n) c.
Proof.
  unfold repeat_str. induction (Z.to_nat n) as [|k IH]; [done|].
  simpl. by rewrite IH.
Qed.

(** X24. The header line as the terminal shows it, the colour sequences left
    out, is as wide as the terminal when the content fits, and one column
    wider than the content otherwise; the content is the corner and, when a
    cluster is set, its id without the first [cluster-], between spaces. *)
Theorem buildHeaderLine_width (clusterId : option jstr) (width : Z) :
  let shown (s : jstr) := Z.of_nat (length (stripAnsi s)) in
  shown (buildHeaderLine clusterId width)
  = Z.max width (shown (header_content clusterId) + 1)
  /\ shown (header_content clusterId)
     = if BaseProvider.given clusterId
       then 4 + shown (replace_first (str "cluster-") []
                                     (default [] clusterId))
       else 2.
Proof.
  intros shown. unfold shown, buildHeaderLine. cbv zeta.
  set (content := header_content clusterId).
  set (padding := Z.max 0 (width - Z.of_nat (length (stripAnsi content)) - 1)).
  assert (stripAnsi (content ++ COLORS.gray ++ repeat_str [9472%N] padding
                     ++ [9488%N] ++ COLORS.reset)
          = stripAnsi content ++ replicate (Z.to_nat padding) 9472%N
            ++ [9488%N]) as Line.
  { rewrite (stripAnsi_app content
                (COLORS.gray ++ repeat_str [9472%N] padding ++ [9488%N]
                 ++ COLORS.reset)) by (right; by eexists).
    f_equal. rewrite repeat_str_plain.
    change (stripAnsi (COLORS.gray ++ ?s)) with (strip 0 s).
    rewrite strip_plain_app.
    - done.
    - intros Hin. by apply elem_of_replicate in Hin as [? _]. }
  assert (stripAnsi content
          = [9484%N; 9472%N]
            ++ (if BaseProvider.given clusterId
                then [32%N]
                     ++ stripAnsi (replace_first (str "cluster-") []
                                                 (default [] clusterId))
                     ++ [32%N]
                else [])) as Content.
  { unfold content, header_content.
    destruct (BaseProvider.given clusterId); [|done].
    change (stripAnsi (COLORS.gray ++ [9484%N; 9472%N] ++ COLORS.reset
                       ++ str " " ++ COLORS.cyan ++ COLORS.bold ++ ?s))
      with ([9484%N; 9472%N; 32%N] ++ stripAnsi s).
    rewrite (stripAnsi_app
                (replace_first (str "cluster-") [] (default [] clusterId))
                (COLORS.reset ++ str " ")) by (right; by eexists).
    done. }
  split.
  - rewrite Line, !length_app, length_replicate. cbn [length].
    unfold padding. generalize (length (stripAnsi content)). intros n. lia.
  - rewrite Content. destruct (BaseProvider.given clusterId); [|done].
    rewrite !length_app. cbn [length].
    generalize (length (stripAnsi (replace_first (str "cluster-") []
                                                 (default [] clusterId)))).
    intros n. lia.
Qed.

End Footer.

(* --------------------------------------------------------------------- *)
(** ** Runs of the further properties *)
(* --------------------------------------------------------------------- *)

(** No help text: a build that asks for JSON output gets [--json], and
    nothing is printed. *)
Lemma unreadable_help_passes_flags_json :
  let options :=
    {| Cli.modelSpec := None; Cli.outputFormat := Some (Js.str "json");
       Cli.jsonSchema := Js.Undefined; Cli.cwd := None;
       Cli.autoApprove := false;
       Cli.cliFeatures := Some (OpenAI.getCliFeatures None OpenAI.new).1 |} in
  (Js.str "--json"
     ∈ Cli.args (@OpenAI.buildCommand example_host (Js.str "classify")
                   options OpenAI.start).1
   <-> Cli.is_format options "stream-json" || Cli.is_format options "json"
       = true)
  /\ (@OpenAI.buildCommand example_host (Js.str "classify") options
        OpenAI.start).2
     = OpenAI.start.
Proof.
  intros options.
  apply (@unreadable_help_passes_flags example_host None OpenAI.new
           {| Cli.capability := "supportsJson"; Cli.flag := Js.str "--json";
              Cli.requested := fun o =>
                Cli.is_format o "stream-json" || Cli.is_format o "json" |}
           (Js.str "classify") options OpenAI.start).
  - reflexivity.
  - reflexivity.
  - reflexivity.
  - simpl. auto.
  - compute_done.
Defined.

(** A help text that names [--json] and no schema flag: JSON output is
    asked for and passed. *)
Lemma readable_help_decides_flags_usage :
  let help := Js.str "Usage: codex exec [OPTIONS] --json -C <DIR>" in
  let options :=
    {| Cli.modelSpec := None; Cli.outputFormat := Some (Js.str "json");
       Cli.jsonSchema := Js.Undefined; Cli.cwd := None;
       Cli.autoApprove := false;
       Cli.cliFeatures :=
         Some (OpenAI.getCliFeatures (Some help) OpenAI.new).1 |} in
  Js.str "--json"
    ∈ Cli.args (@OpenAI.buildCommand example_host (Js.str "classify")
                  options OpenAI.start).1
  <-> Cli.is_format options "stream-json" || Cli.is_format options "json"
      = true
      /\ OpenAI.test_flag (Js.str "--json") help = true.
Proof.
  intros help options.
  refine (proj1 (@readable_help_decides_flags example_host help OpenAI.new
                   (Js.str "classify") options OpenAI.start _ _ _ _)).
  - reflexivity.
  - reflexivity.
  - reflexivity.
  - intros g Hg. simpl in Hg.
    repeat (destruct Hg as [<-|Hg]; [compute_done|]). done.
Defined.

(** The message of an assistant with a text and a thought. *)
Lemma parseItem_shapes_message :
  exists text thinking,
    [OutputParser.Text (Js.str "hi"); OutputParser.Thinking (Js.str "hm")]
    = [OutputParser.Text text; OutputParser.Thinking thinking]
    /\ text <> [] /\ thinking <> [].
Proof.
  apply (@parseItem_shapes example_host
           (Js.Json (Js.JObj
              [ (Js.str "type", Js.JStr (Js.str "message"));
                (Js.str "role", Js.JStr (Js.str "assistant"));
                (Js.str "content",
                 Js.JArr
                   [ Js.JObj [ (Js.str "type", Js.JStr (Js.str "text"));
                               (Js.str "text", Js.JStr (Js.str "hi")) ];
                     Js.JObj [ (Js.str "type", Js.JStr (Js.str "thinking"));
                               (Js.str "text", Js.JStr (Js.str "hm")) ] ]) ]))
           (OutputParser.Many
              [OutputParser.Text (Js.str "hi");
               OutputParser.Thinking (Js.str "hm")])).
  by vm_compute.
Defined.

(** A conductor with the credential set and no client yet. *)
Lemma fast_path_resolves_conductor :
  let schema := Js.Json (Js.JObj []) in
  let api := text_response (Js.dq "{'complexity':'SIMPLE'}") in
  exists kept,
    @DirectApi.callDirectApi_promise example_host example_ajv
      (Some (Js.str "sk-test")) None schema api
    = (Js.Ok (@DirectApi.callDirectApi example_host example_ajv schema api),
       kept)
    /\ kept <> None.
Proof.
  intros schema api.
  apply (@fast_path_resolves example_host example_ajv
           (Some (Js.str "sk-test"))
           {| DirectApi.useDirectApi := Js.Undefined;
              DirectApi.role := Js.Json (Js.JStr (Js.str "conductor"));
              DirectApi.outputFormat := Js.Json (Js.JStr (Js.str "json"));
              DirectApi.jsonSchema := schema |}
           None schema api).
  by vm_compute.
Defined.

(** A fenced answer between two sentences. *)
Lemma fenced_answer_extracted_prose :
  let text := Js.dq "{'complexity':'SIMPLE'}" in
  let rawResult :=
    Js.str "Here you go: " ++ Js.str "```json" ++ Js.str " " ++ text
    ++ Js.str " " ++ Js.str "```" ++ Js.str " Done." in
  DirectApi.match_fence rawResult
  = Some (if Js.nonempty text then text ++ Js.str " " else [])
  /\ DirectApi.extract_json rawResult
     = Js.catch (JSON.parse rawResult) (fun _ => JSON.parse text).
Proof.
  intros text.
  apply (fenced_answer_extracted (Js.str "Here you go: ") (Js.str " ") text
           (Js.str " ") (Js.str " Done.")).
  - compute_done.
  - compute_done.
  - by vm_compute.
  - reflexivity.
  - reflexivity.
Defined.

(** An object between two half sentences. *)
Lemma bare_object_extracted_prose :
  let rawResult :=
    Js.str "The result is " ++ Js.str "{" ++ Js.dq "'complexity':'SIMPLE'"
    ++ Js.str "}" ++ Js.str " as asked." in
  DirectApi.match_object rawResult
  = Some (Js.str "{" ++ Js.dq "'complexity':'SIMPLE'" ++ Js.str "}")
  /\ DirectApi.extract_json rawResult
     = Js.catch (JSON.parse rawResult)
         (fun _ => JSON.parse (Js.str "{" ++ Js.dq "'complexity':'SIMPLE'"
                               ++ Js.str "}")).
Proof.
  apply (bare_object_extracted (Js.str "The result is ")
           (Js.dq "'complexity':'SIMPLE'") (Js.str " as asked.")).
  - compute_done.
  - compute_done.
  - compute_done.
Defined.

(** Bold green, then a word. *)
Lemma stripAnsi_sequence_green :
  StatusFooter.stripAnsi
    (StatusFooter.CSI ++ Js.str "1;32" ++ 109%N :: Js.str "ok")
  = StatusFooter.stripAnsi (Js.str "ok").
Proof.
  apply (stripAnsi_sequence (Js.str "1;32") 109%N (Js.str "ok")); reflexivity.
Defined.

(** Two lines of a stack trace. *)
Lemma parseChunk_garbage_trace :
  @OutputParser.parseChunk example_host unit
    (Js.str "Error: spawn codex ENOENT" ++ [10%N] ++ Js.str "    at onErrorNT")
    None tt
  = (Js.Ok [], tt).
Proof.
  apply (@parseChunk_garbage example_host unit).
  intros line Hin _.
  assert (line = Js.str "Error: spawn codex ENOENT"
          \/ line = Js.str "    at onErrorNT") as [->| ->].
  { vm_compute in Hin. apply elem_of_cons in Hin as [->|Hin]; [by left|].
    apply elem_of_cons in Hin as [->|Hin]; [by right|].
    by apply elem_of_nil in Hin. }
  - eexists. by vm_compute.
  - eexists. by vm_compute.
Defined.

(** An hour, a minute and a second in milliseconds, and a little more. *)
Lemma formatDuration_units_hour :
  StatusFooter.formatDuration 3661500 = Some (Js.str "1h1m")
  /\ StatusFooter.formatDuration 3661500
     = Some (StatusFooter.number_string 1 ++ Js.str "h"
             ++ StatusFooter.number_string 1 ++ Js.str "m").
Proof.
  split; [by vm_compute|].
  exact (formatDuration_units 3661500 eq_refl).
Defined.
